(** * CairoSVG surface: value resolvers, path interpreter and tree renderer

    A shallow embedding of [cairosvg/surface.py], followed by the
    properties of it that the specification states.

    - Python strings are byte strings ([string]); the methods of [str] are
      modelled on ASCII text ([isdigit], [lower], [upper] and whitespace are
      the ASCII ones).
    - Python floats are IEEE binary64 numbers, the kernel's primitive
      floats; [float(s)], [int / int] and the conversion of an [int] round
      to nearest, ties to even.  A number is a [value]: [None], an [int] or
      a [float].
    - Exceptions are the [Raise] results of a [result]; a computation on the
      surface returns its result together with the surface, so that what
      was drawn before an exception stays drawn.
    - The cairo context is the chronological list of the calls issued on
      it.  A call succeeds when its arguments convert to C doubles; the
      current point and the text extents are functions of the calls issued.
    - The language is Python 3: [/] is true division and a dictionary is
      iterated in insertion order.
    - [while] loops take fuel; the recursion of [draw] takes the depth that
      the interpreter still allows and raises [RecursionError] beyond it. *)

From Stdlib Require Import ZArith String Ascii List Bool Lia Arith.
From Stdlib Require Import Floats.PrimFloat Floats.FloatOps Floats.SpecFloat.
From Stdlib Require Import Numbers.Cyclic.Int63.Uint63.
Import ListNotations.

Set Warnings "-inexact-float,-register-all".
Local Open Scope list_scope.
Local Open Scope string_scope.

(** ** Exceptions and results *)

Inductive exn : Set :=
| TypeError | ValueError | AttributeError | KeyError | NameError
| NotImplementedError | ZeroDivisionError | OverflowError | RecursionError
| LoaderError.

(** [Diverge] is only produced when the fuel of a [while] loop runs out: it
    stands for a loop that is still running, never for a Python exception. *)
Inductive result (A : Type) : Type :=
| Ok (a : A)
| Raise (e : exn)
| Diverge.
Arguments Ok {A} a.
Arguments Raise {A} e.
Arguments Diverge {A}.

Definition rbind {A B} (r : result A) (f : A -> result B) : result B :=
  match r with
  | Ok a => f a
  | Raise e => Raise e
  | Diverge => Diverge
  end.

Declare Scope res_scope.
Delimit Scope res_scope with res.
Notation "x <- r ;; k" := (rbind r (fun x => k))
  (at level 61, r at next level, right associativity) : res_scope.
Notation "' p <- r ;; k" := (rbind r (fun x => let p := x in k))
  (at level 61, p pattern, r at next level, right associativity) : res_scope.

(** ** Python [str] methods *)

Module Str.

Definition space : ascii := " "%char.

(** ASCII part of [str.isspace]: TAB, LF, VT, FF, CR, FS, GS, RS, US, SP. *)
Definition isspace (c : ascii) : bool :=
  let n := nat_of_ascii c in
  (((9 <=? n) && (n <=? 13)) || ((28 <=? n) && (n <=? 32)))%nat.

Definition isdigit_char (c : ascii) : bool :=
  let n := nat_of_ascii c in ((48 <=? n) && (n <=? 57))%nat.

Fixpoint all_chars (p : ascii -> bool) (s : string) : bool :=
  match s with
  | EmptyString => true
  | String c s' => p c && all_chars p s'
  end.

(** [s.isdigit()]: at least one character and all of them digits. *)
Definition isdigit (s : string) : bool :=
  match s with
  | EmptyString => false
  | _ => all_chars isdigit_char s
  end.

Fixpoint mem_char (c : ascii) (s : string) : bool :=
  match s with
  | EmptyString => false
  | String d s' => Ascii.eqb c d || mem_char c s'
  end.

(** [sub in s] *)
Fixpoint contains (sub s : string) : bool :=
  match s with
  | EmptyString => prefix sub EmptyString
  | String _ s' => prefix sub s || contains sub s'
  end.

Fixpoint drop (n : nat) (s : string) : string :=
  match n, s with
  | S k, String _ s' => drop k s'
  | _, _ => s
  end.

(** [s.replace(old, new)] for a non-empty [old]: a left-to-right scan of
    non-overlapping occurrences; [skip] counts the characters of a matched
    occurrence that are still to be passed over. *)
Fixpoint replace_from (old new : string) (skip : nat) (s : string) : string :=
  match s with
  | EmptyString => EmptyString
  | String c s' =>
      match skip with
      | S k => replace_from old new k s'
      | O =>
          if prefix old s
          then new ++ replace_from old new (String.length old - 1) s'
          else String c (replace_from old new 0 s')
      end
  end.

Fixpoint interleave (new s : string) : string :=
  match s with
  | EmptyString => new
  | String c s' => new ++ String c (interleave new s')
  end.

Definition replace (old new s : string) : string :=
  match old with
  | EmptyString => interleave new s
  | _ => replace_from old new 0 s
  end.

(** [s.replace(old, new, 1)] for a non-empty [old] *)
Fixpoint replace_first (old new s : string) : string :=
  match s with
  | EmptyString => EmptyString
  | String c s' =>
      if prefix old s then new ++ drop (String.length old) s
      else String c (replace_first old new s')
  end.

Definition replace1 (old new s : string) : string :=
  match old with
  | EmptyString => new ++ s
  | _ => replace_first old new s
  end.

(** [s.lstrip(chars)] *)
Fixpoint lstrip_by (p : ascii -> bool) (s : string) : string :=
  match s with
  | EmptyString => EmptyString
  | String c s' => if p c then lstrip_by p s' else s
  end.

(** [s.rstrip(chars)] *)
Fixpoint rstrip_by (p : ascii -> bool) (s : string) : string :=
  match s with
  | EmptyString => EmptyString
  | String c s' =>
      match rstrip_by p s' with
      | EmptyString => if p c then EmptyString else String c EmptyString
      | r => String c r
      end
  end.

Definition strip_by (p : ascii -> bool) (s : string) : string :=
  rstrip_by p (lstrip_by p s).

(** [s.strip()] *)
Definition strip (s : string) : string := strip_by isspace s.
(** [s.strip(chars)] and [s.lstrip(chars)] *)
Definition strip_chars (chars s : string) : string :=
  strip_by (fun c => mem_char c chars) s.
Definition lstrip_chars (chars s : string) : string :=
  lstrip_by (fun c => mem_char c chars) s.

(** [s.split(sep, maxsplit)] for a one-character separator; [cur] is the
    token being read, reversed.  Every call site of the source passes a
    one-character separator. *)
Fixpoint rev_append (r s : string) : string :=
  match r with
  | EmptyString => s
  | String c r' => rev_append r' (String c s)
  end.

Fixpoint split_from (sep : ascii) (maxsplit : option nat) (cur : string)
  (s : string) : list string :=
  match s with
  | EmptyString => [rev_append cur EmptyString]
  | String c s' =>
      match maxsplit with
      | Some O => [rev_append cur s]
      | _ =>
          if Ascii.eqb c sep
          then rev_append cur EmptyString
               :: split_from sep (option_map Nat.pred maxsplit) EmptyString s'
          else split_from sep maxsplit (String c cur) s'
      end
  end.

Definition split (sep : ascii) (maxsplit : option nat) (s : string)
  : list string :=
  split_from sep maxsplit EmptyString s.

(** [s.split()]: runs of whitespace separate, no empty token. *)
Fixpoint split_ws_from (cur : string) (s : string) : list string :=
  match s with
  | EmptyString =>
      match cur with
      | EmptyString => []
      | _ => [rev_append cur EmptyString]
      end
  | String c s' =>
      if isspace c
      then match cur with
           | EmptyString => split_ws_from EmptyString s'
           | _ => rev_append cur EmptyString :: split_ws_from EmptyString s'
           end
      else split_ws_from (String c cur) s'
  end.

Definition split_ws (s : string) : list string := split_ws_from EmptyString s.

Definition lower_char (c : ascii) : ascii :=
  let n := nat_of_ascii c in
  if ((65 <=? n) && (n <=? 90))%nat then ascii_of_nat (n + 32) else c.
Definition upper_char (c : ascii) : ascii :=
  let n := nat_of_ascii c in
  if ((97 <=? n) && (n <=? 122))%nat then ascii_of_nat (n - 32) else c.

Fixpoint map (f : ascii -> ascii) (s : string) : string :=
  match s with
  | EmptyString => EmptyString
  | String c s' => String (f c) (map f s')
  end.

Definition lower : string -> string := map lower_char.
Definition upper : string -> string := map upper_char.

(** [s[a:b]] for [0 <= a <= b] *)
Definition slice (a b : nat) (s : string) : string := substring a (b - a) s.

(** ["".join(2 * char for char in s)] *)
Fixpoint double_chars (s : string) : string :=
  match s with
  | EmptyString => EmptyString
  | String c s' => String c (String c (double_chars s'))
  end.

Definition char (c : ascii) : string := String c EmptyString.

End Str.

(** ** Python numbers *)

Module Num.

Local Open Scope Z_scope.

(** Quotient [n / d] rounded to the nearest integer, ties to even
    ([0 <= n], [0 < d]). *)
Definition round_half_even (n d : Z) : Z :=
  let q := n / d in
  match 2 * (n mod d) ?= d with
  | Lt => q
  | Gt => q + 1
  | Eq => if Z.even q then q else q + 1
  end.

(** The binary64 value nearest to [n / d] ([0 < n], [0 < d]), ties to even,
    infinity on overflow: the rounding of CPython's [strtod], of [int / int]
    and of the conversion of an [int] to a [float]. *)
Definition of_ratio (n d : Z) : float :=
  let scaled e := if 0 <=? e then n / (d * 2 ^ e) else (n * 2 ^ (- e)) / d in
  let e1 := Z.log2 n - Z.log2 d - 52 in
  let e2 := if scaled e1 <? 2 ^ 52 then e1 - 1 else e1 in
  let e := Z.max e2 (-1074) in
  let m := if 0 <=? e then round_half_even n (d * 2 ^ e)
           else round_half_even (n * 2 ^ (- e)) d in
  Z.ldexp (of_uint63 (Uint63.of_Z m)) e.

Definition signed (neg : bool) (f : float) : float :=
  if neg then PrimFloat.opp f else f.

(** Value of the decimal [mant * 10 ^ e10] with the given sign. *)
Definition of_decimal (neg : bool) (mant e10 : Z) : float :=
  signed neg
    (if mant =? 0 then PrimFloat.zero
     else if 0 <=? e10 then of_ratio (mant * 10 ^ e10) 1
     else of_ratio mant (10 ^ (- e10))).

(** [float(z)] for an [int] *)
Definition float_of_Z (z : Z) : result float :=
  let f := signed (z <? 0)
             (if z =? 0 then PrimFloat.zero else of_ratio (Z.abs z) 1) in
  if PrimFloat.is_infinity f then Raise OverflowError else Ok f.

Definition digit_val (c : ascii) : Z := Z.of_nat (nat_of_ascii c) - 48.

(** Reads a run of decimal digits: accumulated value, number of digits read
    and the text left. *)
Fixpoint digits_from (acc : Z) (n : nat) (s : string) : Z * nat * string :=
  match s with
  | String c s' =>
      if Str.isdigit_char c
      then digits_from (10 * acc + digit_val c) (S n) s'
      else (acc, n, s)
  | EmptyString => (acc, n, s)
  end.

(** PEP 515: an underscore is dropped when it stands between two digits and
    is an error anywhere else. *)
Fixpoint remove_underscores (prev_digit : bool) (s : string) : option string :=
  match s with
  | EmptyString => Some EmptyString
  | String c s' =>
      if Ascii.eqb c "_"
      then match s' with
           | String d _ =>
               if prev_digit && Str.isdigit_char d
               then remove_underscores false s'
               else None
           | EmptyString => None
           end
      else option_map (String c) (remove_underscores (Str.isdigit_char c) s')
  end.

Definition take_sign (s : string) : bool * string :=
  match s with
  | String "-" s' => (true, s')
  | String "+" s' => (false, s')
  | _ => (false, s)
  end.

(** Optional exponent part: [e] or [E], an optional sign, at least one
    digit, and nothing after it. *)
Definition parse_exponent (s : string) : option Z :=
  match s with
  | EmptyString => Some 0
  | String c s' =>
      if Ascii.eqb (Str.lower_char c) "e"
      then let '(neg, s2) := take_sign s' in
           match digits_from 0 0 s2 with
           | (_, O, _) => None
           | (v, _, EmptyString) => Some (if neg then - v else v)
           | _ => None
           end
      else None
  end.

(** [float(s)] for a [str]: surrounding whitespace, a sign, then [inf],
    [infinity], [nan] or a decimal numeral with an optional fraction and an
    optional exponent. *)
Definition py_float (s : string) : result float :=
  match remove_underscores false (Str.strip s) with
  | None => Raise ValueError
  | Some s1 =>
      let '(neg, s2) := take_sign s1 in
      let low := Str.lower s2 in
      if String.eqb low "inf" || String.eqb low "infinity"
      then Ok (signed neg PrimFloat.infinity)
      else if String.eqb low "nan" then Ok PrimFloat.nan
      else
        let '(ip, ni, r1) := digits_from 0 0 s2 in
        let '(fp, nf, r2) :=
          match r1 with
          | String "." r => digits_from ip 0 r
          | _ => (ip, O, r1)
          end in
        match (ni + nf)%nat, parse_exponent r2 with
        | O, _ => Raise ValueError
        | _, None => Raise ValueError
        | _, Some ex => Ok (of_decimal neg fp (ex - Z.of_nat nf))
        end
  end.

Definition hex_val (c : ascii) : option Z :=
  let n := nat_of_ascii c in
  if ((48 <=? n) && (n <=? 57))%nat then Some (Z.of_nat n - 48)
  else if ((97 <=? n) && (n <=? 102))%nat then Some (Z.of_nat n - 87)
  else if ((65 <=? n) && (n <=? 70))%nat then Some (Z.of_nat n - 55)
  else None.

(** Hexadecimal digits after a first one, single underscores allowed between
    two digits. *)
Fixpoint hex_from (acc : Z) (s : string) : option Z :=
  match s with
  | EmptyString => Some acc
  | String c s' =>
      if Ascii.eqb c "_"
      then match s' with
           | String d s'' =>
               match hex_val d with
               | Some v => hex_from (16 * acc + v) s''
               | None => None
               end
           | EmptyString => None
           end
      else match hex_val c with
           | Some v => hex_from (16 * acc + v) s'
           | None => None
           end
  end.

Definition hex_digits (s : string) : option Z :=
  match s with
  | String c s' =>
      match hex_val c with
      | Some v => hex_from v s'
      | None => None
      end
  | EmptyString => None
  end.

(** [int(s, 16)] *)
Definition py_int16 (s : string) : result Z :=
  let '(neg, s1) := take_sign (Str.strip s) in
  let s2 :=
    match s1 with
    | String "0" (String x r) =>
        if Ascii.eqb (Str.lower_char x) "x"
        then match r with String "_" r' => r' | _ => r end
        else s1
    | _ => s1
    end in
  match hex_digits s2 with
  | Some v => Ok (if neg then - v else v)
  | None => Raise ValueError
  end.

End Num.

(** A Python value where the source computes with numbers: [None], an [int]
    or a [float]. *)
Inductive value : Set :=
| VNone
| VInt (z : Z)
| VFloat (f : float).

Module Py.

Local Open Scope res_scope.

(** Operand of an arithmetic operation whose other operand is a [float]. *)
Definition to_float (v : value) : result float :=
  match v with
  | VNone => Raise TypeError
  | VInt z => Num.float_of_Z z
  | VFloat f => Ok f
  end.

Definition arith (fz : Z -> Z -> Z) (ff : float -> float -> float)
  (a b : value) : result value :=
  match a, b with
  | VNone, _ | _, VNone => Raise TypeError
  | VInt x, VInt y => Ok (VInt (fz x y))
  | _, _ => x <- to_float a ;; y <- to_float b ;; Ok (VFloat (ff x y))
  end.

Definition add := arith Z.add PrimFloat.add.
Definition sub := arith Z.sub PrimFloat.sub.
Definition mul := arith Z.mul PrimFloat.mul.

(** [a / b] (true division) *)
Definition truediv (a b : value) : result value :=
  match a, b with
  | VNone, _ | _, VNone => Raise TypeError
  | VInt x, VInt y =>
      if (y =? 0)%Z then Raise ZeroDivisionError
      else if (x =? 0)%Z then Ok (VFloat (Num.signed (y <? 0)%Z PrimFloat.zero))
      else
        let f := Num.signed (negb (Bool.eqb (x <? 0)%Z (y <? 0)%Z))
                   (Num.of_ratio (Z.abs x) (Z.abs y)) in
        if PrimFloat.is_infinity f then Raise OverflowError else Ok (VFloat f)
  | _, _ =>
      x <- to_float a ;; y <- to_float b ;;
      if PrimFloat.is_zero y then Raise ZeroDivisionError
      else Ok (VFloat (PrimFloat.div x y))
  end.

(** [- a] *)
Definition neg (a : value) : result value :=
  match a with
  | VNone => Raise TypeError
  | VInt z => Ok (VInt (- z))
  | VFloat f => Ok (VFloat (PrimFloat.opp f))
  end.

(** Truth value, as in [a or b]. *)
Definition truthy (a : value) : bool :=
  match a with
  | VNone => false
  | VInt z => negb (z =? 0)%Z
  | VFloat f => negb (PrimFloat.is_zero f)
  end.

(** [a == b] on numbers; an [int] is compared with a [float] through its
    conversion, which is exact below [2 ^ 53]. *)
Definition eqb (a b : value) : bool :=
  match a, b with
  | VNone, VNone => true
  | VNone, _ | _, VNone => false
  | VInt x, VInt y => (x =? y)%Z
  | _, _ =>
      match to_float a, to_float b with
      | Ok x, Ok y => PrimFloat.eqb x y
      | _, _ => false
      end
  end.

End Py.

(** ** Value resolvers *)

Local Open Scope res_scope.

Definition DPI : float := 72%float.

(** A value of the [UNITS] table: a conversion factor, or the
    [NotImplemented] singleton. *)
Inductive unit_value : Set :=
| Factor (f : float)
| NotImplemented.

(** The [UNITS] dictionary, in insertion order, which is the order of
    [UNITS.items()]. *)
Definition UNITS : list (string * unit_value) :=
  [ ("mm", Factor (DPI / 25.4)%float);
    ("cm", Factor (DPI / 2.54)%float);
    ("in", Factor DPI);
    ("pt", Factor (DPI / 72)%float);
    ("pc", Factor (DPI / 6)%float);
    ("px", Factor 1%float);
    ("em", NotImplemented);
    ("ex", NotImplemented);
    ("%", NotImplemented) ].

Definition ASCII_LETTERS : string :=
  "abcdefghijklmnopqrstuvwxyzABCDEFGHIJKLMNOPQRSTUVWXYZ".

(** [while "  " in string: string = string.replace("  ", " ")] *)
Fixpoint collapse (fuel : nat) (s : string) : result string :=
  if Str.contains "  " s then
    match fuel with
    | O => Diverge
    | S k => collapse k (Str.replace "  " " " s)
    end
  else Ok s.

Definition normalize (text : option string) : result string :=
  match text with
  | None => Raise AttributeError
  | Some s =>
      let s := Str.replace "-" " -" s in
      let s := Str.replace "," " " s in
      collapse (String.length s) s
  end.

(** [float(...) * value] for a value of [UNITS] *)
Definition times_unit (f : float) (v : unit_value) : result value :=
  match v with
  | Factor k => Ok (VFloat (f * k)%float)
  | NotImplemented => Raise TypeError
  end.

(** The loop of [size] over [UNITS.items()]; falling off its end returns
    [None]. *)
Fixpoint size_units (units : list (string * unit_value)) (s : string)
  : result value :=
  match units with
  | [] => Ok VNone
  | (unit, v) :: rest =>
      if Str.contains unit s
      then f <- Num.py_float (Str.strip_chars (" " ++ unit) s) ;;
           times_unit f v
      else size_units rest s
  end.

Definition size (text : option string) : result value :=
  match text with
  | None | Some EmptyString => Ok (VInt 0)
  | Some s =>
      if Str.isdigit (Str.lstrip_chars " -" (Str.replace1 "." "" s))
      then f <- Num.py_float s ;; Ok (VFloat f)
      else size_units UNITS s
  end.

Definition point (text : option string) : result (value * value * string) :=
  match text with
  | None | Some EmptyString => Ok (VInt 0, VInt 0, "")
  | Some s =>
      match Str.split " " (Some 2) s with
      | [x; y; rest] =>
          vx <- size (Some x) ;; vy <- size (Some y) ;; Ok (vx, vy, rest)
      | _ => Raise ValueError
      end
  end.

(** Lookup in a dictionary with [str] keys. *)
Fixpoint lookup {A} (k : string) (d : list (string * A)) : option A :=
  match d with
  | [] => None
  | (k', v) :: d' => if String.eqb k k' then Some v else lookup k d'
  end.

Section Color.

(** The colour keyword table of [cairosvg/colors.py]. *)
Variable COLORS : list (string * string).

(** [int(s, 16) / 255.] *)
Definition channel (s : string) : result value :=
  n <- Num.py_int16 s ;; Py.truediv (VInt n) (VFloat 255%float).

Definition color (text : option string) (opacity : value)
  : result (value * value * value * value) :=
  match text with
  | None | Some EmptyString => Ok (VInt 0, VInt 0, VInt 0, VInt 0)
  | Some s =>
      if String.eqb s "none" then Ok (VInt 0, VInt 0, VInt 0, VInt 0)
      else
        let s := Str.lower (Str.strip s) in
        let s := match lookup s COLORS with Some hex => hex | None => s end in
        let s := if (String.length s =? 4)%nat || (String.length s =? 5)%nat
                 then "#" ++ Str.double_chars (Str.drop 1 s) else s in
        opacity <-
          (if (String.length s =? 9)%nat
           then n <- Num.py_int16 (Str.slice 7 9 s) ;;
                a <- Py.truediv (VInt n) (VInt 255) ;;
                Py.mul opacity a
           else Ok opacity) ;;
        r <- channel (Str.slice 1 3 s) ;;
        g <- channel (Str.slice 3 5 s) ;;
        b <- channel (Str.slice 5 7 s) ;;
        Ok (r, g, b, opacity)
  end.

End Color.

(** ** Nodes *)

(** A node of the parsed document: a dictionary of attributes with a tag,
    children, text and the root flag. *)
Inductive node : Type := Node {
  tag : string;
  attrs : list (string * string);
  children : list node;
  node_text : option string;
  root : bool
}.

Fixpoint remove_key {A} (k : string) (d : list (string * A)) : list (string * A) :=
  match d with
  | [] => []
  | (k', v) :: d' =>
      if String.eqb k k' then remove_key k d' else (k', v) :: remove_key k d'
  end.

(** [node.get(k)] *)
Definition get (n : node) (k : string) : option string := lookup k (attrs n).
(** [k in node] *)
Definition has (n : node) (k : string) : bool :=
  match get n k with Some _ => true | None => false end.
(** [node[k] = v] *)
Definition set (n : node) (k v : string) : node :=
  Node (tag n) ((k, v) :: remove_key k (attrs n)) (children n) (node_text n) (root n).
(** [del node[k]] *)
Definition del (n : node) (k : string) : node :=
  Node (tag n) (remove_key k (attrs n)) (children n) (node_text n) (root n).
Definition set_text (n : node) (t : string) : node :=
  Node (tag n) (attrs n) (children n) (Some t) (root n).

(** Truth value of an optional string: [None] and [""] are false. *)
Definition nonempty (o : option string) : bool :=
  match o with
  | None | Some EmptyString => false
  | Some _ => true
  end.

(** ** The cairo context *)

Inductive font_slant : Set := SlantNormal | SlantItalic | SlantOblique.
Inductive font_weight : Set := WeightNormal | WeightBold.

(** [cairo.Matrix(xx, yx, xy, yy, x0, y0)] *)
Record matrix : Set := Matrix {
  xx : float; yx : float; xy : float; yy : float; x0 : float; y0 : float
}.

(** The calls the renderer issues on [self.context]. *)
Inductive call : Set :=
| Save
| Restore
| MoveTo (x y : float)
| RelMoveTo (x y : float)
| LineTo (x y : float)
| RelLineTo (x y : float)
| CurveTo (x1 y1 x2 y2 x3 y3 : float)
| RelCurveTo (x1 y1 x2 y2 x3 y3 : float)
| ClosePath
| Arc (xc yc radius angle1 angle2 : float)
| Scale (sx sy : float)
| Translate (tx ty : float)
| SetMatrix (m : matrix)
| SetLineWidth (w : float)
| SetSourceRgba (r g b a : float)
| StrokePreserve
| Fill
| SetFillRuleEvenOdd
| SelectFontFace (family : string) (slant : font_slant) (weight : font_weight)
| SetFontSize (s : float)
| ShowText (t : string)
| TextPath (t : string).

(** The six numbers of [context.text_extents]. *)
Record extents : Set := Extents {
  x_bearing : float; y_bearing : float; width : float; height : float;
  x_advance : float; y_advance : float
}.

(** The state of a [Surface] that rendering changes: the context, as the
    calls issued on it so far, and the [cursor_position] attribute, which
    does not exist until it is first assigned. *)
Record surface : Type := Surface {
  context : list call;
  cursor_position : option (float * float)
}.

(** ** Stateful computations that may raise *)

Definition M (A : Type) : Type := surface -> result A * surface.

Definition ret {A} (a : A) : M A := fun s => (Ok a, s).
Definition lift {A} (r : result A) : M A := fun s => (r, s).
Definition raise {A} (e : exn) : M A := lift (Raise e).
Definition bind {A B} (m : M A) (f : A -> M B) : M B :=
  fun s =>
    match m s with
    | (Ok a, s') => f a s'
    | (Raise e, s') => (Raise e, s')
    | (Diverge, s') => (Diverge, s')
    end.

Local Close Scope res_scope.
Declare Scope surf_scope.
Delimit Scope surf_scope with surf.
Notation "x <- m ;; k" := (bind m (fun x => k))
  (at level 61, m at next level, right associativity) : surf_scope.
Notation "' p <- m ;; k" := (bind m (fun x => let p := x in k))
  (at level 61, p pattern, m at next level, right associativity) : surf_scope.
Notation "m ;; k" := (bind m (fun _ => k))
  (at level 61, right associativity) : surf_scope.
Local Open Scope surf_scope.

(** A call on the context. *)
Definition emit (c : call) : M unit :=
  fun s => (Ok tt, Surface (context s ++ [c])%list (cursor_position s)).

Definition get_cursor : M (option (float * float)) :=
  fun s => (Ok (cursor_position s), s).
Definition set_cursor (p : float * float) : M unit :=
  fun s => (Ok tt, Surface (context s) (Some p)).

(** Conversion of the arguments of a context method to C doubles: a number
    is accepted, [None] is a [TypeError]. *)
Definition call1 (mk : float -> call) (a : value) : M unit :=
  x <- lift (Py.to_float a) ;; emit (mk x).
Definition call2 (mk : float -> float -> call) (a b : value) : M unit :=
  x <- lift (Py.to_float a) ;; y <- lift (Py.to_float b) ;; emit (mk x y).
Definition call4 (mk : float -> float -> float -> float -> call)
  (a b c d : value) : M unit :=
  x <- lift (Py.to_float a) ;; y <- lift (Py.to_float b) ;;
  z <- lift (Py.to_float c) ;; w <- lift (Py.to_float d) ;; emit (mk x y z w).
Definition call6 (mk : float -> float -> float -> float -> float -> float -> call)
  (a b c d e f : value) : M unit :=
  x1 <- lift (Py.to_float a) ;; y1 <- lift (Py.to_float b) ;;
  x2 <- lift (Py.to_float c) ;; y2 <- lift (Py.to_float d) ;;
  x3 <- lift (Py.to_float e) ;; y3 <- lift (Py.to_float f) ;;
  emit (mk x1 y1 x2 y2 x3 y3).

(** [context.set_source_rgba( *color(...))] *)
Definition set_source_rgba (c : value * value * value * value) : M unit :=
  let '(r, g, b, a) := c in call4 SetSourceRgba r g b a.

(** [cairo.Matrix( *values)]: up to six numbers, the others keep the values
    of the identity. *)
Definition make_matrix (values : list value) : result matrix :=
  let arg (i : nat) (d : float) : result float :=
    match nth_error values i with
    | Some v => Py.to_float v
    | None => Ok d
    end in
  if (6 <? List.length values)%nat then Raise TypeError
  else
    (a <- arg 0%nat 1%float ;; b <- arg 1%nat 0%float ;;
     c <- arg 2%nat 0%float ;; d <- arg 3%nat 1%float ;;
     e <- arg 4%nat 0%float ;; f <- arg 5%nat 0%float ;;
     Ok (Matrix a b c d e f))%res.

Fixpoint for_each {A} (f : A -> M unit) (l : list A) : M unit :=
  match l with
  | [] => ret tt
  | a :: l' => f a ;; for_each f l'
  end.

(** Unpacking of [string.split(" ", 1)] into two names. *)
Definition split2 (s : string) : result (string * string) :=
  match Str.split " " (Some 1%nat) s with
  | [a; b] => Ok (a, b)
  | _ => Raise ValueError
  end.

(** [float(node.get(k, 1))] *)
Definition float_attr (n : node) (k : string) : result float :=
  match get n k with
  | Some s => Num.py_float s
  | None => Ok 1%float
  end.

(** ** The renderer *)

Definition pi : float := 3.141592653589793%float.

(** The variables of [Surface.path] that live across iterations of its
    loop: the text still to read, the command letter, the previous one, and
    the last two points of the previous curve, unbound until a curve is
    read. *)
Record path_vars : Type := PathVars {
  rest : string;
  letter : string;
  last_letter : option string;
  x2 : option value; y2 : option value;
  x3 : option value; y3 : option value
}.

(** Reading a local variable before its first assignment. *)
Definition bound (o : option value) : result value :=
  match o with
  | Some v => Ok v
  | None => Raise NameError
  end.

(** [last_letter in s]: the left operand must be a [str]. *)
Definition last_in (last : option string) (s : string) : result bool :=
  match last with
  | None => Raise TypeError
  | Some l => Ok (Str.contains l s)
  end.

(** [for letter in ASCII_LETTERS: string = string.replace(letter, " %s " % letter)] *)
Fixpoint pad_letters (letters : string) (s : string) : string :=
  match letters with
  | EmptyString => s
  | String c letters' =>
      pad_letters letters' (Str.replace (Str.char c) (" " ++ Str.char c ++ " ") s)
  end.

(** [os.path.join(base, href)] on a POSIX system *)
Definition path_join (base href : string) : string :=
  if prefix "/" href then href
  else if String.eqb base "" then href
  else if String.eqb (Str.slice (String.length base - 1) (String.length base) base) "/"
       then base ++ href
       else base ++ "/" ++ href.

Definition cairo_font_slant (style : option string) : font_slant :=
  let name := Str.upper ("font_slant_" ++ match style with Some s => s | None => "None" end) in
  if String.eqb name "FONT_SLANT_ITALIC" then SlantItalic
  else if String.eqb name "FONT_SLANT_OBLIQUE" then SlantOblique
  else SlantNormal.

Definition cairo_font_weight (weight : option string) : font_weight :=
  let name := Str.upper ("font_weight_" ++ match weight with Some s => s | None => "None" end) in
  if String.eqb name "FONT_WEIGHT_BOLD" then WeightBold else WeightNormal.

Fixpoint map_result {A B} (f : A -> result B) (l : list A) : result (list B) :=
  match l with
  | [] => Ok []
  | a :: l' => (b <- f a ;; bs <- map_result f l' ;; Ok (b :: bs))%res
  end.

(** The tokenizer of a transformation:
    [while transformation: value, transformation = transformation.split(" ", 1);
    values.append(size(value))] *)
Fixpoint read_values (fuel : nat) (transformation : string) (values : list value)
  : result (list value) :=
  match transformation with
  | EmptyString => Ok values
  | _ =>
      match fuel with
      | O => Diverge
      | S k =>
          ('(v, transformation) <- split2 transformation ;;
           x <- size (Some v) ;;
           read_values k transformation (values ++ [x])%list)%res
      end
  end.

(** The end of the body of the transformation loop: [matrix] sets the
    matrix of the context, [scale] and [translate] call the method of that
    name, a single value being used for both axes. *)
Definition apply_transformation (ttype : string) (values : list value) : M unit :=
  if String.eqb ttype "matrix" then
    m <- lift (make_matrix values) ;; emit (SetMatrix m)
  else
    let values := if (List.length values =? 1)%nat then (values ++ values)%list
                  else values in
    match values with
    | [a; b] => call2 (if String.eqb ttype "scale" then Scale else Translate) a b
    | _ => raise TypeError
    end.

(** [for ttype in ("scale", "translate", "matrix")] on one piece of the
    attribute.  The tokenizer leaves [transformation] empty, so no later
    [ttype] is found in it. *)
Fixpoint transform_types (ttypes : list string) (transformation : string) : M unit :=
  match ttypes with
  | [] => ret tt
  | ttype :: ttypes' =>
      if Str.contains ttype transformation then
        let t := Str.replace ttype "" transformation in
        let t := Str.replace "(" "" t in
        t <- lift (normalize (Some t)) ;;
        let t := Str.strip t ++ " " in
        values <- lift (read_values (S (String.length t)) t []) ;;
        apply_transformation ttype values ;;
        transform_types ttypes' ""
      else transform_types ttypes' transformation
  end.

Definition transform (n : node) : M unit :=
  match get n "transform" with
  | Some t =>
      if nonempty (Some t)
      then for_each (transform_types ["scale"; "translate"; "matrix"])
             (Str.split ")" None t)
      else ret tt
  | None => ret tt
  end.

Section Renderer.

(** The colour keyword table of [cairosvg/colors.py]. *)
Variable COLORS : list (string * string).
(** [context.get_current_point()], as a function of the calls issued. *)
Variable current_point : list call -> float * float.
(** [context.text_extents(text)], as a function of the calls issued. *)
Variable text_extents : list call -> string -> extents.
(** [Tree(href, parent)] of [cairosvg/parser.py]. *)
Variable Tree : string -> node -> result node.
(** The built-in [str] on a number. *)
Variable str : value -> string.

Definition get_current_point : M (float * float) :=
  fun s => (Ok (current_point (context s)), s).

(** The body of the loop of [Surface.path] after the command letter has
    been read: the branch of [letter] reads its coordinates from [string]
    and draws. *)
Definition path_command (v : path_vars) (letter string : string) : M path_vars :=
  let keep s := ret (PathVars s letter (last_letter v) (x2 v) (y2 v) (x3 v) (y3 v)) in
  let curve s a2 b2 a3 b3 :=
    ret (PathVars s letter (last_letter v) (Some a2) (Some b2) (Some a3) (Some b3)) in
  if String.eqb letter "c" then
    '(x1, y1, s) <- lift (point (Some string)) ;;
    '(x2, y2, s) <- lift (point (Some s)) ;;
    '(x3, y3, s) <- lift (point (Some s)) ;;
    call6 RelCurveTo x1 y1 x2 y2 x3 y3 ;;
    curve s x2 y2 x3 y3
  else if String.eqb letter "C" then
    '(x1, y1, s) <- lift (point (Some string)) ;;
    '(x2, y2, s) <- lift (point (Some s)) ;;
    '(x3, y3, s) <- lift (point (Some s)) ;;
    call6 CurveTo x1 y1 x2 y2 x3 y3 ;;
    curve s x2 y2 x3 y3
  else if String.eqb letter "h" then
    '(x, s) <- lift (split2 string) ;;
    x <- lift (size (Some x)) ;;
    call2 RelLineTo x (VInt 0) ;;
    keep s
  else if String.eqb letter "V" then
    '(x, s) <- lift (split2 string) ;;
    x <- lift (size (Some x)) ;;
    call2 LineTo x (VInt 0) ;;
    keep s
  else if String.eqb letter "l" then
    '(x, y, s) <- lift (point (Some string)) ;;
    call2 RelLineTo x y ;;
    keep s
  else if String.eqb letter "L" then
    '(x, y, s) <- lift (point (Some string)) ;;
    call2 LineTo x y ;;
    keep s
  else if String.eqb letter "m" then
    '(x, y, s) <- lift (point (Some string)) ;;
    call2 RelMoveTo x y ;;
    keep s
  else if String.eqb letter "M" then
    '(x, y, s) <- lift (point (Some string)) ;;
    call2 MoveTo x y ;;
    keep s
  else if String.eqb letter "S" then
    '(x, y) <- get_current_point ;;
    x1 <- lift (b <- last_in (last_letter v) "CS" ;;
                if b : bool
                then a3 <- bound (x3 v) ;; a2 <- bound (x2 v) ;; Py.sub a3 a2
                else Ok (VFloat x))%res ;;
    y1 <- lift (b <- last_in (last_letter v) "CS" ;;
                if b : bool
                then b3 <- bound (y3 v) ;; b2 <- bound (y2 v) ;; Py.sub b3 b2
                else Ok (VFloat y))%res ;;
    '(x2, y2, s) <- lift (point (Some string)) ;;
    '(x3, y3, s) <- lift (point (Some s)) ;;
    call6 CurveTo x1 y1 x2 y2 x3 y3 ;;
    curve s x2 y2 x3 y3
  else if String.eqb letter "s" then
    x1 <- lift (b <- last_in (last_letter v) "cs" ;;
                if b : bool
                then a3 <- bound (x3 v) ;; a2 <- bound (x2 v) ;; Py.sub a3 a2
                else Ok (VInt 0))%res ;;
    y1 <- lift (b <- last_in (last_letter v) "cs" ;;
                if b : bool
                then b3 <- bound (y3 v) ;; b2 <- bound (y2 v) ;; Py.sub b3 b2
                else Ok (VInt 0))%res ;;
    '(x2, y2, s) <- lift (point (Some string)) ;;
    '(x3, y3, s) <- lift (point (Some s)) ;;
    call6 RelCurveTo x1 y1 x2 y2 x3 y3 ;;
    curve s x2 y2 x3 y3
  else if String.eqb letter "v" then
    '(y, s) <- lift (split2 string) ;;
    y <- lift (size (Some y)) ;;
    call2 RelLineTo (VInt 0) y ;;
    keep s
  else if String.eqb letter "V" then
    '(y, s) <- lift (split2 string) ;;
    y <- lift (size (Some y)) ;;
    call2 LineTo (VInt 0) y ;;
    keep s
  else if String.eqb letter "X" then
    keep ""
  else if String.eqb (Str.lower letter) "z" then
    emit ClosePath ;;
    keep string
  else raise NotImplementedError.

(** One iteration of the loop of [Surface.path]. *)
Definition path_step (v : path_vars) : M path_vars :=
  let string := Str.strip (rest v) in
  '(letter, string) <-
     lift (if Str.contains (hd "" (Str.split " " (Some 1%nat) string)) ASCII_LETTERS
           then split2 string
           else Ok (letter v, string)) ;;
  v' <- path_command v letter string ;;
  ret (PathVars (Str.strip (rest v')) letter (Some letter)
         (x2 v') (y2 v') (x3 v') (y3 v')).

(** [while string: ...] *)
Fixpoint path_loop (fuel : nat) (v : path_vars) : M unit :=
  match rest v with
  | EmptyString => ret tt
  | _ =>
      match fuel with
      | O => lift Diverge
      | S k => v' <- path_step v ;; path_loop k v'
      end
  end.

(** [Surface.path]; [letter] is still bound to the last letter of
    [ASCII_LETTERS] when the loop starts. *)
Definition path (fuel : nat) (n : node) : M node :=
  let n := if nonempty (get n "stroke-width") then n
           else set n "stroke-width" "1" in
  let string := Str.strip (match get n "d" with Some d => d | None => "" end) ++ "XX" in
  let string := pad_letters ASCII_LETTERS string in
  string <- lift (normalize (Some string)) ;;
  path_loop fuel (PathVars string "Z" None None None None None) ;;
  ret n.

Definition circle (n : node) : M node :=
  x <- lift (size (get n "x")) ;;
  cx <- lift (size (get n "cx")) ;;
  xc <- lift (Py.add x cx) ;;
  y <- lift (size (get n "y")) ;;
  cy <- lift (size (get n "cy")) ;;
  yc <- lift (Py.add y cy) ;;
  r <- lift (size (get n "r")) ;;
  xc <- lift (Py.to_float xc) ;;
  yc <- lift (Py.to_float yc) ;;
  r <- lift (Py.to_float r) ;;
  emit (Arc xc yc r 0 (2 * pi)%float) ;;
  ret n.

Definition line (n : node) : M node :=
  x1 <- lift (size (get n "x1")) ;;
  y1 <- lift (size (get n "y1")) ;;
  x2 <- lift (size (get n "x2")) ;;
  y2 <- lift (size (get n "y2")) ;;
  call2 MoveTo x1 y1 ;;
  call2 LineTo x2 y2 ;;
  ret n.

Definition text (n : node) : M node :=
  let n := if nonempty (get n "fill") then n else set n "fill" "#000000" in
  let t := if nonempty (node_text n)
           then Str.strip_chars (String "010" (String "013" ""))
                  (match node_text n with Some t => t | None => "" end)
           else "" in
  let n := set_text n t in
  font_size <- lift (size (Some (match get n "font-size" with
                                 | Some s => s | None => "12pt" end))) ;;
  let font_family := match get n "font-family" with
                     | Some s => s | None => "Sans" end in
  let font_style := cairo_font_slant (get n "font-style") in
  let font_weight := cairo_font_weight (get n "font-weight") in
  emit (SelectFontFace font_family font_style font_weight) ;;
  call1 SetFontSize font_size ;;
  ext <- (fun s => (Ok (text_extents (context s) t), s)) ;;
  x <- lift (size (get n "x")) ;;
  y <- lift (size (get n "y")) ;;
  let text_anchor := get n "text-anchor" in
  x <- lift (match text_anchor with
             | Some a =>
                 if String.eqb a "middle"
                 then Py.sub x (VFloat (width ext / 2 + x_bearing ext)%float)
                 else if String.eqb a "end"
                 then Py.sub x (VFloat (width ext + x_bearing ext)%float)
                 else Ok x
             | None => Ok x
             end) ;;
  opacity <- lift (float_attr n "opacity") ;;
  call2 MoveTo x y ;;
  c <- lift (color COLORS (get n "fill") (VFloat opacity)) ;;
  set_source_rgba c ;;
  emit (ShowText t) ;;
  call2 MoveTo x y ;;
  emit (TextPath t) ;;
  let n := set n "fill" "#00000000" in
  p <- get_current_point ;;
  set_cursor p ;;
  ret n.

Definition tspan (n : node) : M node :=
  c <- get_cursor ;;
  match c with
  | None => raise AttributeError
  | Some (x, y) =>
      x <- (if has n "x" then lift (size (get n "x")) else ret (VFloat x)) ;;
      y <- (if has n "y" then lift (size (get n "y")) else ret (VFloat y)) ;;
      dx <- lift (size (get n "dx")) ;;
      x <- lift (Py.add x dx) ;;
      let n := set n "x" (str x) in
      dy <- lift (size (get n "dy")) ;;
      y <- lift (Py.add y dy) ;;
      let n := set n "y" (str y) in
      text n
  end.

Definition _set_context_size (width height : value) (viewbox : option string)
  : M unit :=
  match viewbox with
  | Some vb =>
      if nonempty viewbox then
        sizes <- lift (map_result (fun pos => size (Some pos)) (Str.split_ws vb)) ;;
        match sizes with
        | [x; y; x_size; y_size] =>
            let width := if Py.truthy width then width else x_size in
            let height := if Py.truthy height then height else y_size in
            sx <- lift (Py.truediv width x_size) ;;
            sy <- lift (Py.truediv height y_size) ;;
            call2 Scale sx sy ;;
            nx <- lift (Py.neg x) ;;
            ny <- lift (Py.neg y) ;;
            call2 Translate nx ny
        | _ => raise ValueError
        end
      else ret tt
  | None => ret tt
  end.

(** [Surface.use], given the [draw] method. *)
Definition use (draw : node -> M unit) (n : node) : M node :=
  x <- lift (size (get n "x")) ;;
  y <- lift (size (get n "y")) ;;
  call2 Translate x y ;;
  let n := if has n "x" then del n "x" else n in
  let n := if has n "y" then del n "y" else n in
  match get n "{http://www.w3.org/1999/xlink}href" with
  | None => raise TypeError
  | Some href =>
      let href := path_join "/home/lize/Boulot/Kozea/Facturation" href in
      tree <- lift (Tree href n) ;;
      w <- lift (size (get tree "width")) ;;
      h <- lift (size (get tree "height")) ;;
      _set_context_size w h (get tree "viewBox") ;;
      draw tree ;;
      ret n
  end.

(** [if hasattr(self, node.tag): getattr(self, node.tag)(node)], over the
    attributes that the class and its instances define; the handlers return
    the node with the attributes they have assigned.  ([read],
    [_create_surface] and [_set_context_size] do not take one node as their
    arguments; [bytesio], [cairo], [context] and [cursor_position] are not
    callable.  The attributes inherited from [object] are not modelled.) *)
Definition dispatch (draw : node -> M unit) (fuel : nat) (n : node) : M node :=
  let t := tag n in
  if String.eqb t "circle" then circle n
  else if String.eqb t "path" then path fuel n
  else if String.eqb t "line" then line n
  else if String.eqb t "tspan" then tspan n
  else if String.eqb t "text" then text n
  else if String.eqb t "use" then use draw n
  else if String.eqb t "draw" then draw n ;; ret n
  else if String.eqb t "read" || String.eqb t "_create_surface"
          || String.eqb t "_set_context_size" || String.eqb t "bytesio"
          || String.eqb t "cairo" || String.eqb t "context"
  then raise TypeError
  else if String.eqb t "cursor_position" then
    c <- get_cursor ;;
    match c with Some _ => raise TypeError | None => ret n end
  else ret n.

(** Stroke and fill of [Surface.draw]. *)
Definition paint (n : node) : M unit :=
  opacity <- lift (float_attr n "opacity") ;;
  so <- lift (float_attr n "stroke-opacity") ;;
  let stroke_opacity := (opacity * so)%float in
  fo <- lift (float_attr n "fill-opacity") ;;
  let fill_opacity := (opacity * fo)%float in
  w <- lift (size (get n "stroke-width")) ;;
  call1 SetLineWidth w ;;
  c <- lift (color COLORS (get n "stroke") (VFloat stroke_opacity)) ;;
  set_source_rgba c ;;
  emit StrokePreserve ;;
  (match get n "fill-rule" with
   | Some r => if String.eqb r "evenodd" then emit SetFillRuleEvenOdd else ret tt
   | None => ret tt
   end) ;;
  c <- lift (color COLORS (get n "fill") (VFloat fill_opacity)) ;;
  set_source_rgba c ;;
  emit Fill.

(** [Surface.draw].  [depth] is the number of nested calls of [draw] that
    the interpreter still allows, [fuel] bounds the loop of [path]. *)
Fixpoint draw (depth fuel : nat) (n : node) {struct depth} : M unit :=
  match depth with
  | O => raise RecursionError
  | S d =>
      emit Save ;;
      x <- lift (size (get n "x")) ;;
      y <- lift (size (get n "y")) ;;
      call2 MoveTo x y ;;
      transform n ;;
      n <- dispatch (draw d fuel) fuel n ;;
      paint n ;;
      for_each (draw d fuel) (children n) ;;
      if root n then ret tt else emit Restore
  end.

End Renderer.

(** * Notions used to state the properties *)

(** ** Number lists *)

(** Runs of spaces reduced to one space: a space is dropped when a space
    follows it. *)
Fixpoint squeeze (s : string) : string :=
  match s with
  | EmptyString => EmptyString
  | String c s' =>
      match s' with
      | String d _ =>
          if Ascii.eqb c " " && Ascii.eqb d " " then squeeze s'
          else String c (squeeze s')
      | EmptyString => String c EmptyString
      end
  end.

(** Each minus sign preceded by a space and each comma turned into a
    space. *)
Fixpoint separate (s : string) : string :=
  match s with
  | EmptyString => EmptyString
  | String c s' =>
      if Ascii.eqb c "-" then String " " (String "-" (separate s'))
      else if Ascii.eqb c "," then String " " (separate s')
      else String c (separate s')
  end.

(** What the specification says of the number-list normalizer, for runs of
    the space character. *)
Definition normalize_spec (s : string) : string := squeeze (separate s).

(** Two adjacent characters of [s] satisfy [p]. *)
Fixpoint adjacent (p : ascii -> bool) (s : string) : bool :=
  match s with
  | EmptyString => false
  | String c s' =>
      match s' with
      | String d _ => (p c && p d) || adjacent p s'
      | EmptyString => false
      end
  end.

Definition head_space (s : string) : bool :=
  match s with
  | String c _ => Ascii.eqb c " "
  | EmptyString => false
  end.

(** One pass of [string.replace("  ", " ")]. *)
Definition pairs : string -> string := Str.replace_from "  " " " 0.

Definition TAB : ascii := "009".

(** ** Lengths and colours *)

(** The unit that [size] selects: the first one of [UNITS] that occurs in
    the text, for a text that is neither empty nor a plain numeral. *)
Definition selected_unit (s : string) : option string :=
  match s with
  | EmptyString => None
  | _ =>
      if Str.isdigit (Str.lstrip_chars " -" (Str.replace1 "." "" s)) then None
      else option_map fst (find (fun u => Str.contains (fst u) s) UNITS)
  end.

(** The units with a conversion factor, as the specification lists them. *)
Definition unit_factors : list (string * float) :=
  [ ("mm", 72 / 25.4); ("cm", 72 / 2.54); ("in", 72); ("pt", 1); ("pc", 12);
    ("px", 1) ]%float.

(** The representative numerals, written as [str] writes them for an [int]
    and for a [float]. *)
Definition numerals : list (string * float) :=
  [ ("0", 0); ("1", 1); ("-3.5", -3.5); ("100", 100);
    ("0.0", 0); ("1.0", 1); ("100.0", 100) ]%float.

(** [a == b] on the tuples that [color] returns. *)
Definition rgba_eqb (a b : value * value * value * value) : bool :=
  let '(r, g, b', o) := a in
  let '(r', g', b'', o') := b in
  Py.eqb r r' && Py.eqb g g' && Py.eqb b' b'' && Py.eqb o o'.

(** ** Transformations *)

(** The product of two matrices as cairo computes it: the transformation
    [a] followed by the transformation [b]. *)
Definition matrix_multiply (a b : matrix) : matrix :=
  Matrix (xx a * xx b + yx a * xy b) (xx a * yx b + yx a * yy b)
         (xy a * xx b + yy a * xy b) (xy a * yx b + yy a * yy b)
         (x0 a * xx b + y0 a * xy b + x0 b)
         (x0 a * yx b + y0 a * yy b + y0 b)%float.

(** The current transformation matrix of a cairo context after one of the
    three transformation calls, as cairo documents them: [set_matrix]
    replaces it; [scale] and [translate] take place before it, in user
    space.  Other calls are not interpreted. *)
Definition ctm_after (ctm : matrix) (c : call) : matrix :=
  match c with
  | SetMatrix m => m
  | Scale sx sy => matrix_multiply (Matrix sx 0 0 sy 0 0) ctm
  | Translate tx ty => matrix_multiply (Matrix 1 0 0 1 tx ty) ctm
  | _ => ctm
  end.

Definition identity_matrix : matrix := Matrix 1 0 0 1 0 0.

(** A node with a [transform] attribute and nothing else. *)
Definition with_transform (t : string) : node :=
  Node "g" [("transform", t)] [] None false.

(** The surface after the calls [l] have been issued on its context. *)
Definition issue (s : surface) (l : list call) : surface :=
  Surface (context s ++ l)%list (cursor_position s).

(** ** Paths *)

(** The command letters that [Surface.path] has a branch for. *)
Definition handled (letter : string) : bool :=
  existsb (String.eqb letter)
    ["m"; "M"; "l"; "L"; "h"; "v"; "V"; "c"; "C"; "s"; "S"; "z"; "Z"; "X"].

(** A [path] node with the path data [d]. *)
Definition path_node (d : string) : node :=
  Node "path" [("d", d)] [] None false.

(** ** Rendering *)

Definition is_save (c : call) : bool :=
  match c with Save => true | _ => false end.
Definition is_restore (c : call) : bool :=
  match c with Restore => true | _ => false end.
Definition count (p : call -> bool) (l : list call) : nat :=
  List.length (filter p l).
(** The numbers of [save] and of [restore] calls issued so far. *)
Definition saves (s : surface) : nat := count is_save (context s).
Definition restores (s : surface) : nat := count is_restore (context s).
Definition counts (s : surface) : nat * nat := (saves s, restores s).

(** What a handler leaves alone in a node. *)
Definition shape (n : node) : list node * bool := (children n, root n).

Definition is_ok {A} (r : result A) : bool :=
  match r with Ok _ => true | _ => false end.

(** [obs] has the same value after [m] as before, however [m] ends. *)
Definition invariant {X A} (obs : surface -> X) (m : M A) : Prop :=
  forall s r s', m s = (r, s') -> obs s' = obs s.

(** The calls that leave [obs] alone. *)
Definition ignores {X} (obs : surface -> X) (c : call) : Prop :=
  forall s, obs (Surface (context s ++ [c])%list (cursor_position s)) = obs s.

(** Every value returned by [m] satisfies [P]. *)
Definition returns {A} (P : A -> Prop) (m : M A) : Prop :=
  forall s a s', m s = (Ok a, s') -> P a.

(** Every state in which [m] returns satisfies [P]. *)
Definition ensures {A} (P : surface -> Prop) (m : M A) : Prop :=
  forall s a s', m s = (Ok a, s') -> P s'.

(** [s'] has at least the saves and the restores of [s], and has gained no
    more restores than saves. *)
Definition bal (s s' : surface) : Prop :=
  saves s <= saves s' /\ restores s <= restores s'
  /\ restores s' + saves s <= saves s' + restores s.

Definition grows {A} (m : M A) : Prop :=
  forall s r s', m s = (r, s') -> bal s s'.

(** [m] ends: it returns or raises. *)
Definition total {A} (m : M A) : Prop := forall s, fst (m s) <> Diverge.

(** [m] does not create the text cursor. *)
Definition keeps_absent {A} (m : M A) : Prop :=
  forall s r s', cursor_position s = None -> m s = (r, s') ->
                 cursor_position s' = None.

Fixpoint count_nodes (n : node) : nat :=
  match n with
  | Node _ _ kids _ _ => S (list_sum (List.map count_nodes kids))
  end.

Fixpoint count_nonroot (n : node) : nat :=
  match n with
  | Node _ _ kids _ r =>
      (if r then 0 else 1) + list_sum (List.map count_nonroot kids)
  end.

(** No node of the tree is drawn through another call of [draw] than the
    one of its parent: no tag is [use] or [draw]. *)
Fixpoint plain (n : node) : bool :=
  match n with
  | Node t _ kids _ _ =>
      negb (String.eqb t "use") && negb (String.eqb t "draw")
      && forallb plain kids
  end.

(** No node of the tree has the tag [text], nor a tag that draws other
    nodes. *)
Fixpoint no_text (n : node) : bool :=
  match n with
  | Node t _ kids _ _ =>
      negb (String.eqb t "text") && negb (String.eqb t "use")
      && negb (String.eqb t "draw") && forallb no_text kids
  end.

(** The part of [draw] that comes before the handler of the tag. *)
Definition before_handler (n : node) : M unit :=
  emit Save ;;
  x <- lift (size (get n "x")) ;;
  y <- lift (size (get n "y")) ;;
  call2 MoveTo x y ;;
  transform n.

(** The part of [draw] that comes before the children, given the handlers
    and the colour table. *)
Definition draw_node (COLORS : list (string * string))
  (handle : node -> M node) (n : node) : M node :=
  before_handler n ;;
  n <- handle n ;;
  paint COLORS n ;;
  ret n.

(** ** A backend for closed examples

    The current point stays at the origin, every text has empty extents,
    no document can be loaded. *)

Definition origin (l : list call) : float * float := (0%float, 0%float).
Definition no_extents (l : list call) (t : string) : extents :=
  Extents 0 0 0 0 0 0.
Definition no_tree (href : string) (parent : node) : result node :=
  Raise LoaderError.
Definition no_str (v : value) : string := "0".
Definition fresh : surface := Surface [] None.
Definition demo_draw : nat -> nat -> node -> M unit :=
  draw [] origin no_extents no_tree no_str.

(** * Notions used to state further properties *)

(** ** Texts *)

(** The characters of a signed decimal numeral. *)
Definition numeral_char (c : ascii) : bool :=
  Str.isdigit_char c || Str.mem_char c ".-+".

(** The characters of an unsigned decimal numeral. *)
Definition unsigned_char (c : ascii) : bool :=
  Str.isdigit_char c || Ascii.eqb c ".".

(** Number of occurrences of a character. *)
Fixpoint count_char (c : ascii) (s : string) : nat :=
  match s with
  | EmptyString => 0
  | String d s' => (if Ascii.eqb d c then 1 else 0) + count_char c s'
  end.

(** Every minus sign of [s] follows a space; [prev] tells whether the
    character before [s] is a space. *)
Fixpoint guarded (prev : bool) (s : string) : bool :=
  match s with
  | EmptyString => true
  | String c s' =>
      (if Ascii.eqb c "-" then prev else true) && guarded (Ascii.eqb c " ") s'
  end.

Definition head_minus (s : string) : bool :=
  match s with
  | String c _ => Ascii.eqb c "-"
  | EmptyString => false
  end.

(** A character that [strip] and [lower] leave alone. *)
Definition plain_char (c : ascii) : bool :=
  negb (Str.isspace c) && Ascii.eqb (Str.lower_char c) c.

(** All the characters, and the strings of at most two of them. *)
Definition all_ascii : list ascii := List.map ascii_of_nat (seq 0 256).

Definition short_strings : list string :=
  "" :: List.map (fun c => String c "") all_ascii
     ++ flat_map (fun a => List.map (fun b => String a (String b "")) all_ascii)
          all_ascii.

(** ** Colours written in hexadecimal *)

(** The lowercase hexadecimal digit of a number below 16. *)
Definition hex_char (n : nat) : ascii :=
  nth n ["0"; "1"; "2"; "3"; "4"; "5"; "6"; "7"; "8"; "9";
         "a"; "b"; "c"; "d"; "e"; "f"]%char "0"%char.

(** The two hexadecimal digits of a number below 256. *)
Definition hex_byte (n : nat) : string :=
  String (hex_char (n / 16)) (String (hex_char (n mod 16)) "").

(** [#rrggbb] and [#rrggbbaa] *)
Definition hex_color (r g b : nat) : string :=
  "#" ++ hex_byte r ++ hex_byte g ++ hex_byte b.
Definition hex_color_alpha (r g b a : nat) : string :=
  hex_color r g b ++ hex_byte a.

(** [#rgb] and [#rgba] *)
Definition short_color (r g b : nat) : string :=
  String "#" (String (hex_char r) (String (hex_char g) (String (hex_char b) ""))).
Definition short_color_alpha (r g b a : nat) : string :=
  short_color r g b ++ String (hex_char a) "".

(** [float(n)] for a natural number below [2 ^ 53], which is exact. *)
Definition float_of_nat (n : nat) : float :=
  PrimFloat.of_uint63 (Uint63.of_Z (Z.of_nat n)).

(** [n / 255.] and [n / 255] for an [int] *)
Definition over_255 (n : nat) : result value :=
  Py.truediv (VInt (Z.of_nat n)) (VFloat 255).
Definition alpha_255 (n : nat) : result value :=
  Py.truediv (VInt (Z.of_nat n)) (VInt 255).

(** [int(s, 16) / 255] *)
Definition alpha (s : string) : result value :=
  (n <- Num.py_int16 s ;; Py.truediv (VInt n) (VInt 255))%res.

Definition float_or_value_error (r : result value) : bool :=
  match r with
  | Ok (VFloat _) => true
  | Raise ValueError => true
  | _ => false
  end.

(** The text that [color] reads the digits of: the value of the keyword,
    or the text itself, stripped and in lower case. *)
Definition color_text (COLORS : list (string * string)) (s : string) : string :=
  match lookup (Str.lower (Str.strip s)) COLORS with
  | Some hex => hex
  | None => Str.lower (Str.strip s)
  end.

(** The part of [color] that follows the lookup of the keyword: the
    doubling of the short forms and the reading of the hexadecimal
    digits. *)
Definition color_digits (s : string) (opacity : value)
  : result (value * value * value * value) :=
  (let s := if (String.length s =? 4)%nat || (String.length s =? 5)%nat
            then "#" ++ Str.double_chars (Str.drop 1 s) else s in
   opacity <-
     (if (String.length s =? 9)%nat
      then n <- Num.py_int16 (Str.slice 7 9 s) ;;
           a <- Py.truediv (VInt n) (VInt 255) ;;
           Py.mul opacity a
      else Ok opacity) ;;
   r <- channel (Str.slice 1 3 s) ;;
   g <- channel (Str.slice 3 5 s) ;;
   b <- channel (Str.slice 5 7 s) ;;
   Ok (r, g, b, opacity))%res.

(** ** Nodes and tags *)

(** The key of the reference of a [use] node. *)
Definition HREF : string := "{http://www.w3.org/1999/xlink}href".

(** The values that [size] returns. *)
Definition size_value (v : value) : Prop :=
  v = VNone \/ v = VInt 0 \/ exists f, v = VFloat f.

(** The attributes that [Surface.draw] reads on every node. *)
Definition draw_keys : list string :=
  ["x"; "y"; "transform"; "opacity"; "stroke-opacity"; "fill-opacity";
   "stroke-width"; "stroke"; "fill-rule"; "fill"].

(** The attributes that [Surface.text] reads. *)
Definition text_keys : list string :=
  ["fill"; "font-size"; "font-family"; "font-style"; "font-weight";
   "x"; "y"; "text-anchor"; "opacity"].

(** A tag that names no attribute of a surface, so that [draw] calls no
    handler for it.  The attributes that a surface inherits from [object]
    start with an underscore, as [_create_surface] and [_set_context_size]
    do. *)
Definition element_tag (t : string) : bool :=
  negb (prefix "_" t)
  && negb (existsb (String.eqb t)
             ["circle"; "path"; "line"; "tspan"; "text"; "use"; "draw"; "read";
              "bytesio"; "cairo"; "context"; "cursor_position"]).

(** No tag of the tree starts with an underscore. *)
Fixpoint public (n : node) : bool :=
  match n with
  | Node t _ kids _ _ => negb (prefix "_" t) && forallb public kids
  end.

(** The attributes of a surface that are no handlers: methods with other
    arguments than one node, and objects that cannot be called. *)
Definition attribute_tags : list string :=
  ["read"; "_create_surface"; "_set_context_size"; "bytesio"; "cairo"; "context"].

(** The text that [Surface.text] shows: the text of the node without the
    line ends around it. *)
Definition shown_text (n : node) : string :=
  match node_text n with
  | Some t => Str.strip_chars (String "010" (String "013" "")) t
  | None => ""
  end.

(** The node that [Surface.path] returns: the stroke width is ["1"] unless
    the node has one. *)
Definition with_stroke_width (n : node) : node :=
  if nonempty (get n "stroke-width") then n else set n "stroke-width" "1".

(** A character that [Surface.path] neither strips, pads nor separates: no
    whitespace, no letter, no comma and no minus sign. *)
Definition inert (c : ascii) : bool :=
  negb (Str.isspace c) && negb (Str.mem_char c ASCII_LETTERS)
  && negb (Str.mem_char c ",-").

(** ** Strokes and fills *)

Definition is_stroke (c : call) : bool :=
  match c with StrokePreserve => true | _ => false end.
Definition is_fill (c : call) : bool :=
  match c with Fill => true | _ => false end.
(** The numbers of [stroke_preserve] and of [fill] calls issued so far. *)
Definition strokes (s : surface) : nat := count is_stroke (context s).
Definition fills (s : surface) : nat := count is_fill (context s).
Definition paints (s : surface) : nat * nat := (strokes s, fills s).

(** ** The constructor *)

Section Construction.

Variable COLORS : list (string * string).
Variable current_point : list call -> float * float.
Variable text_extents : list call -> string -> extents.
Variable Tree : string -> node -> result node.
Variable str : value -> string.
(** [_create_surface] of the class of the surface: it creates [self.cairo]
    and [self.context], or raises. *)
Variable _create_surface : node -> value -> value -> result unit.

(** [Surface.__init__]: the state of the surface when the constructor
    returns.  The context is new when the tree is drawn, and the cursor
    does not exist. *)
Definition __init__ (depth fuel : nat) (tree : node) : result surface :=
  (width <- size (get tree "width") ;;
   height <- size (get tree "height") ;;
   _ <- _create_surface tree width height ;;
   match draw COLORS current_point text_extents Tree str depth fuel tree
           (Surface [] None) with
   | (Ok _, s) => Ok s
   | (Raise e, _) => Raise e
   | (Diverge, _) => Diverge
   end)%res.

End Construction.

(** * Properties *)

(** ** The model on small inputs *)

Example replace_overlap : Str.replace "  " " " "a   b" = "a  b".
Proof. reflexivity. Qed.
Example replace_multi : Str.replace "scale" "" "scale(2" = "(2".
Proof. reflexivity. Qed.
Example split_two : Str.split " " (Some 2) "10 20 rest of it" = ["10"; "20"; "rest of it"].
Proof. reflexivity. Qed.
Example split_short : Str.split " " (Some 2) "10 20" = ["10"; "20"].
Proof. reflexivity. Qed.
Example split_paren :
  Str.split ")" None "scale(2) translate(1,2)" = ["scale(2"; " translate(1,2"; ""].
Proof. reflexivity. Qed.
Example strip_unit : Str.strip_chars " mm" "10 mm" = "10".
Proof. reflexivity. Qed.
Example split_ws_ex : Str.split_ws "  0 0   50 50 " = ["0"; "0"; "50"; "50"].
Proof. reflexivity. Qed.
Example float_25_4 : Num.py_float "25.4" = Ok 25.4%float.
Proof. reflexivity. Qed.
Example float_neg : Num.py_float "-3.5" = Ok (-3.5)%float.
Proof. reflexivity. Qed.
Example float_exp : Num.py_float " 1_0.5e-3 " = Ok 0.0105%float.
Proof. reflexivity. Qed.
Example float_tiny : Num.py_float "4.9e-324" = Ok 4.9406564584124654e-324%float.
Proof. reflexivity. Qed.
Example float_third : Num.py_float "0.333333333333333333333" = Ok (1 / 3)%float.
Proof. reflexivity. Qed.
Example float_big : Num.py_float "1.7976931348623157e308" = Ok 1.7976931348623157e308%float.
Proof. reflexivity. Qed.
Example float_over : Num.py_float "1e309" = Ok PrimFloat.infinity.
Proof. reflexivity. Qed.
Example float_bad : Num.py_float "- 5" = Raise ValueError.
Proof. reflexivity. Qed.
Example float_empty : Num.py_float "" = Raise ValueError.
Proof. reflexivity. Qed.
Example int16_ff : Num.py_int16 "ff" = Ok 255%Z.
Proof. reflexivity. Qed.
Example int16_bad : Num.py_int16 "g0" = Raise ValueError.
Proof. reflexivity. Qed.
Example div_128_255 : Py.truediv (VInt 128) (VInt 255) = Ok (VFloat (128 / 255)%float).
Proof. reflexivity. Qed.
Example normalize_ex : normalize (Some "-1-2,3   4") = Ok " -1 -2 3 4".
Proof. reflexivity. Qed.
Example size_mm : size (Some "1mm") = Ok (VFloat (72 / 25.4)%float).
Proof. reflexivity. Qed.
Example size_junk : size (Some "abc") = Ok VNone.
Proof. reflexivity. Qed.
Example size_inf : size (Some "inf") = Raise ValueError.
Proof. reflexivity. Qed.
Example point_ex : point (Some "10 20 rest") = Ok (VFloat 10, VFloat 20, "rest").
Proof. reflexivity. Qed.
Example color_named :
  color [("red", "#ff0000")] (Some " Red ") (VInt 1)
  = Ok (VFloat 1, VFloat 0, VFloat 0, VInt 1).
Proof. reflexivity. Qed.

(** ** Strings *)

Lemma prefix_cons a old b s :
  prefix (String a old) (String b s) = Ascii.eqb a b && prefix old s.
Proof.
  simpl. destruct (ascii_dec a b) as [->|N].
  - now rewrite Ascii.eqb_refl.
  - apply Ascii.eqb_neq in N. now rewrite N.
Qed.

Lemma prefix_nil s : prefix "" s = true.
Proof. now destruct s. Qed.

Lemma replace_char_cons c new a s :
  Str.replace (String c "") new (String a s)
  = if Ascii.eqb c a then new ++ Str.replace (String c "") new s
    else String a (Str.replace (String c "") new s).
Proof.
  unfold Str.replace. cbn [Str.replace_from].
  rewrite prefix_cons, prefix_nil, andb_true_r. reflexivity.
Qed.

Lemma replace_separators s :
  Str.replace "," " " (Str.replace "-" " -" s) = separate s.
Proof.
  induction s as [|a s IH]; [reflexivity|].
  rewrite replace_char_cons.
  cbn [separate]. rewrite (Ascii.eqb_sym a "-"), (Ascii.eqb_sym a ",").
  destruct (Ascii.eqb "-" a) eqn:E.
  - cbn [append]. rewrite !replace_char_cons. cbn [Ascii.eqb Bool.eqb append].
    now rewrite IH.
  - rewrite replace_char_cons.
    destruct (Ascii.eqb "," a); cbn [append]; now rewrite IH.
Qed.

Lemma pairs_cons a s :
  pairs (String a s)
  = match s with
    | String b s' =>
        if Ascii.eqb a " " && Ascii.eqb b " " then String " " (pairs s')
        else String a (pairs s)
    | EmptyString => String a EmptyString
    end.
Proof.
  unfold pairs. cbn [Str.replace_from].
  rewrite prefix_cons. destruct s as [|b s'].
  - rewrite andb_false_r. reflexivity.
  - rewrite prefix_cons, prefix_nil, andb_true_r.
    rewrite (Ascii.eqb_sym " " a), (Ascii.eqb_sym " " b).
    destruct (Ascii.eqb a " " && Ascii.eqb b " "); reflexivity.
Qed.

Lemma contains_pair_cons a s :
  Str.contains "  " (String a s)
  = match s with
    | String b _ => (Ascii.eqb a " " && Ascii.eqb b " ") || Str.contains "  " s
    | EmptyString => false
    end.
Proof.
  cbn [Str.contains]. rewrite prefix_cons. destruct s as [|b s'].
  - cbn. now rewrite andb_false_r.
  - rewrite prefix_cons, prefix_nil, andb_true_r.
    now rewrite (Ascii.eqb_sym " " a), (Ascii.eqb_sym " " b).
Qed.

(** Induction on the length of a string. *)
Lemma string_len_ind (P : string -> Prop) :
  (forall s, (forall t, String.length t < String.length s -> P t) -> P s) ->
  forall s, P s.
Proof.
  intros H s. remember (String.length s) as n eqn:E.
  revert s E. induction n as [n IH] using lt_wf_ind.
  intros s ->. apply H. intros t Ht. now apply (IH (String.length t)).
Qed.

(** A pass of the replacement never lengthens the text, and shortens it
    when two spaces are adjacent: the loop of [normalize] terminates. *)
Lemma pairs_length s :
  String.length (pairs s) <= String.length s
  /\ (Str.contains "  " s = true -> String.length (pairs s) < String.length s).
Proof.
  induction s as [s IH] using string_len_ind.
  destruct s as [|a [|b s']].
  - cbn. split; [lia|discriminate].
  - rewrite pairs_cons, contains_pair_cons. split; [lia|discriminate].
  - rewrite pairs_cons, contains_pair_cons.
    destruct (Ascii.eqb a " " && Ascii.eqb b " ") eqn:E.
    + destruct (IH s') as [L _]; [cbn; lia|].
      cbn [String.length]. split; intros; lia.
    + destruct (IH (String b s')) as [L L']; [cbn; lia|].
      cbn [String.length orb] in *. split; [lia|].
      intros C. specialize (L' C). lia.
Qed.

Lemma pairs_head s : head_space (pairs s) = head_space s.
Proof.
  destruct s as [|a [|b s']]; [reflexivity|now rewrite pairs_cons|].
  rewrite pairs_cons. destruct (Ascii.eqb a " " && Ascii.eqb b " ") eqn:E.
  - apply andb_prop in E as [E _]. cbn. now rewrite E.
  - reflexivity.
Qed.

Lemma squeeze_space s :
  squeeze (String " " s)
  = if head_space s then squeeze s else String " " (squeeze s).
Proof. destruct s as [|b s']; reflexivity. Qed.

Lemma squeeze_cons a s :
  squeeze (String a s)
  = if Ascii.eqb a " " && head_space s then squeeze s
    else String a (squeeze s).
Proof.
  destruct s as [|b s']; [|reflexivity].
  cbn. now rewrite andb_false_r.
Qed.

Lemma squeeze_pairs s : squeeze (pairs s) = squeeze s.
Proof.
  induction s as [s IH] using string_len_ind.
  destruct s as [|a [|b s']]; [reflexivity|now rewrite pairs_cons|].
  rewrite pairs_cons.
  destruct (Ascii.eqb a " " && Ascii.eqb b " ") eqn:E.
  - apply andb_prop in E as [Ea Eb].
    apply Ascii.eqb_eq in Ea, Eb. subst a b.
    rewrite (squeeze_cons " " (String " " s')).
    cbn [head_space Ascii.eqb Bool.eqb andb].
    rewrite !squeeze_space, pairs_head, IH; [reflexivity|cbn; lia].
  - rewrite (squeeze_cons a (pairs _)), (squeeze_cons a (String b s')).
    rewrite pairs_head, IH; [reflexivity|cbn; lia].
Qed.

Lemma squeeze_fixed s : Str.contains "  " s = false -> squeeze s = s.
Proof.
  induction s as [|a s IH]; [reflexivity|].
  rewrite contains_pair_cons, squeeze_cons. destruct s as [|b s'].
  - now rewrite andb_false_r.
  - intros H. apply orb_false_elim in H as [H1 H2].
    cbn [head_space]. rewrite H1. now rewrite IH.
Qed.

(** With the length of the text as fuel the loop ends by its own test. *)
Lemma collapse_squeeze fuel : forall s,
  String.length s <= fuel -> collapse fuel s = Ok (squeeze s).
Proof.
  induction fuel as [|k IH]; intros s L.
  - destruct s; [reflexivity|cbn in L; lia].
  - cbn [collapse]. destruct (Str.contains "  " s) eqn:C.
    + change (Str.replace "  " " " s) with (pairs s).
      rewrite IH, squeeze_pairs; [reflexivity|].
      destruct (pairs_length s) as [_ H]. specialize (H C). lia.
    + now rewrite squeeze_fixed.
Qed.

Lemma collapse_exit fuel : forall s r,
  collapse fuel s = Ok r -> Str.contains "  " r = false.
Proof.
  induction fuel as [|k IH]; intros s r; cbn [collapse];
    destruct (Str.contains "  " s) eqn:C; try discriminate.
  - now intros [= <-].
  - apply IH.
  - now intros [= <-].
Qed.

Lemma separate_no_comma s : Str.mem_char "," (separate s) = false.
Proof.
  induction s as [|a s IH]; [reflexivity|].
  cbn [separate]. destruct (Ascii.eqb a "-") eqn:E1; [exact IH|].
  destruct (Ascii.eqb a ",") eqn:E2; [exact IH|].
  cbn [Str.mem_char]. now rewrite (Ascii.eqb_sym "," a), E2.
Qed.

Lemma squeeze_mem c s :
  Str.mem_char c s = false -> Str.mem_char c (squeeze s) = false.
Proof.
  induction s as [|a s IH]; [reflexivity|].
  rewrite squeeze_cons. cbn [Str.mem_char]. intros H.
  apply orb_false_elim in H as [H1 H2].
  destruct (Ascii.eqb a " " && head_space s); [auto|].
  cbn [Str.mem_char]. now rewrite H1, IH.
Qed.

Lemma adjacent_spaces s : adjacent (Ascii.eqb " ") s = Str.contains "  " s.
Proof.
  induction s as [|a s IH]; [reflexivity|].
  rewrite contains_pair_cons. cbn [adjacent]. destruct s as [|b s']; [reflexivity|].
  now rewrite IH, (Ascii.eqb_sym " " a), (Ascii.eqb_sym " " b).
Qed.

(** A token without the separator is split off whole. *)
Lemma split_from_token sep ms x : forall cur s,
  Str.mem_char sep x = false ->
  ms <> Some 0 ->
  Str.split_from sep ms cur (x ++ String sep s)
  = Str.rev_append cur x :: Str.split_from sep (option_map Nat.pred ms) "" s.
Proof.
  induction x as [|a x IH]; intros cur s Hx Hms; cbn [append Str.split_from].
  - rewrite Ascii.eqb_refl.
    destruct ms as [[|k]|]; [congruence|reflexivity|reflexivity].
  - cbn [Str.mem_char] in Hx. apply orb_false_elim in Hx as [Ha Hx].
    rewrite (Ascii.eqb_sym a sep), Ha.
    rewrite IH by assumption.
    destruct ms as [[|k]|]; [congruence|reflexivity|reflexivity].
Qed.

Lemma split_from_last sep cur s :
  Str.split_from sep (Some 0) cur s = [Str.rev_append cur s].
Proof. destruct s; reflexivity. Qed.

Lemma split_three x y rest :
  Str.mem_char " " x = false -> Str.mem_char " " y = false ->
  Str.split " " (Some 2) (x ++ " " ++ y ++ " " ++ rest) = [x; y; rest].
Proof.
  intros Hx Hy. unfold Str.split.
  change (" " ++ y ++ " " ++ rest) with (String " " (y ++ String " " rest)).
  rewrite split_from_token by (assumption || discriminate).
  cbn [option_map Nat.pred].
  rewrite split_from_token by (assumption || discriminate).
  cbn [option_map Nat.pred]. now rewrite split_from_last.
Qed.

(** ** [normalize] *)

Lemma normalize_value s : normalize (Some s) = Ok (normalize_spec s).
Proof.
  unfold normalize, normalize_spec. rewrite replace_separators.
  apply collapse_squeeze. lia.
Qed.

(** C3, as the specification states it, fails on whitespace other than the
    space character: two tabs stay two tabs. *)
Lemma normalize_keeps_tabs :
  normalize (Some (String TAB (String TAB "")))
  = Ok (String TAB (String TAB ""))
  /\ adjacent Str.isspace (String TAB (String TAB "")) = true.
Proof. split; reflexivity. Qed.

(** C3 (amended): for every string, [normalize] returns the string with a
    space inserted before each minus sign, every comma replaced by a space,
    and every run of space characters collapsed to one space; the result
    holds no comma and no two adjacent space characters, and ["-1-2"]
    becomes [" -1 -2"]. *)
Theorem normalize_correct :
  (forall s, exists r,
      normalize (Some s) = Ok r
      /\ r = normalize_spec s
      /\ Str.mem_char "," r = false
      /\ adjacent (Ascii.eqb " ") r = false)
  /\ normalize (Some "-1-2") = Ok " -1 -2".
Proof.
  split; [|reflexivity].
  intros s. exists (normalize_spec s).
  pose proof (normalize_value s) as E.
  repeat split.
  - exact E.
  - apply squeeze_mem, separate_no_comma.
  - rewrite adjacent_spaces. unfold normalize in E.
    exact (collapse_exit _ _ _ E).
Qed.

(** ** [point] *)

(** C2, as the specification states it, fails when nothing follows the
    second token and when the tokens are separated by commas. *)
Lemma point_needs_two_spaces :
  point (Some "10 20") = Raise ValueError
  /\ point (Some "10,20,rest") = Raise ValueError.
Proof. split; reflexivity. Qed.

(** C2 (amended): for every string made of a token, a space, a token, a
    space and a remainder, where the tokens hold no space, [point] resolves
    the two tokens with [size] and returns the remainder as it is;
    [point("10 20 rest")] is [(10.0, 20.0, "rest")] and [point(None)] is
    [(0, 0, "")]. *)
Theorem point_tokens :
  (forall x y rest,
      Str.mem_char " " x = false -> Str.mem_char " " y = false ->
      point (Some (x ++ " " ++ y ++ " " ++ rest))
      = (vx <- size (Some x) ;; vy <- size (Some y) ;; Ok (vx, vy, rest))%res)
  /\ point (Some "10 20 rest") = Ok (VFloat 10, VFloat 20, "rest")
  /\ point None = Ok (VInt 0, VInt 0, "").
Proof.
  split; [|split; reflexivity].
  intros x y rest Hx Hy. unfold point.
  rewrite split_three by assumption.
  destruct (x ++ " " ++ y ++ " " ++ rest) eqn:E; [|reflexivity].
  destruct x; discriminate.
Qed.

Lemma point_tokens_witness :
  point (Some ("-1.5" ++ " " ++ "2mm" ++ " " ++ "L 3 4"))
  = (vx <- size (Some "-1.5") ;; vy <- size (Some "2mm") ;;
     Ok (vx, vy, "L 3 4"))%res.
Proof. apply (proj1 point_tokens); reflexivity. Defined.

(** ** [size] *)

Lemma py_float_result s : exists r, Num.py_float s = r /\ r <> Diverge.
Proof.
  eexists. split; [reflexivity|]. unfold Num.py_float.
  repeat match goal with
         | |- context [match ?x with _ => _ end] => destruct x
         end; discriminate.
Qed.

(** The product with [NotImplemented] is never reached or raises. *)
Lemma unresolved_unit_raises x :
  exists e,
    (f <- Num.py_float x ;; times_unit f NotImplemented)%res = Raise e
    /\ (e = ValueError \/ e = TypeError).
Proof.
  destruct (py_float_result x) as (r & E & N). rewrite E.
  destruct r as [f|e|]; [exists TypeError; cbn; auto| |congruence].
  exists e. split; [reflexivity|]. left.
  revert E. unfold Num.py_float.
  repeat match goal with
         | |- context [match ?x with _ => _ end] => destruct x
         end; congruence.
Qed.

(** C4: for every length string whose selected unit is [em], [ex] or [%],
    [size] returns no value: it raises, a [ValueError] when the text left
    of the unit is no numeral and a [TypeError] from the product with
    [NotImplemented] otherwise. *)
Theorem size_unresolved_unit (s u : string) :
  selected_unit s = Some u ->
  In u ["em"; "ex"; "%"] ->
  exists e, size (Some s) = Raise e /\ (e = ValueError \/ e = TypeError).
Proof.
  unfold selected_unit, size. destruct s as [|c s']; [discriminate|].
  set (t := String c s').
  destruct (Str.isdigit _); [discriminate|].
  unfold UNITS. cbn [find size_units fst].
  repeat match goal with
         | |- context [if Str.contains ?a t then _ else _] =>
             destruct (Str.contains a t)
         end; cbn [option_map fst];
    intros [= <-] Hin;
    first [ apply unresolved_unit_raises
          | exfalso; cbn in Hin; intuition discriminate ].
Qed.

Lemma size_unresolved_unit_witness :
  exists e, size (Some "2em") = Raise e /\ (e = ValueError \/ e = TypeError).
Proof.
  apply (size_unresolved_unit "2em" "em"); [reflexivity|]. left. reflexivity.
Defined.

Example size_2em : size (Some "2em") = Raise TypeError.
Proof. reflexivity. Qed.
Example size_50_percent : size (Some "50%") = Raise TypeError.
Proof. reflexivity. Qed.
Example size_word_em : size (Some "a em") = Raise ValueError.
Proof. reflexivity. Qed.

(** C8: for every unit with a conversion factor, which [UNITS] maps to the
    factor that the specification lists, and every representative numeral,
    [size] of the numeral followed by the unit is the numeral times the
    factor; [size] of an absent or empty string is [0] and [size("42")] is
    [42.0]. *)
Theorem size_units_table :
  Forall (fun uf =>
            lookup (fst uf) UNITS = Some (Factor (snd uf))
            /\ Forall (fun tv =>
                         size (Some (fst tv ++ fst uf))
                         = Ok (VFloat (snd tv * snd uf)%float))
                 numerals)
    unit_factors
  /\ size None = Ok (VInt 0)
  /\ size (Some "") = Ok (VInt 0)
  /\ size (Some "42") = Ok (VFloat 42).
Proof.
  repeat split; repeat constructor.
Qed.

(** ** [color] *)

(** C9: [color] maps an absent value and ["none"] to [(0, 0, 0, 0)], maps
    ["#f00"] to [(1.0, 0.0, 0.0, 1)], which equals [(1, 0, 0, 1)], and for
    ["#ff000080"] returns as alpha the opacity it is given times
    [128 / 255], the opacity being [1] by default; the two strings are no
    colour keywords. *)
Theorem color_resolution (COLORS : list (string * string)) :
  lookup "#f00" COLORS = None ->
  lookup "#ff000080" COLORS = None ->
  (forall opacity, color COLORS None opacity = Ok (VInt 0, VInt 0, VInt 0, VInt 0))
  /\ (forall opacity,
        color COLORS (Some "none") opacity = Ok (VInt 0, VInt 0, VInt 0, VInt 0))
  /\ color COLORS (Some "#f00") (VInt 1) = Ok (VFloat 1, VFloat 0, VFloat 0, VInt 1)
  /\ rgba_eqb (VFloat 1, VFloat 0, VFloat 0, VInt 1) (VInt 1, VInt 0, VInt 0, VInt 1)
     = true
  /\ (forall opacity,
        color COLORS (Some "#ff000080") opacity
        = (a <- Py.mul opacity (VFloat (128 / 255)) ;;
           Ok (VFloat 1, VFloat 0, VFloat 0, a))%res)
  /\ color COLORS (Some "#ff000080") (VInt 1)
     = Ok (VFloat 1, VFloat 0, VFloat 0, VFloat (128 / 255)).
Proof.
  intros H1 H2. unfold color. cbn [Str.strip Str.lower String.eqb].
  repeat split; try reflexivity.
  - change (Str.lower (Str.strip "#f00")) with "#f00". rewrite H1. reflexivity.
  - intros opacity.
    change (Str.lower (Str.strip "#ff000080")) with "#ff000080". rewrite H2.
    cbv -[Py.mul]. reflexivity.
  - change (Str.lower (Str.strip "#ff000080")) with "#ff000080". rewrite H2.
    reflexivity.
Qed.

Lemma color_resolution_witness :
  color [("red", "#ff0000")] (Some "#ff000080") (VInt 1)
  = Ok (VFloat 1, VFloat 0, VFloat 0, VFloat (128 / 255)).
Proof.
  apply (color_resolution [("red", "#ff0000")]); reflexivity.
Defined.

(** ** Computations on the surface *)

Lemma bind_inv {A B} (m : M A) (f : A -> M B) s r s' :
  bind m f s = (r, s') ->
  (exists a s1, m s = (Ok a, s1) /\ f a s1 = (r, s'))
  \/ (is_ok r = false /\ exists r0, m s = (r0, s') /\ is_ok r0 = false).
Proof.
  unfold bind. destruct (m s) as [[a|e|] s1]; intros H.
  - left. eauto.
  - right. injection H as <- <-. split; [reflexivity|]. now exists (Raise e).
  - right. injection H as <- <-. split; [reflexivity|]. now exists Diverge.
Qed.

Lemma bind_ok {A B} (m : M A) (f : A -> M B) s a s1 :
  m s = (Ok a, s1) -> bind m f s = f a s1.
Proof. intros H. unfold bind. now rewrite H. Qed.

(** An exception raised by the first computation is the outcome of the
    sequence: nothing catches it. *)
Lemma bind_raise {A B} (m : M A) (f : A -> M B) s e s1 :
  m s = (Raise e, s1) -> bind m f s = (Raise e, s1).
Proof. intros H. unfold bind. now rewrite H. Qed.

Lemma bind_assoc {A B C} (m : M A) (f : A -> M B) (g : B -> M C) s :
  bind (bind m f) g s = bind m (fun a => bind (f a) g) s.
Proof. unfold bind. now destruct (m s) as [[a|e|] s1]. Qed.

Lemma bind_ext {A B} (m : M A) (f g : A -> M B) s :
  (forall a s1, f a s1 = g a s1) -> bind m f s = bind m g s.
Proof. intros H. unfold bind. destruct (m s) as [[a|e|] s1]; auto. Qed.

Lemma bind_ret {A B} (a : A) (f : A -> M B) s : bind (ret a) f s = f a s.
Proof. reflexivity. Qed.

Lemma lift_inv {A} (r : result A) s a s' :
  lift r s = (Ok a, s') -> r = Ok a /\ s' = s.
Proof. now intros [= -> <-]. Qed.

Lemma for_each_raise {A} (f : A -> M unit) l1 a l2 s s1 e s2 :
  for_each f l1 s = (Ok tt, s1) -> f a s1 = (Raise e, s2) ->
  for_each f (l1 ++ a :: l2)%list s = (Raise e, s2).
Proof.
  revert s. induction l1 as [|b l1 IH]; intros s H1 H2; cbn [for_each app] in *.
  - injection H1 as <-. now apply bind_raise.
  - apply bind_inv in H1 as [([] & s0 & E & H1)|(? & _)]; [|discriminate].
    rewrite (bind_ok _ _ _ _ _ E). now apply IH.
Qed.

(** Inversion of a sequence that returned. *)
Ltac ok_stage H H1 :=
  let a := fresh "res" in
  let s1 := fresh "st" in
  apply bind_inv in H as [(a & s1 & H1 & H)|(? & _)]; [|discriminate].

Section Invariant.
Context {X : Type} (obs : surface -> X).

Lemma invariant_ret {A} (a : A) : invariant obs (ret a).
Proof. intros s r s' [= <- <-]. reflexivity. Qed.

Lemma invariant_lift {A} (r : result A) : invariant obs (lift r).
Proof. intros s r' s' [= <- <-]. reflexivity. Qed.

Lemma invariant_raise {A} e : invariant obs (@raise A e).
Proof. apply invariant_lift. Qed.

Lemma invariant_bind {A B} (m : M A) (f : A -> M B) :
  invariant obs m -> (forall a, invariant obs (f a)) -> invariant obs (bind m f).
Proof.
  intros Hm Hf s r s' H.
  apply bind_inv in H as [(a & s1 & H1 & H2)|(_ & r0 & H1 & _)].
  - rewrite (Hf _ _ _ _ H2). eapply Hm; eauto.
  - eapply Hm; eauto.
Qed.

Lemma invariant_for_each {A} (f : A -> M unit) l :
  (forall a, In a l -> invariant obs (f a)) -> invariant obs (for_each f l).
Proof.
  induction l as [|a l IH]; intros H; cbn [for_each].
  - apply invariant_ret.
  - apply invariant_bind; [apply H; now left|intros _; apply IH].
    intros b Hb. apply H. now right.
Qed.

Lemma invariant_emit c : ignores obs c -> invariant obs (emit c).
Proof. intros H s r s' [= <- <-]. apply H. Qed.

End Invariant.

Lemma returns_ret {A} (P : A -> Prop) a : P a -> returns P (ret a).
Proof. intros H s b s' [= <- <-]. exact H. Qed.

Lemma returns_raise {A} (P : A -> Prop) e : returns P (raise e).
Proof. intros s b s' [=]. Qed.

Lemma returns_bind {A B} (P : B -> Prop) (m : M A) (f : A -> M B) :
  (forall a, returns P (f a)) -> returns P (bind m f).
Proof.
  intros Hf s b s' H. apply bind_inv in H as [(a & s1 & H1 & H2)|(H & _)].
  - eapply Hf; eauto.
  - discriminate.
Qed.

Lemma returns_any {A} (m : M A) : returns (fun _ => True) m.
Proof. intros s a s' _. exact I. Qed.

Lemma returns_bind_with {A B} (Q : A -> Prop) (P : B -> Prop) (m : M A)
  (f : A -> M B) :
  returns Q m -> (forall a, Q a -> returns P (f a)) -> returns P (bind m f).
Proof.
  intros Hm Hf s b s' H. apply bind_inv in H as [(a & s1 & H1 & H2)|(H & _)].
  - eapply Hf; eauto.
  - discriminate.
Qed.

Lemma ensures_bind {A B} (P : surface -> Prop) (m : M A) (f : A -> M B) :
  (forall a, ensures P (f a)) -> ensures P (bind m f).
Proof.
  intros Hf s b s' H. apply bind_inv in H as [(a & s1 & H1 & H2)|(H & _)].
  - eapply Hf; eassumption.
  - discriminate.
Qed.

Lemma count_app p l1 l2 : count p (l1 ++ l2)%list = count p l1 + count p l2.
Proof. unfold count. now rewrite filter_app, length_app. Qed.

Lemma count_one p c : count p [c] = if p c then 1 else 0.
Proof. unfold count. cbn [filter]. now destruct (p c). Qed.

Lemma ignores_counts c :
  is_save c = false -> is_restore c = false -> ignores counts c.
Proof.
  intros H1 H2 s. unfold counts, saves, restores. cbn [context].
  rewrite !count_app, !count_one, H1, H2. now rewrite !Nat.add_0_r.
Qed.

Lemma ignores_cursor c : ignores cursor_position c.
Proof. intros s. reflexivity. Qed.

Lemma counts_elim {A} (m : M A) s r s' :
  invariant counts m -> m s = (r, s') ->
  saves s' = saves s /\ restores s' = restores s.
Proof. intros H E. apply H in E. now injection E. Qed.

Lemma counts_cursor p : invariant counts (set_cursor p).
Proof. intros s r s' [= <- <-]. reflexivity. Qed.

Lemma emit_run c s r s' :
  emit c s = (r, s') ->
  r = Ok tt
  /\ saves s' = saves s + (if is_save c then 1 else 0)
  /\ restores s' = restores s + (if is_restore c then 1 else 0).
Proof.
  intros [= <- <-]. unfold saves, restores. cbn [context].
  rewrite !count_app, !count_one. auto.
Qed.

Lemma bal_refl s : bal s s.
Proof. unfold bal. lia. Qed.

Lemma bal_trans a b c : bal a b -> bal b c -> bal a c.
Proof. unfold bal. lia. Qed.

Lemma invariant_grows {A} (m : M A) : invariant counts m -> grows m.
Proof.
  intros H s r s' E. destruct (counts_elim _ _ _ _ H E) as [E1 E2].
  unfold bal. lia.
Qed.

Lemma grows_bind {A B} (m : M A) (f : A -> M B) :
  grows m -> (forall a, grows (f a)) -> grows (bind m f).
Proof.
  intros Hm Hf s r s' H.
  apply bind_inv in H as [(a & s1 & H1 & H2)|(_ & r0 & H1 & _)].
  - eapply bal_trans; [eapply Hm|eapply Hf]; eauto.
  - eapply Hm; eauto.
Qed.

Lemma grows_for_each {A} (f : A -> M unit) l :
  (forall a, grows (f a)) -> grows (for_each f l).
Proof.
  intros H. induction l as [|a l IH]; cbn [for_each].
  - apply invariant_grows, invariant_ret.
  - apply grows_bind; [apply H|intros _; apply IH].
Qed.

Lemma invariant_keeps {A} (m : M A) :
  invariant cursor_position m -> keeps_absent m.
Proof. intros H s r s' Hs E. apply H in E. congruence. Qed.

Lemma keeps_bind {A B} (P : A -> Prop) (m : M A) (f : A -> M B) :
  keeps_absent m -> returns P m -> (forall a, P a -> keeps_absent (f a)) ->
  keeps_absent (bind m f).
Proof.
  intros Hm Hr Hf s r s' Hs H.
  apply bind_inv in H as [(a & s1 & H1 & H2)|(_ & r0 & H1 & _)].
  - eapply Hf; [eapply Hr; eassumption| |eassumption]. eapply Hm; eassumption.
  - eapply Hm; eassumption.
Qed.

Lemma keeps_for_each {A} (f : A -> M unit) l :
  (forall a, In a l -> keeps_absent (f a)) -> keeps_absent (for_each f l).
Proof.
  induction l as [|a l IH]; intros H; cbn [for_each].
  - apply invariant_keeps, invariant_ret.
  - apply (keeps_bind (fun _ => True)); [apply H; now left|apply returns_any|].
    intros _ _. apply IH. intros b Hb. apply H. now right.
Qed.

(** ** What the handlers leave alone *)

Ltac inv_step side :=
  match goal with
  | |- invariant _ (bind _ _) => apply invariant_bind; [|intros]
  | |- invariant _ (ret _) => apply invariant_ret
  | |- invariant _ (lift _) => apply invariant_lift
  | |- invariant _ (raise _) => apply invariant_raise
  | |- invariant _ (emit _) => apply invariant_emit; side
  | |- invariant _ (call1 _ _) => unfold call1
  | |- invariant _ (call2 _ _ _) => unfold call2
  | |- invariant _ (call4 _ _ _ _ _) => unfold call4
  | |- invariant _ (call6 _ _ _ _ _ _ _) => unfold call6
  | |- invariant _ (set_source_rgba _) => unfold set_source_rgba
  | |- invariant _ (get_current_point _) => unfold get_current_point
  | |- invariant _ get_cursor => unfold get_cursor
  | |- invariant _ (fun s => (Ok _, s)) => intros ? ? ? [= <- <-]; reflexivity
  | |- invariant _ (match ?x with _ => _ end) => destruct x
  end.

Ltac shape_done :=
  repeat match goal with
         | |- context [if ?b then _ else _] => destruct b
         end;
  reflexivity.

Ltac ret_step :=
  match goal with
  | |- returns _ (bind _ _) => apply returns_bind; intros
  | |- returns _ (ret _) => apply returns_ret
  | |- returns _ (raise _) => apply returns_raise
  | |- returns _ (match ?x with _ => _ end) => destruct x
  end.

Section Handlers.
Context {X : Type} (obs : surface -> X).
Hypothesis obs_emit :
  forall c, is_save c = false -> is_restore c = false -> ignores obs c.

Variable COLORS : list (string * string).
Variable current_point : list call -> float * float.
Variable text_extents : list call -> string -> extents.
Variable Tree : string -> node -> result node.
Variable str : value -> string.

Ltac side :=
  apply obs_emit;
  repeat match goal with
         | |- context [if ?b then _ else _] => destruct b
         end;
  reflexivity.
Ltac inv := repeat inv_step side.

Lemma path_command_invariant v letter coords :
  invariant obs (path_command current_point v letter coords).
Proof. unfold path_command. inv. Qed.

Lemma path_step_invariant v : invariant obs (path_step current_point v).
Proof. unfold path_step. inv. apply path_command_invariant. Qed.

Lemma path_loop_invariant fuel :
  forall v, invariant obs (path_loop current_point fuel v).
Proof.
  induction fuel as [|k IH]; intros v; cbn [path_loop]; destruct (rest v); inv.
  - apply path_step_invariant.
  - apply IH.
Qed.

Lemma path_invariant fuel n : invariant obs (path current_point fuel n).
Proof. unfold path. inv. apply path_loop_invariant. Qed.

Lemma circle_invariant n : invariant obs (circle n).
Proof. unfold circle. inv. Qed.

Lemma line_invariant n : invariant obs (line n).
Proof. unfold line. inv. Qed.

Lemma apply_transformation_invariant t vs :
  invariant obs (apply_transformation t vs).
Proof. unfold apply_transformation. inv. Qed.

Lemma transform_types_invariant ts :
  forall t, invariant obs (transform_types ts t).
Proof.
  induction ts as [|a ts IH]; intros t; cbn [transform_types]; inv.
  - apply apply_transformation_invariant.
  - apply IH.
  - apply IH.
Qed.

Lemma transform_invariant n : invariant obs (transform n).
Proof.
  unfold transform. inv.
  apply invariant_for_each. intros. apply transform_types_invariant.
Qed.

Lemma paint_invariant n : invariant obs (paint COLORS n).
Proof. unfold paint. inv. Qed.

Lemma set_context_size_invariant w h vb :
  invariant obs (_set_context_size w h vb).
Proof. unfold _set_context_size. inv. Qed.

Hypothesis obs_cursor : forall p, invariant obs (set_cursor p).

Lemma text_invariant n :
  invariant obs (text COLORS current_point text_extents n).
Proof. unfold text. inv. apply obs_cursor. Qed.

Lemma tspan_invariant n :
  invariant obs (tspan COLORS current_point text_extents str n).
Proof. unfold tspan. inv; apply text_invariant. Qed.

End Handlers.

Ltac quiet_step := inv_step ltac:(apply ignores_counts; reflexivity).

Ltac handler_quiet :=
  first [ apply circle_invariant; exact ignores_counts
        | apply path_invariant; exact ignores_counts
        | apply line_invariant; exact ignores_counts
        | apply tspan_invariant; [exact ignores_counts|exact counts_cursor]
        | apply text_invariant; [exact ignores_counts|exact counts_cursor]
        | apply set_context_size_invariant; exact ignores_counts
        | apply transform_invariant; exact ignores_counts
        | apply paint_invariant; exact ignores_counts
        | solve [repeat quiet_step] ].

Ltac cursor_quiet :=
  first [ apply circle_invariant; intros; apply ignores_cursor
        | apply path_invariant; intros; apply ignores_cursor
        | apply line_invariant; intros; apply ignores_cursor
        | apply transform_invariant; intros; apply ignores_cursor
        | apply paint_invariant; intros; apply ignores_cursor
        | solve [repeat inv_step ltac:(apply ignores_cursor)] ].

Lemma count_nodes_eq n :
  count_nodes n = S (list_sum (List.map count_nodes (children n))).
Proof. now destruct n. Qed.

Lemma count_nonroot_eq n :
  count_nonroot n
  = (if root n then 0 else 1) + list_sum (List.map count_nonroot (children n)).
Proof. now destruct n. Qed.

Lemma plain_eq n :
  plain n = negb (String.eqb (tag n) "use") && negb (String.eqb (tag n) "draw")
            && forallb plain (children n).
Proof. now destruct n. Qed.

Lemma no_text_eq n :
  no_text n = negb (String.eqb (tag n) "text") && negb (String.eqb (tag n) "use")
              && negb (String.eqb (tag n) "draw")
              && forallb no_text (children n).
Proof. now destruct n. Qed.

Lemma for_each_counts (f : node -> M unit) :
  (forall n s s', plain n = true -> f n s = (Ok tt, s') ->
     saves s' = saves s + count_nodes n
     /\ restores s' = restores s + count_nonroot n) ->
  forall l s s', forallb plain l = true -> for_each f l s = (Ok tt, s') ->
    saves s' = saves s + list_sum (List.map count_nodes l)
    /\ restores s' = restores s + list_sum (List.map count_nonroot l).
Proof.
  intros Hf. induction l as [|a l IH]; intros s s' Hp H; cbn [for_each] in H.
  - injection H as <-. cbn. lia.
  - cbn [forallb] in Hp. apply andb_prop in Hp as [Ha Hl].
    apply bind_inv in H as [([] & s1 & H1 & H)|(? & _)]; [|discriminate].
    apply Hf in H1 as [E1 E2]; [|assumption].
    apply IH in H as [E3 E4]; [|assumption].
    cbn [List.map]. unfold list_sum in *. cbn [fold_right]. lia.
Qed.

Section Shape.
Variable COLORS : list (string * string).
Variable current_point : list call -> float * float.
Variable text_extents : list call -> string -> extents.
Variable Tree : string -> node -> result node.
Variable str : value -> string.

Lemma path_shape fuel n :
  returns (fun n' => shape n' = shape n) (path current_point fuel n).
Proof. unfold path. repeat ret_step; shape_done. Qed.

Lemma circle_shape n : returns (fun n' => shape n' = shape n) (circle n).
Proof. unfold circle. repeat ret_step; shape_done. Qed.

Lemma line_shape n : returns (fun n' => shape n' = shape n) (line n).
Proof. unfold line. repeat ret_step; shape_done. Qed.

Lemma text_shape n :
  returns (fun n' => shape n' = shape n)
    (text COLORS current_point text_extents n).
Proof. unfold text. repeat ret_step; shape_done. Qed.

Lemma tspan_shape n :
  returns (fun n' => shape n' = shape n)
    (tspan COLORS current_point text_extents str n).
Proof.
  unfold tspan. repeat ret_step.
  intros s0 n0 s1 H. now rewrite (text_shape _ _ _ _ H).
Qed.

Lemma use_shape dr n : returns (fun n' => shape n' = shape n) (use Tree dr n).
Proof. unfold use. repeat ret_step; shape_done. Qed.

(** A handler returns the node with its children and its root flag. *)
Lemma dispatch_shape dr fuel n :
  returns (fun n' => shape n' = shape n)
    (dispatch COLORS current_point text_extents Tree str dr fuel n).
Proof.
  unfold dispatch.
  repeat match goal with
         | |- returns _ (if ?b then _ else _) => destruct b
         end;
    first [ apply circle_shape | apply path_shape | apply line_shape
          | apply tspan_shape | apply text_shape | apply use_shape
          | repeat ret_step; shape_done ].
Qed.

End Shape.

(** ** Saves and restores of [draw] *)

Section Rendering.
Variable COLORS : list (string * string).
Variable current_point : list call -> float * float.
Variable text_extents : list call -> string -> extents.
Variable Tree : string -> node -> result node.
Variable str : value -> string.

Local Abbreviation render := (draw COLORS current_point text_extents Tree str).
Local Abbreviation handle :=
  (dispatch COLORS current_point text_extents Tree str).

Lemma use_grows dr n : (forall t, grows (dr t)) -> grows (use Tree dr n).
Proof.
  intros Hd. unfold use.
  repeat first
    [ apply Hd
    | apply grows_bind; [|intros]
    | match goal with |- grows (match ?x with _ => _ end) => destruct x end
    | apply invariant_grows; handler_quiet
    | progress cbv zeta ].
Qed.

Lemma dispatch_grows dr fuel n :
  (forall t, grows (dr t)) -> grows (handle dr fuel n).
Proof.
  intros Hd. unfold dispatch.
  repeat match goal with
         | |- grows (if ?b then _ else _) => destruct b
         end;
    first [ apply use_grows; assumption
          | apply grows_bind;
            [apply Hd|intros; apply invariant_grows; handler_quiet]
          | apply invariant_grows; handler_quiet ].
Qed.

(** Apart from [use] and [draw], a handler issues no save and no
    restore. *)
Lemma dispatch_quiet dr fuel n :
  String.eqb (tag n) "use" = false -> String.eqb (tag n) "draw" = false ->
  invariant counts (handle dr fuel n).
Proof.
  intros Hu Hd. unfold dispatch. rewrite Hu, Hd.
  repeat match goal with
         | |- invariant _ (if ?b then _ else _) => destruct b
         end;
    handler_quiet.
Qed.

Ltac stage H IH :=
  let H1 := fresh "H1" in
  apply bind_inv in H as [(? & ? & H1 & H)|(? & ? & H1 & ?)];
  match type of H1 with
  | ?m _ = _ =>
      let G := fresh "G" in
      assert (G : grows m)
        by first [ apply dispatch_grows; exact IH
                 | apply grows_for_each; exact IH
                 | apply invariant_grows; handler_quiet ];
      apply G in H1; clear G
  end.

Ltac quiet_stage H :=
  let H1 := fresh "H1" in
  apply bind_inv in H as [(? & ? & H1 & H)|(? & _)]; [|discriminate];
  match type of H1 with
  | ?m _ = _ =>
      let G := fresh "G" in
      assert (G : invariant counts m) by handler_quiet;
      apply (counts_elim _ _ _ _ G) in H1 as []; clear G
  end.

(** However [draw] ends, it has issued at least as many saves as restores;
    when it does not return, one save at least is left without its
    restore. *)
Lemma draw_balance fuel : forall d n s r s',
  render d fuel n s = (r, s') ->
  bal s s'
  /\ (is_ok r = false -> d <> 0 ->
      restores s' + saves s < saves s' + restores s).
Proof.
  induction d as [|d IH]; intros n s r s' H.
  - injection H as <- <-. split; [apply bal_refl|congruence].
  - assert (IHg : forall t, grows (render d fuel t)).
    { intros t s0 r0 s0' E. now apply IH in E. }
    clear IH. cbn [draw] in H.
    apply bind_inv in H as [(? & s1 & H1 & H)|(? & ? & H1 & ?)];
      apply emit_run in H1 as (E & Es & Er); [|subst; discriminate].
    cbn [is_save is_restore] in Es, Er.
    do 7 (stage H IHg; [|unfold bal in *; split; [lia|intros; lia]]).
    unfold bal in *.
    destruct (root _).
    + injection H as <- <-. split; [lia|discriminate].
    + apply emit_run in H as (-> & Es' & Er'). cbn [is_save is_restore] in *.
      split; [lia|discriminate].
Qed.

(** When [draw] returns, it has issued one save for each node and one
    restore for each node that is not a root. *)
Lemma draw_counts fuel : forall d n s s',
  plain n = true ->
  render d fuel n s = (Ok tt, s') ->
  saves s' = saves s + count_nodes n
  /\ restores s' = restores s + count_nonroot n.
Proof.
  induction d as [|d IH]; intros n s s' Hp H; [discriminate|].
  cbn [draw] in H.
  rewrite plain_eq in Hp. apply andb_prop in Hp as [Hp Hk].
  apply andb_prop in Hp as [Hu Hd].
  apply negb_true_iff in Hu, Hd.
  ok_stage H E0. apply emit_run in E0 as (_ & Es & Er).
  cbn [is_save is_restore] in Es, Er.
  quiet_stage H.
  quiet_stage H.
  quiet_stage H.
  quiet_stage H.
  ok_stage H E1.
  pose proof (dispatch_shape _ _ _ _ _ _ _ _ _ _ _ E1) as Hs.
  apply (counts_elim _ _ _ _ (dispatch_quiet _ _ _ Hu Hd)) in E1 as [].
  injection Hs as Hc Hr.
  quiet_stage H.
  ok_stage H E2.
  rewrite Hc in E2.
  match type of E2 with _ = (Ok ?u, _) => destruct u end.
  apply (for_each_counts _ IH) in E2 as []; [|assumption].
  rewrite count_nodes_eq, count_nonroot_eq. rewrite Hr in H.
  destruct (root n).
  - injection H as <-. lia.
  - apply emit_run in H as (_ & Es' & Er'). cbn [is_save is_restore] in *. lia.
Qed.

(** [draw] is what it does to the node, then the draws of the children,
    then the restore. *)
Lemma draw_unfold d fuel n s :
  render (S d) fuel n s
  = (n' <- draw_node COLORS (handle (render d fuel) fuel) n ;;
     for_each (render d fuel) (children n') ;;
     if root n' then ret tt else emit Restore) s.
Proof.
  cbn [draw]. unfold draw_node, before_handler. symmetry.
  repeat first [ rewrite bind_assoc | rewrite bind_ret
               | apply bind_ext; intros | reflexivity ].
Qed.

Lemma draw_node_shape dr fuel n :
  returns (fun n' => shape n' = shape n) (draw_node COLORS (handle dr fuel) n).
Proof.
  unfold draw_node. apply returns_bind. intros _.
  apply (returns_bind_with (fun n' => shape n' = shape n));
    [apply dispatch_shape|].
  intros n' Hs. apply returns_bind. intros _. now apply returns_ret.
Qed.

(** The restore of a node that is not a root is the last call of its
    draw. *)
Lemma draw_ends_with_restore d fuel n s s' :
  render d fuel n s = (Ok tt, s') ->
  root n = false ->
  exists l, context s' = (l ++ [Restore])%list.
Proof.
  destruct d as [|d]; [discriminate|]. intros H Hr.
  rewrite draw_unfold in H.
  ok_stage H E1. apply draw_node_shape in E1. injection E1 as _ Hr'.
  ok_stage H E2. rewrite Hr', Hr in H. injection H as <-.
  eexists. reflexivity.
Qed.

(** C1 (amended): when the draw of a node tree without [use] references
    returns, it has issued one save for every node, the root included, and
    one restore for every node that is not a root, the restore of a node
    being the last call of its draw; however a draw ends, it
    has issued no more restores than saves, and when it ends in an error
    (raised by a handler or by the draw of a child) at least one save is
    left without a restore: no restore is issued on that path. *)
Theorem draw_save_restore :
  (forall d fuel n s s',
      plain n = true ->
      render d fuel n s = (Ok tt, s') ->
      saves s' = saves s + count_nodes n
      /\ restores s' = restores s + count_nonroot n)
  /\ (forall d fuel n s s',
         render d fuel n s = (Ok tt, s') ->
         root n = false ->
         exists l, context s' = (l ++ [Restore])%list)
  /\ (forall d fuel n s r s',
         render d fuel n s = (r, s') ->
         restores s' + saves s <= saves s' + restores s
         /\ (is_ok r = false -> d <> 0 ->
             restores s' + saves s < saves s' + restores s)).
Proof.
  split; [|split].
  - intros d fuel. apply draw_counts.
  - exact draw_ends_with_restore.
  - intros d fuel n s r s' H. apply draw_balance in H as [(_ & _ & B) S].
    split; assumption.
Qed.

End Rendering.

(** C1, as the specification states it, fails twice: the root node is
    saved and never restored, although it is no non-root node, and a node
    whose handler raises keeps its save without a restore. *)
Lemma draw_leaves_saves_open :
  demo_draw 1 0 (Node "svg" [] [] None true) fresh
  = (Ok tt,
     Surface [Save; MoveTo 0 0; SetLineWidth 0; SetSourceRgba 0 0 0 0;
              StrokePreserve; SetSourceRgba 0 0 0 0; Fill] None)
  /\ count_nonroot (Node "svg" [] [] None true) = 0
  /\ demo_draw 1 1 (path_node "A") fresh
     = (Raise NotImplementedError, Surface [Save; MoveTo 0 0] None).
Proof. repeat split. Qed.

Lemma draw_save_restore_witness :
  saves (snd (demo_draw 2 3
                (Node "svg" [] [Node "circle" [("r", "4")] [] None false;
                                path_node "M0 0 L1 1"] None true)
                fresh))
  = saves fresh + 3
  /\ restores (snd (demo_draw 2 3
                      (Node "svg" [] [Node "circle" [("r", "4")] [] None false;
                                      path_node "M0 0 L1 1"] None true)
                      fresh))
     = restores fresh + 2.
Proof.
  apply (proj1 (draw_save_restore [] origin no_extents no_tree no_str) 2 3
           (Node "svg" [] [Node "circle" [("r", "4")] [] None false;
                           path_node "M0 0 L1 1"] None true)).
  - reflexivity.
  - vm_compute. reflexivity.
Defined.

(** ** Path commands *)

Lemma lower_z l :
  String.eqb (Str.lower l) "z" = String.eqb l "z" || String.eqb l "Z".
Proof.
  destruct l as [|a [|b r]].
  - reflexivity.
  - destruct a as [[] [] [] [] [] [] [] []]; reflexivity.
  - cbn [Str.lower Str.map String.eqb].
    now destruct (Ascii.eqb _ "z"), (Ascii.eqb a "z"), (Ascii.eqb a "Z").
Qed.

Lemma contains_char c s : Str.contains (Str.char c) s = Str.mem_char c s.
Proof.
  unfold Str.char. induction s as [|d s IH]; [reflexivity|].
  cbn [Str.contains Str.mem_char]. now rewrite prefix_cons, prefix_nil, andb_true_r, IH.
Qed.

Lemma contains_cs l :
  Str.contains (Str.char l) "cs" = Ascii.eqb l "c" || Ascii.eqb l "s".
Proof.
  unfold Str.char. cbn [Str.contains]. rewrite !prefix_cons, !prefix_nil.
  cbn. now rewrite !andb_true_r, orb_false_r.
Qed.

(** Evaluation of a closed run on any surface: the calls are appended one
    by one, which is the list appended at once. *)
Ltac run :=
  match goal with
  | |- context [?s] =>
      match type of s with
      | surface => is_var s; destruct s as [?ctx ?cur]
      end
  end;
  vm_compute; do 2 f_equal;
  try match goal with
      | ctx : list call |- _ =>
          induction ctx as [|? ? ?IH]; [reflexivity|now rewrite IH]
      end.

Section Paths.
Variable COLORS : list (string * string).
Variable current_point : list call -> float * float.
Variable text_extents : list call -> string -> extents.
Variable Tree : string -> node -> result node.
Variable str : value -> string.

Local Abbreviation render := (draw COLORS current_point text_extents Tree str).
Local Abbreviation handle :=
  (dispatch COLORS current_point text_extents Tree str).

Lemma unsupported_command v letter coords s :
  handled letter = false ->
  path_command current_point v letter coords s = (Raise NotImplementedError, s).
Proof.
  unfold handled. cbn [existsb]. intros H.
  repeat match type of H with
         | _ || _ = false => apply orb_false_elim in H as [? H]
         end.
  unfold path_command. rewrite lower_z.
  repeat match goal with
         | E : String.eqb letter ?x = false |- _ => rewrite E; clear E
         end.
  reflexivity.
Qed.

(** A step of the loop whose text starts with a letter outside the handled
    set raises. *)
Lemma unsupported_step v c more s :
  Str.strip (rest v) = String c (" " ++ more) ->
  Str.mem_char c ASCII_LETTERS = true ->
  handled (Str.char c) = false ->
  path_step current_point v s = (Raise NotImplementedError, s).
Proof.
  intros Hs Hc Hh. unfold path_step. rewrite Hs.
  assert (Hsp : Str.split " " (Some 1) (String c (" " ++ more))
                = [Str.char c; more]).
  { unfold Str.split.
    change (String c (" " ++ more)) with (Str.char c ++ String " " more).
    rewrite split_from_token; [now rewrite split_from_last| |discriminate].
    unfold Str.char. cbn [Str.mem_char]. rewrite orb_false_r.
    destruct (Ascii.eqb " " c) eqn:E; [|reflexivity].
    apply Ascii.eqb_eq in E. subst c. discriminate. }
  unfold split2. rewrite Hsp. cbn [hd].
  rewrite contains_char, Hc.
  unfold bind at 1. cbn [lift].
  unfold bind. now rewrite unsupported_command.
Qed.

Lemma dispatch_path dr fuel n s :
  tag n = "path" -> handle dr fuel n s = path current_point fuel n s.
Proof. intros E. unfold dispatch. rewrite E. reflexivity. Qed.

Lemma handler_error d fuel n s s1 e s2 :
  before_handler n s = (Ok tt, s1) ->
  handle (render d fuel) fuel n s1 = (Raise e, s2) ->
  render (S d) fuel n s = (Raise e, s2).
Proof.
  intros H1 H2. rewrite draw_unfold. apply bind_raise.
  unfold draw_node. rewrite (bind_ok _ _ _ _ _ H1). now apply bind_raise.
Qed.

Lemma child_error d fuel n s n' s1 l1 c l2 s2 e s3 :
  draw_node COLORS (handle (render d fuel) fuel) n s = (Ok n', s1) ->
  children n' = (l1 ++ c :: l2)%list ->
  for_each (render d fuel) l1 s1 = (Ok tt, s2) ->
  render d fuel c s2 = (Raise e, s3) ->
  render (S d) fuel n s = (Raise e, s3).
Proof.
  intros H1 Hc H2 H3. rewrite draw_unfold, (bind_ok _ _ _ _ _ H1), Hc.
  apply bind_raise. eapply for_each_raise; eassumption.
Qed.

(** C5 (amended): whenever the path interpreter dispatches on a command
    letter outside the handled set, which it does when the text left to
    read starts with such a letter, it raises [NotImplementedError] and
    draws nothing for it, as for the path data ["A"]; an error raised by
    the path handler of a node, or by the draw of one of its children, is
    raised by the draw of the node itself, so it leaves the draw of the
    whole document. *)
Theorem unsupported_path_command :
  (forall v letter coords s,
      handled letter = false ->
      path_command current_point v letter coords s
      = (Raise NotImplementedError, s))
  /\ (forall v c more s,
         Str.strip (rest v) = String c (" " ++ more) ->
         Str.mem_char c ASCII_LETTERS = true ->
         handled (Str.char c) = false ->
         path_step current_point v s = (Raise NotImplementedError, s))
  /\ (forall fuel s,
         path current_point (S fuel) (path_node "A") s
         = (Raise NotImplementedError, s))
  /\ (forall d fuel n s s1 e s2,
         tag n = "path" ->
         before_handler n s = (Ok tt, s1) ->
         path current_point fuel n s1 = (Raise e, s2) ->
         render (S d) fuel n s = (Raise e, s2))
  /\ (forall d fuel n s n' s1 l1 c l2 s2 e s3,
         draw_node COLORS (handle (render d fuel) fuel) n s = (Ok n', s1) ->
         children n' = (l1 ++ c :: l2)%list ->
         for_each (render d fuel) l1 s1 = (Ok tt, s2) ->
         render d fuel c s2 = (Raise e, s3) ->
         render (S d) fuel n s = (Raise e, s3)).
Proof.
  split; [exact unsupported_command|].
  split; [exact unsupported_step|].
  split; [intros fuel [ctx cur]; vm_compute; reflexivity|].
  split; [|exact child_error].
  intros d fuel n s s1 e s2 Ht H1 H2.
  apply (handler_error _ _ _ _ _ _ _ H1). now rewrite dispatch_path.
Qed.

(** The first control point of a relative smooth curve, for every previous
    command letter: the last point of the previous curve minus its second
    control point after [c] or [s], and [(0, 0)] after another letter. *)
Lemma smooth_relative_control v (coords : string) (l : ascii) s r s' :
  last_letter v = Some (Str.char l) ->
  path_command current_point v "s" coords s = (Ok r, s') ->
  exists x1 y1 a2 b2 a3 b3,
    context s' = (context s ++ [RelCurveTo x1 y1 a2 b2 a3 b3])%list
    /\ if Ascii.eqb l "c" || Ascii.eqb l "s"
       then exists p2x p2y p3x p3y dx dy,
           x2 v = Some p2x /\ y2 v = Some p2y
           /\ x3 v = Some p3x /\ y3 v = Some p3y
           /\ Py.sub p3x p2x = Ok dx /\ Py.to_float dx = Ok x1
           /\ Py.sub p3y p2y = Ok dy /\ Py.to_float dy = Ok y1
       else x1 = 0%float /\ y1 = 0%float.
Proof.
  intros Hl H. unfold path_command in H.
  cbn [String.eqb Ascii.eqb Bool.eqb] in H.
  rewrite Hl in H. unfold last_in in H. rewrite contains_cs in H.
  ok_stage H E1. apply lift_inv in E1 as [E1 ->].
  ok_stage H E2. apply lift_inv in E2 as [E2 ->].
  ok_stage H E3. apply lift_inv in E3 as [E3 ->].
  repeat match type of H with
         | (let (_, _) := ?p in _) _ = _ => destruct p
         end.
  ok_stage H E4. apply lift_inv in E4 as [E4 ->].
  repeat match type of H with
         | (let (_, _) := ?p in _) _ = _ => destruct p
         end.
  ok_stage H F. injection H as <- <-. unfold call6 in F.
  ok_stage F F1. apply lift_inv in F1 as [F1 ->].
  ok_stage F F2. apply lift_inv in F2 as [F2 ->].
  ok_stage F F3. apply lift_inv in F3 as [F3 ->].
  ok_stage F F4. apply lift_inv in F4 as [F4 ->].
  ok_stage F F5. apply lift_inv in F5 as [F5 ->].
  ok_stage F F6. apply lift_inv in F6 as [F6 ->].
  injection F as _ <-. cbn [context].
  do 6 eexists. split; [reflexivity|].
  cbn [rbind] in E1, E2.
  destruct (Ascii.eqb l "c" || Ascii.eqb l "s").
  - destruct (x3 v) as [p3x|]; [|discriminate].
    destruct (x2 v) as [p2x|]; [|discriminate].
    destruct (y3 v) as [p3y|]; [|discriminate].
    destruct (y2 v) as [p2y|]; [|discriminate].
    cbn [bound rbind] in E1, E2.
    exists p2x, p2y, p3x, p3y. do 2 eexists. repeat split; eassumption.
  - injection E1 as <-. injection E2 as <-. cbn in F1, F2.
    injection F1 as <-. injection F2 as <-. split; reflexivity.
Qed.

(** The example of the specification: the smooth curve after the relative
    curve has [(3 - 2, 3 - 2)] as its first control point. *)
Lemma smooth_curve_example fuel s :
  path current_point (4 + fuel) (path_node "M0 0 c1 1 2 2 3 3 s 4 4 5 5") s
  = (Ok (set (path_node "M0 0 c1 1 2 2 3 3 s 4 4 5 5") "stroke-width" "1"),
     issue s [MoveTo 0 0; RelCurveTo 1 1 2 2 3 3; RelCurveTo 1 1 4 4 5 5]).
Proof. destruct fuel; run. Qed.

(** C6: a relative smooth curve that is the first command of the path data
    has no previous command letter; the test [last_letter in "cs"] is then
    applied to [None] and raises [TypeError] before anything is drawn. *)
Theorem smooth_first_command_raises fuel s :
  path current_point (S fuel) (path_node "s 1 1 2 2") s = (Raise TypeError, s).
Proof. destruct s as [ctx cur]. vm_compute. reflexivity. Qed.

End Paths.

(** C5, as the specification states it, fails for a letter that the
    interpreter never dispatches on: after the sentinel [X] the rest of the
    path data is dropped, and a letter read where a coordinate is expected
    is passed to [size]. *)
Lemma sentinel_hides_arc :
  Str.contains "A" "X A" = true
  /\ handled "A" = false
  /\ path origin 2 (path_node "X A") fresh
     = (Ok (set (path_node "X A") "stroke-width" "1"), fresh)
  /\ path origin 2 (path_node "M A") fresh = (Raise TypeError, fresh).
Proof. repeat split. Qed.

Lemma unsupported_path_command_witness :
  path_command origin (PathVars "" "Z" None None None None None) "A" "X X" fresh
  = (Raise NotImplementedError, fresh).
Proof.
  apply (proj1 (unsupported_path_command [] origin no_extents no_tree no_str)).
  reflexivity.
Defined.

Example arc_error_reaches_root :
  demo_draw 3 2
    (Node "svg" [] [Node "g" [] [path_node "M0 0 A"] None false] None true)
    fresh
  = (Raise NotImplementedError,
     Surface [Save; MoveTo 0 0; SetLineWidth 0; SetSourceRgba 0 0 0 0;
              StrokePreserve; SetSourceRgba 0 0 0 0; Fill;
              Save; MoveTo 0 0; SetLineWidth 0; SetSourceRgba 0 0 0 0;
              StrokePreserve; SetSourceRgba 0 0 0 0; Fill;
              Save; MoveTo 0 0; MoveTo 0 0] None).
Proof. vm_compute. reflexivity. Qed.

Example numbers_without_command_use_up_fuel :
  fst (path origin 50 (path_node "0 0") fresh) = Diverge.
Proof. vm_compute. reflexivity. Qed.

(** ** Termination of the transform composer *)

Lemma total_lift {A} (r : result A) : r <> Diverge -> total (lift r).
Proof. intros H s. exact H. Qed.

Lemma total_ret {A} (a : A) : total (ret a).
Proof. intros s. discriminate. Qed.

Lemma total_emit c : total (emit c).
Proof. intros s. discriminate. Qed.

Lemma total_bind {A B} (m : M A) (f : A -> M B) :
  total m -> (forall a, total (f a)) -> total (bind m f).
Proof.
  intros Hm Hf s. unfold bind. specialize (Hm s).
  destruct (m s) as [[a|e|] s1]; cbn in *; [apply Hf|discriminate|congruence].
Qed.

Lemma total_for_each {A} (f : A -> M unit) l :
  (forall a, total (f a)) -> total (for_each f l).
Proof.
  intros H. induction l as [|a l IH]; cbn [for_each].
  - apply total_ret.
  - apply total_bind; auto.
Qed.

Lemma rbind_total {A B} (r : result A) (f : A -> result B) :
  r <> Diverge -> (forall a, f a <> Diverge) -> rbind r f <> Diverge.
Proof. destruct r; cbn; auto; discriminate. Qed.

Lemma py_float_total s : Num.py_float s <> Diverge.
Proof. destruct (py_float_result s) as (r & <- & H). exact H. Qed.

Lemma float_of_Z_total z : Num.float_of_Z z <> Diverge.
Proof. unfold Num.float_of_Z. destruct (PrimFloat.is_infinity _); discriminate. Qed.

Lemma to_float_total v : Py.to_float v <> Diverge.
Proof. destruct v; cbn; try discriminate. apply float_of_Z_total. Qed.

Lemma size_units_total units s : size_units units s <> Diverge.
Proof.
  induction units as [|[u v] units IH]; cbn [size_units]; [discriminate|].
  destruct (Str.contains u s); [|exact IH].
  apply rbind_total; [apply py_float_total|]. intros f. destruct v; discriminate.
Qed.

Lemma size_total o : size o <> Diverge.
Proof.
  destruct o as [[|c s]|]; cbn [size]; try discriminate.
  destruct (Str.isdigit _).
  - apply rbind_total; [apply py_float_total|discriminate].
  - apply size_units_total.
Qed.

Lemma normalize_total o : normalize o <> Diverge.
Proof.
  destruct o as [s|]; [|discriminate]. rewrite normalize_value. discriminate.
Qed.

Lemma rev_append_length r : forall s,
  String.length (Str.rev_append r s) = String.length r + String.length s.
Proof.
  induction r as [|c r IH]; intros s; cbn [Str.rev_append String.length].
  - reflexivity.
  - rewrite IH. cbn [String.length]. lia.
Qed.

(** The text left by [string.split(" ", 1)] is shorter than the text. *)
Lemma split_once_shorter sep s : forall cur a b,
  Str.split_from sep (Some 1) cur s = [a; b] ->
  String.length b < String.length s.
Proof.
  induction s as [|c s IH]; intros cur a b; cbn [Str.split_from].
  - discriminate.
  - destruct (Ascii.eqb c sep).
    + cbn [option_map Nat.pred]. rewrite split_from_last.
      intros [= _ <-]. cbn [Str.rev_append String.length]. lia.
    + intros H. apply IH in H. cbn [String.length]. lia.
Qed.

Lemma read_values_total fuel : forall t vs,
  String.length t < fuel -> read_values fuel t vs <> Diverge.
Proof.
  induction fuel as [|k IH]; intros t vs L; [lia|].
  cbn [read_values]. destruct t as [|c t']; [discriminate|].
  set (t := String c t') in *.
  unfold split2. destruct (Str.split " " (Some 1) t) as [|a [|b [|? ?]]] eqn:E;
    cbn [rbind]; try discriminate.
  apply rbind_total; [apply size_total|]. intros x.
  apply IH. apply split_once_shorter in E. lia.
Qed.

Lemma make_matrix_total vs : make_matrix vs <> Diverge.
Proof.
  unfold make_matrix. destruct (6 <? _)%nat; [discriminate|].
  repeat (apply rbind_total;
          [destruct (nth_error vs _); [apply to_float_total|discriminate]
          |intros ?]).
  discriminate.
Qed.

Lemma call2_total mk a b : total (call2 mk a b).
Proof.
  unfold call2.
  repeat (apply total_bind; [apply total_lift, to_float_total|intros ?]).
  apply total_emit.
Qed.

Lemma apply_transformation_total ttype vs : total (apply_transformation ttype vs).
Proof.
  unfold apply_transformation. destruct (String.eqb ttype "matrix").
  - apply total_bind; [apply total_lift, make_matrix_total|intros; apply total_emit].
  - cbv zeta.
    destruct (if (List.length vs =? 1)%nat then (vs ++ vs)%list else vs)
      as [|a [|b [|? ?]]];
      first [ apply call2_total | apply total_lift; discriminate ].
Qed.

Lemma transform_types_total ts : forall t, total (transform_types ts t).
Proof.
  induction ts as [|a ts IH]; intros t; cbn [transform_types].
  - apply total_ret.
  - destruct (Str.contains a t); [|apply IH].
    apply total_bind; [apply total_lift, normalize_total|intros t1].
    apply total_bind; [apply total_lift, read_values_total; lia|intros vs].
    apply total_bind; [apply apply_transformation_total|intros _; apply IH].
Qed.

(** The transform composer ends on every attribute: its loops never run out
    of the fuel they are given. *)
Lemma transform_total n : total (transform n).
Proof.
  unfold transform. destruct (get n "transform") as [t|]; [|apply total_ret].
  destruct (nonempty _); [|apply total_ret].
  apply total_for_each. intros a. apply transform_types_total.
Qed.

(** ** Transformations *)

(** C7: a [matrix] operation with six values sets the matrix of the
    context to them, whatever the matrix was; [scale] and [translate] call
    the method of their name, with a single value used for both axes, so
    that ["scale(2)"] scales an identity context by 2 on both axes; the
    operations of the attribute are applied from left to right, the first
    one before the others. *)
Theorem transform_operations :
  (forall a b c d e f s,
      apply_transformation "matrix"
        [VFloat a; VFloat b; VFloat c; VFloat d; VFloat e; VFloat f] s
      = (Ok tt, issue s [SetMatrix (Matrix a b c d e f)]))
  /\ (forall ctm m, ctm_after ctm (SetMatrix m) = m)
  /\ (forall v s,
         apply_transformation "scale" [VFloat v] s = (Ok tt, issue s [Scale v v])
         /\ apply_transformation "translate" [VFloat v] s
            = (Ok tt, issue s [Translate v v]))
  /\ (forall a b s,
         apply_transformation "scale" [VFloat a; VFloat b] s
         = (Ok tt, issue s [Scale a b])
         /\ apply_transformation "translate" [VFloat a; VFloat b] s
            = (Ok tt, issue s [Translate a b]))
  /\ (forall s, transform (with_transform "scale(2)") s
                = (Ok tt, issue s [Scale 2 2]))
  /\ ctm_after identity_matrix (Scale 2 2) = Matrix 2 0 0 2 0 0
  /\ (forall s,
         transform (with_transform "matrix(1,0,0,1,5,5)") s
         = (Ok tt, issue s [SetMatrix (Matrix 1 0 0 1 5 5)]))
  /\ (forall s,
         transform
           (with_transform "translate(10,20) scale(2) matrix(1,0,0,1,5,5)") s
         = (Ok tt, issue s [Translate 10 20; Scale 2 2;
                            SetMatrix (Matrix 1 0 0 1 5 5)]))
  /\ (forall first others s,
         Str.mem_char ")" first = false ->
         transform (with_transform (first ++ ")" ++ others)) s
         = bind (transform_types ["scale"; "translate"; "matrix"] first)
             (fun _ => for_each (transform_types ["scale"; "translate"; "matrix"])
                         (Str.split ")" None others)) s).
Proof.
  split; [intros; run|].
  split; [reflexivity|].
  split; [intros; split; run|].
  split; [intros; split; run|].
  split; [intros; run|].
  split; [reflexivity|].
  split; [intros; run|].
  split; [intros; run|].
  intros first others s Hf.
  unfold transform, with_transform, get.
  cbn [attrs lookup String.eqb Ascii.eqb Bool.eqb].
  assert (N : nonempty (Some (first ++ ")" ++ others)) = true)
    by (destruct first; reflexivity).
  rewrite N. unfold Str.split.
  change (")" ++ others) with (String ")" others).
  rewrite split_from_token by (assumption || discriminate).
  cbn [for_each option_map Str.rev_append]. reflexivity.
Qed.

Lemma transform_operations_witness :
  transform (with_transform ("scale(2" ++ ")" ++ " translate(1,2)")) fresh
  = bind (transform_types ["scale"; "translate"; "matrix"] "scale(2")
      (fun _ => for_each (transform_types ["scale"; "translate"; "matrix"])
                  (Str.split ")" None " translate(1,2)")) fresh.
Proof.
  apply (proj2 (proj2 (proj2 (proj2 (proj2 (proj2 (proj2 (proj2
           transform_operations)))))))).
  reflexivity.
Defined.

(** ** The text cursor *)

Section Cursor.
Variable COLORS : list (string * string).
Variable current_point : list call -> float * float.
Variable text_extents : list call -> string -> extents.
Variable Tree : string -> node -> result node.
Variable str : value -> string.

Local Abbreviation render := (draw COLORS current_point text_extents Tree str).
Local Abbreviation handle :=
  (dispatch COLORS current_point text_extents Tree str).

Lemma tspan_without_cursor n s :
  cursor_position s = None ->
  tspan COLORS current_point text_extents str n s = (Raise AttributeError, s).
Proof.
  intros H. unfold tspan, bind, get_cursor. now rewrite H.
Qed.

Lemma text_sets_cursor n :
  ensures (fun s' => cursor_position s' = Some (current_point (context s')))
    (text COLORS current_point text_extents n).
Proof.
  unfold text. cbv zeta.
  repeat match goal with
         | |- ensures _ (bind (get_current_point _) _) => fail 1
         | |- ensures _ (bind _ _) => apply ensures_bind; intros
         end.
  intros s0 n0 s1 H. unfold bind, get_current_point, set_cursor, ret in H.
  injection H as _ <-. reflexivity.
Qed.

Lemma dispatch_keeps dr fuel n :
  String.eqb (tag n) "text" = false ->
  String.eqb (tag n) "use" = false ->
  String.eqb (tag n) "draw" = false ->
  keeps_absent (handle dr fuel n).
Proof.
  intros Ht Hu Hd. unfold dispatch. rewrite Ht, Hu, Hd.
  repeat match goal with
         | |- keeps_absent (if ?b then _ else _) => destruct b
         end;
    first [ apply invariant_keeps; cursor_quiet
          | intros s r s' Hs E; rewrite tspan_without_cursor in E by assumption;
            now injection E as _ <- ].
Qed.

Lemma draw_keeps fuel : forall d n,
  no_text n = true -> keeps_absent (render d fuel n).
Proof.
  induction d as [|d IH]; intros n Hn.
  - apply invariant_keeps, invariant_raise.
  - rewrite no_text_eq in Hn.
    apply andb_prop in Hn as [Hn Hk]. apply andb_prop in Hn as [Hn Hd].
    apply andb_prop in Hn as [Ht Hu]. apply negb_true_iff in Ht, Hu, Hd.
    cbn [draw].
    do 5 (apply (keeps_bind (fun _ => True));
          [apply invariant_keeps; cursor_quiet|apply returns_any|intros ? _]).
    apply (keeps_bind (fun n' => shape n' = shape n));
      [now apply dispatch_keeps|apply dispatch_shape|intros n' Hs].
    injection Hs as Hc Hr.
    apply (keeps_bind (fun _ => True));
      [apply invariant_keeps; cursor_quiet|apply returns_any|intros ? _].
    apply (keeps_bind (fun _ => True)); [|apply returns_any|intros ? _].
    + apply keeps_for_each. intros c Hin. apply IH.
      rewrite Hc in Hin. rewrite forallb_forall in Hk. now apply Hk.
    + apply invariant_keeps. destruct (root n'); cursor_quiet.
Qed.

(** C10: on a surface whose cursor has never been set, the [tspan] handler
    raises [AttributeError] for every node, also in the draw of a [tspan]
    with [x] and [y] attributes; when the [text] handler returns, the
    cursor is the current point of the context; and the draw of a tree
    without [text] nodes (and without [use] references) leaves the cursor
    unset. *)
Theorem text_cursor :
  (forall n s,
      cursor_position s = None ->
      tspan COLORS current_point text_extents str n s
      = (Raise AttributeError, s))
  /\ (forall d fuel s,
         cursor_position s = None ->
         render (S d) fuel (Node "tspan" [("x", "1"); ("y", "2")] [] None false) s
         = (Raise AttributeError, issue s [Save; MoveTo 1 2]))
  /\ (forall n s n' s',
         text COLORS current_point text_extents n s = (Ok n', s') ->
         cursor_position s' = Some (current_point (context s')))
  /\ (forall d fuel n s r s',
         no_text n = true ->
         cursor_position s = None ->
         render d fuel n s = (r, s') ->
         cursor_position s' = None).
Proof.
  split; [exact tspan_without_cursor|].
  split; [intros d fuel [ctx cur] H; cbn in H; subst cur; vm_compute;
          do 2 f_equal;
          induction ctx as [|? ? IH]; [reflexivity|now rewrite IH]|].
  split; [intros n s n' s' H; exact (text_sets_cursor n s n' s' H)|].
  intros d fuel n s r s' Hn Hs H. exact (draw_keeps fuel d n Hn s r s' Hs H).
Qed.

End Cursor.

Lemma text_cursor_witness :
  tspan [] origin no_extents no_str
    (Node "tspan" [("x", "1"); ("y", "2")] [] None false) fresh
  = (Raise AttributeError, fresh).
Proof.
  apply (proj1 (text_cursor [] origin no_extents no_tree no_str)).
  reflexivity.
Defined.

Example text_sets_the_cursor :
  demo_draw 1 0 (Node "text" [("x", "5")] [] (Some "hi") false) fresh
  = (Ok tt,
     Surface [Save; MoveTo 5 0;
              SelectFontFace "Sans" SlantNormal WeightNormal; SetFontSize 12;
              MoveTo 5 0; SetSourceRgba 0 0 0 1; ShowText "hi"; MoveTo 5 0;
              TextPath "hi"; SetLineWidth 0; SetSourceRgba 0 0 0 0;
              StrokePreserve; SetSourceRgba 0 0 0 0; Fill; Restore]
       (Some (0%float, 0%float))).
Proof. vm_compute. reflexivity. Qed.

(** * Further properties *)

(** ** Outcomes of [size] *)
Lemma py_float_raises s e : Num.py_float s = Raise e -> e = ValueError.
Proof.
  unfold Num.py_float.
  repeat match goal with
         | |- context [match ?x with _ => _ end] => destruct x
         end; congruence.
Qed.

Lemma size_units_outcomes units s :
  match size_units units s with
  | Ok (VInt _) => False
  | Ok (VFloat _) => True
  | Ok VNone => forall u v, In (u, v) units -> Str.contains u s = false
  | Raise e => e = ValueError \/ e = TypeError
  | Diverge => False
  end.
Proof.
  induction units as [|[u v] units IH]; cbn [size_units].
  - intros u v [].
  - destruct (Str.contains u s) eqn:C.
    + destruct (Num.py_float _) as [f|e|] eqn:E; cbn [rbind].
      * destruct v; cbn; auto.
      * left. now apply py_float_raises in E.
      * now apply py_float_total in E.
    + destruct (size_units units s) as [[|z|f]|e|]; auto.
      intros u' v' [[= <- <-]|H]; eauto.
Qed.

(** X1: [size] returns the integer [0] for an absent or empty text and for
    no other; for another text it returns a [float], or [None] when the
    text is no plain numeral and holds none of the unit names, or raises
    [ValueError] or [TypeError]; it raises nothing else. *)
Theorem size_outcomes (o : option string) :
  match size o with
  | Ok (VInt z) => z = 0%Z /\ nonempty o = false
  | Ok (VFloat _) => nonempty o = true
  | Ok VNone =>
      exists s, o = Some s
        /\ Str.isdigit (Str.lstrip_chars " -" (Str.replace1 "." "" s)) = false
        /\ forall u v, In (u, v) UNITS -> Str.contains u s = false
  | Raise e => nonempty o = true /\ (e = ValueError \/ e = TypeError)
  | Diverge => False
  end.
Proof.
  destruct o as [[|c s]|]; cbn [size]; auto.
  set (t := String c s).
  destruct (Str.isdigit _) eqn:D.
  - destruct (Num.py_float t) as [f|e|] eqn:E; cbn [rbind]; auto.
    + split; [reflexivity|]. left. now apply py_float_raises in E.
    + now apply py_float_total in E.
  - pose proof (size_units_outcomes UNITS t) as H.
    destruct (size_units UNITS t) as [[|z|f]|e|]; auto; [|contradiction].
    exists t. auto.
Qed.

Lemma all_chars_mem p a s :
  Str.all_chars p s = true -> p a = false -> Str.mem_char a s = false.
Proof.
  induction s as [|c s IH]; [reflexivity|]. cbn [Str.all_chars Str.mem_char].
  intros H Ha. apply andb_prop in H as [Hc Hs].
  rewrite IH by assumption. rewrite orb_false_r.
  destruct (Ascii.eqb a c) eqn:E; [|reflexivity].
  apply Ascii.eqb_eq in E. congruence.
Qed.

Lemma all_chars_impl (p q : ascii -> bool) s :
  (forall c, p c = true -> q c = true) ->
  Str.all_chars p s = true -> Str.all_chars q s = true.
Proof.
  intros H. induction s as [|c s IH]; [reflexivity|]. cbn [Str.all_chars].
  intros E. apply andb_prop in E as [E1 E2]. now rewrite H, IH.
Qed.

Lemma mem_all_chars p c s :
  Str.mem_char c s = true -> p c = false -> Str.all_chars p s = false.
Proof.
  induction s as [|a s IH]; [discriminate|]. cbn [Str.all_chars Str.mem_char].
  intros H Hc. destruct (Ascii.eqb c a) eqn:E.
  - apply Ascii.eqb_eq in E. subst a. now rewrite Hc.
  - rewrite IH by assumption. apply andb_false_r.
Qed.

Lemma mem_char_app c s t :
  Str.mem_char c (s ++ t) = Str.mem_char c s || Str.mem_char c t.
Proof.
  induction s as [|a s IH]; [reflexivity|]. cbn [append Str.mem_char].
  now rewrite IH, orb_assoc.
Qed.

Lemma mem_replace_first c s :
  c <> "."%char ->
  Str.mem_char c (Str.replace1 "." "" s) = Str.mem_char c s.
Proof.
  intros N. unfold Str.replace1.
  induction s as [|a s IH]; [reflexivity|].
  cbn [Str.replace_first]. rewrite prefix_cons, prefix_nil, andb_true_r.
  destruct (Ascii.eqb "." a) eqn:E.
  - apply Ascii.eqb_eq in E. subst a. cbn [Str.drop String.length append Str.mem_char].
    apply Ascii.eqb_neq in N. now rewrite N.
  - cbn [Str.mem_char]. now rewrite IH.
Qed.

Lemma lstrip_keeps_letter (p q : ascii -> bool) c s :
  Str.mem_char c s = true -> p c = false -> q c = false ->
  Str.all_chars p (Str.lstrip_by q s) = false.
Proof.
  intros H Hp Hq. induction s as [|a s IH]; [discriminate|].
  cbn [Str.lstrip_by]. destruct (q a) eqn:Q.
  - apply IH. cbn [Str.mem_char] in H.
    destruct (Ascii.eqb c a) eqn:E; [|exact H].
    apply Ascii.eqb_eq in E. congruence.
  - now apply (mem_all_chars p c).
Qed.

Lemma isdigit_all s : Str.all_chars Str.isdigit_char s = false -> Str.isdigit s = false.
Proof. destruct s; [reflexivity|auto]. Qed.

(** A text that holds a character that is no digit, no space and no minus
    sign is no plain numeral for [size]. *)
Lemma size_not_plain c s :
  Str.mem_char c s = true -> Str.isdigit_char c = false ->
  Str.mem_char c " -" = false -> c <> "."%char ->
  size (Some s) = size_units UNITS s.
Proof.
  intros H D Q N. destruct s as [|a s']; [discriminate|]. cbn [size].
  rewrite isdigit_all; [reflexivity|].
  apply (lstrip_keeps_letter _ _ c); try assumption.
  now rewrite mem_replace_first.
Qed.

Lemma contains_after a r d t :
  Str.mem_char a d = false ->
  Str.contains (String a r) (d ++ t) = Str.contains (String a r) t.
Proof.
  induction d as [|c d IH]; [reflexivity|]. cbn [Str.mem_char append].
  intros H. apply orb_false_elim in H as [H1 H2].
  cbn [Str.contains]. rewrite prefix_cons, H1, IH by assumption. reflexivity.
Qed.

Lemma rstrip_all q u : Str.all_chars q u = true -> Str.rstrip_by q u = "".
Proof.
  induction u as [|c u IH]; [reflexivity|]. cbn [Str.all_chars Str.rstrip_by].
  intros H. apply andb_prop in H as [H1 H2]. now rewrite IH, H1.
Qed.

Lemma rstrip_suffix q d u :
  Str.all_chars (fun c => negb (q c)) d = true -> Str.all_chars q u = true ->
  Str.rstrip_by q (d ++ u) = d.
Proof.
  intros Hd Hu. induction d as [|c d IH]; cbn [append].
  - now apply rstrip_all.
  - cbn [Str.all_chars] in Hd. apply andb_prop in Hd as [Hc Hd].
    cbn [Str.rstrip_by]. rewrite IH by assumption.
    apply negb_true_iff in Hc. rewrite Hc. now destruct d.
Qed.

Lemma lstrip_all q u : Str.all_chars q u = true -> Str.lstrip_by q u = "".
Proof.
  induction u as [|c u IH]; [reflexivity|]. cbn [Str.all_chars Str.lstrip_by].
  intros H. apply andb_prop in H as [H1 H2]. now rewrite H1, IH.
Qed.

Lemma strip_suffix q d u :
  Str.all_chars (fun c => negb (q c)) d = true -> Str.all_chars q u = true ->
  Str.strip_by q (d ++ u) = d.
Proof.
  intros Hd Hu. unfold Str.strip_by. destruct d as [|c d].
  - cbn [append]. now rewrite lstrip_all.
  - assert (Hc : q c = false).
    { cbn [Str.all_chars] in Hd. apply andb_prop in Hd as [Hc _].
      now apply negb_true_iff in Hc. }
    cbn [append Str.lstrip_by]. rewrite Hc.
    now apply (rstrip_suffix q (String c d)).
Qed.

Lemma numeral_char_cases c :
  numeral_char c = true ->
  Str.mem_char c " abcdefghijklmnopqrstuvwxyzABCDEFGHIJKLMNOPQRSTUVWXYZ%," = false.
Proof.
  destruct c as [[] [] [] [] [] [] [] []]; try reflexivity; discriminate.
Qed.

Lemma mem_char_sub c s t :
  (forall a, Str.mem_char a s = true -> Str.mem_char a t = true) ->
  Str.mem_char c t = false -> Str.mem_char c s = false.
Proof.
  intros H Ht. destruct (Str.mem_char c s) eqn:E; [|reflexivity].
  apply H in E. congruence.
Qed.

Ltac letter_free Hd :=
  match goal with
  | |- Str.mem_char ?a _ = false =>
      apply (all_chars_mem numeral_char); [exact Hd|reflexivity]
  end.

(** X2: for every text made of numeral characters (digits, [.], [-], [+])
    followed by one of the six units with a factor, [size] is the [float]
    of the numeral times the factor of the unit, and raises what [float]
    raises on the numeral. *)
Theorem size_absolute_unit d u k :
  In (u, Factor k) UNITS ->
  Str.all_chars numeral_char d = true ->
  size (Some (d ++ u))
  = (f <- Num.py_float d ;; Ok (VFloat (f * k)%float))%res.
Proof.
  intros Hu Hd.
  assert (Hq : forall chars,
             (forall a, Str.mem_char a chars = true ->
                        Str.mem_char a " abcdefghijklmnopqrstuvwxyzABCDEFGHIJKLMNOPQRSTUVWXYZ%," = true) ->
             Str.all_chars (fun c => negb (Str.mem_char c chars)) d = true).
  { intros chars Hc. apply (all_chars_impl numeral_char); [|exact Hd].
    intros c Hn. apply negb_true_iff. apply (mem_char_sub c chars _ Hc).
    now apply numeral_char_cases. }
  unfold UNITS in Hu. cbn [In] in Hu.
  repeat match type of Hu with
         | _ \/ _ => destruct Hu as [Hu|Hu]
         end; try discriminate; try contradiction;
    injection Hu as <- <-.
  all: match goal with
       | |- size (Some (_ ++ String ?a ?r)) = _ =>
           rewrite (size_not_plain a);
           [|rewrite mem_char_app; cbn [Str.mem_char]; rewrite Ascii.eqb_refl;
             cbn; apply orb_true_r
            |reflexivity|reflexivity|discriminate]
       end.
  all: unfold UNITS; cbn [size_units].
  all: repeat (rewrite contains_after by letter_free Hd).
  all: cbn [Str.contains prefix]; cbn.
  all: unfold Str.strip_chars.
  all: rewrite strip_suffix;
    [reflexivity
    |apply Hq; intros a; destruct a as [[] [] [] [] [] [] [] []];
     cbn; congruence
    |reflexivity].
Qed.

Lemma size_absolute_unit_witness :
  size (Some ("12.5" ++ "pt"))
  = (f <- Num.py_float "12.5" ;; Ok (VFloat (f * (DPI / 72))%float))%res.
Proof.
  apply (size_absolute_unit "12.5" "pt").
  - unfold UNITS. cbn. auto.
  - reflexivity.
Defined.

(** ** Fields of [point] *)
(** The number of fields of [s.split(sep, maxsplit)]. *)
Lemma split_from_length sep : forall s ms cur,
  List.length (Str.split_from sep ms cur s)
  = S (match ms with
       | Some k => Nat.min k (count_char sep s)
       | None => count_char sep s
       end).
Proof.
  induction s as [|c s IH]; intros ms cur; cbn [Str.split_from count_char].
  - destruct ms as [k|]; [now rewrite Nat.min_0_r|reflexivity].
  - destruct ms as [[|k]|].
    + reflexivity.
    + destruct (Ascii.eqb c sep); cbn [List.length option_map Nat.pred];
        rewrite IH; cbn; lia.
    + destruct (Ascii.eqb c sep); cbn [List.length option_map];
        rewrite IH; reflexivity.
Qed.

(** X3: on a text that is not empty and holds fewer than two space
    characters, [point] raises [ValueError]: the split gives fewer than
    three fields. *)
Theorem point_too_few_fields s :
  s <> "" -> count_char " " s < 2 -> point (Some s) = Raise ValueError.
Proof.
  intros N L. unfold point. destruct s as [|c s']; [congruence|].
  set (t := String c s') in *.
  pose proof (split_from_length " " t (Some 2) "") as E.
  fold (Str.split " " (Some 2) t) in E.
  destruct (Str.split " " (Some 2) t) as [|x [|y [|r [|? ?]]]]; try reflexivity.
  cbn [List.length] in E. lia.
Qed.

Lemma point_too_few_fields_witness : point (Some "10,20 M") = Raise ValueError.
Proof. apply point_too_few_fields; [discriminate|cbn; lia]. Defined.

(** ** [normalize] applied twice *)

Lemma guarded_separate s : forall b, guarded b (separate s) = true.
Proof.
  induction s as [|c s IH]; intros b; [reflexivity|].
  cbn [separate]. destruct (Ascii.eqb c "-") eqn:E1.
  - cbn [guarded]. cbn. apply IH.
  - destruct (Ascii.eqb c ",") eqn:E2.
    + cbn [guarded]. cbn. apply IH.
    + cbn [guarded]. rewrite E1. cbn. apply IH.
Qed.

Lemma guarded_head b b' s : head_minus s = false -> guarded b s = guarded b' s.
Proof. destruct s as [|c s]; [reflexivity|]. cbn. now intros ->. Qed.

Lemma head_space_minus s : head_space s = true -> head_minus s = false.
Proof.
  destruct s as [|c s]; [reflexivity|]. cbn. intros E.
  apply Ascii.eqb_eq in E. now subst c.
Qed.

Lemma guarded_squeeze s : forall b, guarded b s = true -> guarded b (squeeze s) = true.
Proof.
  induction s as [|c s IH]; intros b; [reflexivity|].
  rewrite squeeze_cons. destruct (Ascii.eqb c " " && head_space s) eqn:E.
  - apply andb_prop in E as [Ec Eh]. cbn [guarded]. rewrite Ec.
    apply Ascii.eqb_eq in Ec. subst c. cbn [Ascii.eqb Bool.eqb andb].
    intros H. apply IH. rewrite <- H. apply guarded_head.
    now apply head_space_minus.
  - cbn [guarded]. intros H. apply andb_prop in H as [H1 H2].
    now rewrite H1, IH.
Qed.

Lemma head_space_separate s :
  Str.mem_char "," s = false ->
  head_space (separate s) = head_space s || head_minus s.
Proof.
  destruct s as [|c s]; [reflexivity|]. cbn [separate Str.mem_char head_space head_minus].
  intros H. apply orb_false_elim in H as [H _]. rewrite Ascii.eqb_sym in H.
  destruct (Ascii.eqb c "-") eqn:E; [cbn; now rewrite orb_true_r|].
  rewrite H. cbn [head_space]. now rewrite orb_false_r.
Qed.

(** On a text without commas in which every minus sign follows a space,
    the spaces that [separate] adds are removed by [squeeze]. *)
Lemma squeeze_separate s : forall b,
  Str.mem_char "," s = false -> guarded b s = true ->
  squeeze (separate s)
  = if head_minus s then String " " (squeeze s) else squeeze s.
Proof.
  induction s as [|c s IH]; intros b Hc Hg; [reflexivity|].
  cbn [Str.mem_char] in Hc. apply orb_false_elim in Hc as [Hc Hs].
  rewrite Ascii.eqb_sym in Hc.
  cbn [guarded] in Hg. apply andb_prop in Hg as [Hb Hg].
  specialize (IH _ Hs Hg).
  cbn [separate head_minus]. rewrite Hc.
  destruct (Ascii.eqb c "-") eqn:Em.
  - apply Ascii.eqb_eq in Em. subst c.
    rewrite (squeeze_cons " "), (squeeze_cons "-"), (squeeze_cons "-").
    cbn [Ascii.eqb Bool.eqb andb head_space].
    rewrite IH. cbn [Ascii.eqb Bool.eqb] in Hg.
    destruct (head_minus s) eqn:Hm; [|reflexivity].
    (* a minus sign after a minus sign is not guarded *)
    destruct s as [|d s]; [discriminate|]. cbn in Hm.
    cbn [guarded] in Hg. rewrite Hm in Hg. discriminate.
  - rewrite (squeeze_cons c (separate s)), (squeeze_cons c s).
    rewrite head_space_separate by assumption. rewrite IH.
    destruct (Ascii.eqb c " ") eqn:Es; cbn [andb].
    + apply Ascii.eqb_eq in Es. subst c.
      destruct (head_space s) eqn:Hh; cbn [orb].
      * now rewrite (head_space_minus s Hh).
      * destruct (head_minus s); reflexivity.
    + destruct (head_minus s) eqn:Hm; [|reflexivity].
      destruct s as [|d s]; [discriminate|]. cbn in Hm.
      cbn [guarded] in Hg. rewrite Hm in Hg. discriminate.
Qed.

Lemma squeeze_idempotent s : squeeze (squeeze s) = squeeze s.
Proof.
  apply squeeze_fixed.
  apply (collapse_exit (String.length s) s).
  apply collapse_squeeze. lia.
Qed.

Lemma guarded_no_head_minus s : guarded false s = true -> head_minus s = false.
Proof.
  destruct s as [|c s]; [reflexivity|]. cbn.
  destruct (Ascii.eqb c "-"); [discriminate|reflexivity].
Qed.

(** X4: [normalize] is idempotent: a text that it returns is returned as it
    is. *)
Theorem normalize_idempotent s r :
  normalize (Some s) = Ok r -> normalize (Some r) = Ok r.
Proof.
  rewrite normalize_value. intros [= <-]. rewrite normalize_value. f_equal.
  unfold normalize_spec.
  assert (G : guarded false (squeeze (separate s)) = true)
    by apply guarded_squeeze, guarded_separate.
  rewrite (squeeze_separate _ false).
  - rewrite (guarded_no_head_minus _ G). apply squeeze_idempotent.
  - apply squeeze_mem, separate_no_comma.
  - exact G.
Qed.

Lemma normalize_idempotent_witness : normalize (Some " -1 -2 3 4") = Ok " -1 -2 3 4".
Proof. apply (normalize_idempotent "-1-2,3   4"). reflexivity. Defined.

(** ** Hexadecimal colours *)
Lemma below_forallb (p : nat -> bool) k :
  forallb p (seq 0 k) = true -> forall n, n < k -> p n = true.
Proof.
  intros H n L. rewrite forallb_forall in H. apply H. apply in_seq. lia.
Qed.

Lemma hex_byte_value n :
  n < 256 -> Num.py_int16 (hex_byte n) = Ok (Z.of_nat n).
Proof.
  revert n.
  assert (H : forallb (fun n => match Num.py_int16 (hex_byte n) with
                                | Ok z => Z.eqb z (Z.of_nat n)
                                | _ => false
                                end) (seq 0 256) = true)
    by (vm_compute; reflexivity).
  intros n L. apply (below_forallb _ _ H) in L. clear H. cbv beta in L.
  set (r := Num.py_int16 (hex_byte n)) in *. clearbody r.
  destruct r; try discriminate.
  apply Z.eqb_eq in L. now subst.
Qed.

Lemma hex_char_doubled n :
  n < 16 ->
  Num.py_int16 (String (hex_char n) (String (hex_char n) "")) = Ok (Z.of_nat (17 * n)).
Proof.
  revert n.
  assert (H : forallb (fun n => match Num.py_int16
                                        (String (hex_char n) (String (hex_char n) "")) with
                                | Ok z => Z.eqb z (Z.of_nat (17 * n))
                                | _ => false
                                end) (seq 0 16) = true)
    by (vm_compute; reflexivity).
  intros n L. apply (below_forallb _ _ H) in L. clear H. cbv beta in L.
  set (r := Num.py_int16 _) in *. clearbody r.
  destruct r; try discriminate.
  apply Z.eqb_eq in L. now subst.
Qed.

Lemma hex_char_plain n :
  Str.isspace (hex_char n) = false /\ Str.lower_char (hex_char n) = hex_char n.
Proof.
  unfold hex_char.
  do 16 (destruct n as [|n]; [split; reflexivity|]).
  destruct n; split; reflexivity.
Qed.

Lemma color_unfold COLORS s opacity :
  s <> "" -> s <> "none" ->
  color COLORS (Some s) opacity = color_digits (color_text COLORS s) opacity.
Proof.
  intros N1 N2. unfold color. destruct s as [|c s']; [congruence|].
  apply String.eqb_neq in N2. rewrite N2. reflexivity.
Qed.

Lemma over_255_value n :
  n < 256 -> over_255 n = Ok (VFloat (float_of_nat n / 255)).
Proof.
  intros L. do 256 (destruct n as [|n]; [reflexivity|]). lia.
Qed.

Lemma alpha_255_value n :
  n < 256 -> alpha_255 n = Ok (VFloat (float_of_nat n / 255)).
Proof.
  intros L. do 256 (destruct n as [|n]; [reflexivity|]). lia.
Qed.

Lemma hex_char_plain_char n : plain_char (hex_char n) = true.
Proof.
  unfold hex_char.
  do 16 (destruct n as [|n]; [reflexivity|]).
  destruct n; reflexivity.
Qed.

Lemma lstrip_plain q s :
  Str.all_chars (fun c => negb (q c)) s = true -> Str.lstrip_by q s = s.
Proof.
  destruct s as [|c s]; [reflexivity|]. cbn [Str.all_chars Str.lstrip_by].
  intros H. apply andb_prop in H as [H _]. apply negb_true_iff in H. now rewrite H.
Qed.

Lemma append_empty s : s ++ "" = s.
Proof. induction s as [|c s IH]; [reflexivity|]. cbn. now rewrite IH. Qed.

Lemma strip_plain s : Str.all_chars plain_char s = true -> Str.strip s = s.
Proof.
  intros H.
  assert (H' : Str.all_chars (fun c => negb (Str.isspace c)) s = true).
  { apply (all_chars_impl plain_char); [|exact H].
    intros c Hc. now apply andb_prop in Hc as [Hc _]. }
  unfold Str.strip, Str.strip_by. rewrite lstrip_plain by assumption.
  rewrite <- (append_empty s) at 1. now apply rstrip_suffix.
Qed.

Lemma lower_plain s : Str.all_chars plain_char s = true -> Str.lower s = s.
Proof.
  unfold Str.lower. induction s as [|c s IH]; [reflexivity|].
  cbn [Str.all_chars Str.map]. intros H. apply andb_prop in H as [H1 H2].
  apply andb_prop in H1 as [_ H1]. apply Ascii.eqb_eq in H1.
  now rewrite H1, IH.
Qed.

(** A text that [strip] and [lower] leave alone and that is no keyword is
    read as it is. *)
Lemma color_plain COLORS s opacity :
  s <> "" -> s <> "none" -> Str.all_chars plain_char s = true ->
  lookup s COLORS = None ->
  color COLORS (Some s) opacity = color_digits s opacity.
Proof.
  intros N1 N2 P HC. rewrite color_unfold by assumption.
  unfold color_text. now rewrite strip_plain, lower_plain, HC.
Qed.

(** A colour of six characters after the hash sign that [strip] and
    [lower] leave alone. *)
Lemma color_six COLORS a1 a2 a3 a4 a5 a6 opacity :
  let s := String "#" (String a1 (String a2 (String a3 (String a4
             (String a5 (String a6 "")))))) in
  Str.isspace a6 = false ->
  Str.lower_char a1 = a1 -> Str.lower_char a2 = a2 -> Str.lower_char a3 = a3 ->
  Str.lower_char a4 = a4 -> Str.lower_char a5 = a5 -> Str.lower_char a6 = a6 ->
  lookup s COLORS = None ->
  color COLORS (Some s) opacity
  = (x <- channel (String a1 (String a2 "")) ;;
     y <- channel (String a3 (String a4 "")) ;;
     z <- channel (String a5 (String a6 "")) ;;
     Ok (x, y, z, opacity))%res.
Proof.
  intros s H6 L1 L2 L3 L4 L5 L6 HC.
  assert (Hs : Str.lower (Str.strip s) = s).
  { unfold s, Str.strip, Str.strip_by.
    cbn [Str.lstrip_by Str.rstrip_by].
    change (Str.isspace "#") with false. cbv iota.
    cbn [Str.rstrip_by]. rewrite H6.
    unfold Str.lower. cbn [Str.map].
    now rewrite L1, L2, L3, L4, L5, L6. }
  rewrite color_unfold by discriminate.
  unfold color_text. rewrite Hs, HC. reflexivity.
Qed.

Lemma channel_byte n : n < 256 -> channel (hex_byte n) = over_255 n.
Proof. intros L. unfold channel. now rewrite hex_byte_value. Qed.

Lemma alpha_byte n : n < 256 -> alpha (hex_byte n) = alpha_255 n.
Proof. intros L. unfold alpha. now rewrite hex_byte_value. Qed.

Ltac plain_hex :=
  cbn [hex_color_alpha hex_color short_color_alpha short_color hex_byte append
       Str.all_chars];
  rewrite ?hex_char_plain_char; reflexivity.

(** X5: for all numbers below 256, the colour [#rrggbb] written with their
    hexadecimal digits, when it is no keyword, has the channels [r / 255.],
    [g / 255.] and [b / 255.] and the opacity it is given; for [#rrggbbaa]
    the opacity is multiplied by [a / 255]. *)
Theorem color_hex COLORS r g b a opacity :
  r < 256 -> g < 256 -> b < 256 -> a < 256 ->
  (lookup (hex_color r g b) COLORS = None ->
   color COLORS (Some (hex_color r g b)) opacity
   = Ok (VFloat (float_of_nat r / 255), VFloat (float_of_nat g / 255),
         VFloat (float_of_nat b / 255), opacity))
  /\ (lookup (hex_color_alpha r g b a) COLORS = None ->
      color COLORS (Some (hex_color_alpha r g b a)) opacity
      = (o <- Py.mul opacity (VFloat (float_of_nat a / 255)) ;;
         Ok (VFloat (float_of_nat r / 255), VFloat (float_of_nat g / 255),
             VFloat (float_of_nat b / 255), o))%res).
Proof.
  intros Hr Hg Hb Ha. split; intros HC.
  - rewrite color_plain; [|discriminate|discriminate|plain_hex|assumption].
    unfold color_digits, hex_color, hex_byte.
    cbn [append String.length Nat.eqb orb Str.slice substring Nat.sub rbind].
    fold (hex_byte r) (hex_byte g) (hex_byte b).
    rewrite !channel_byte, !over_255_value by assumption. reflexivity.
  - rewrite color_plain; [|discriminate|discriminate|plain_hex|assumption].
    unfold color_digits, hex_color_alpha, hex_color, hex_byte.
    cbn [append String.length Nat.eqb orb Str.slice substring Nat.sub].
    fold (hex_byte r) (hex_byte g) (hex_byte b) (hex_byte a).
    rewrite hex_byte_value by assumption. cbn [rbind].
    fold (alpha_255 a). rewrite alpha_255_value by assumption. cbn [rbind].
    rewrite !channel_byte, !over_255_value by assumption.
    destruct (Py.mul opacity _); reflexivity.
Qed.

Lemma color_hex_witness :
  color [("red", "#ff0000")] (Some (hex_color 255 128 0)) (VFloat 1)
  = Ok (VFloat (float_of_nat 255 / 255), VFloat (float_of_nat 128 / 255),
        VFloat (float_of_nat 0 / 255), VFloat 1).
Proof.
  apply (proj1 (color_hex [("red", "#ff0000")] 255 128 0 0 (VFloat 1)
                  ltac:(lia) ltac:(lia) ltac:(lia) ltac:(lia))).
  reflexivity.
Defined.

Lemma channel_doubled n :
  n < 16 ->
  channel (String (hex_char n) (String (hex_char n) ""))
  = Ok (VFloat (float_of_nat (17 * n) / 255)).
Proof.
  intros L. unfold channel. rewrite hex_char_doubled by assumption.
  cbn [rbind]. fold (over_255 (17 * n)). apply over_255_value. lia.
Qed.

(** X6: the short forms [#rgb] and [#rgba], when they are no keywords, are
    read with each digit doubled: the digit [d] gives the channel
    [17 * d / 255.]. *)
Theorem color_shorthand COLORS r g b a opacity :
  r < 16 -> g < 16 -> b < 16 -> a < 16 ->
  (lookup (short_color r g b) COLORS = None ->
   color COLORS (Some (short_color r g b)) opacity
   = Ok (VFloat (float_of_nat (17 * r) / 255), VFloat (float_of_nat (17 * g) / 255),
         VFloat (float_of_nat (17 * b) / 255), opacity))
  /\ (lookup (short_color_alpha r g b a) COLORS = None ->
      color COLORS (Some (short_color_alpha r g b a)) opacity
      = (o <- Py.mul opacity (VFloat (float_of_nat (17 * a) / 255)) ;;
         Ok (VFloat (float_of_nat (17 * r) / 255),
             VFloat (float_of_nat (17 * g) / 255),
             VFloat (float_of_nat (17 * b) / 255), o))%res).
Proof.
  intros Hr Hg Hb Ha. split; intros HC.
  - rewrite color_plain; [|discriminate|discriminate|plain_hex|assumption].
    unfold color_digits, short_color.
    cbn [append String.length Nat.eqb orb Str.slice substring Nat.sub rbind
         Str.drop Str.double_chars].
    rewrite !channel_doubled by assumption. reflexivity.
  - rewrite color_plain; [|discriminate|discriminate|plain_hex|assumption].
    unfold color_digits, short_color_alpha, short_color.
    cbn [append String.length Nat.eqb orb Str.slice substring Nat.sub
         Str.drop Str.double_chars].
    rewrite hex_char_doubled by assumption. cbn [rbind].
    fold (alpha_255 (17 * a)). rewrite alpha_255_value by lia. cbn [rbind].
    rewrite !channel_doubled by assumption.
    destruct (Py.mul opacity _); reflexivity.
Qed.

Lemma color_shorthand_witness :
  color [("red", "#ff0000")] (Some (short_color 15 8 0)) (VFloat 1)
  = Ok (VFloat (float_of_nat (17 * 15) / 255), VFloat (float_of_nat (17 * 8) / 255),
        VFloat (float_of_nat (17 * 0) / 255), VFloat 1).
Proof.
  apply (proj1 (color_shorthand [("red", "#ff0000")] 15 8 0 0 (VFloat 1)
                  ltac:(lia) ltac:(lia) ltac:(lia) ltac:(lia))).
  reflexivity.
Defined.

(** ** Outcomes of [color] *)

Lemma all_ascii_in c : In c all_ascii.
Proof.
  unfold all_ascii. rewrite <- (ascii_nat_embedding c). apply in_map.
  apply in_seq. pose proof (nat_ascii_bounded c). lia.
Qed.

Lemma short_strings_in s : String.length s <= 2 -> In s short_strings.
Proof.
  unfold short_strings. destruct s as [|a [|b [|c s]]]; cbn [String.length]; intros L.
  - now left.
  - right. apply in_or_app. left.
    apply (in_map (fun c => String c "")). apply all_ascii_in.
  - right. apply in_or_app. right. apply in_flat_map. exists a.
    split; [apply all_ascii_in|].
    apply (in_map (fun b => String a (String b ""))). apply all_ascii_in.
  - lia.
Qed.

Lemma substring_length n m : forall s, String.length (substring n m s) <= m.
Proof.
  revert m. induction n as [|n IHn]; intros m.
  - induction m as [|m IHm]; intros [|c s]; cbn; try lia.
    specialize (IHm s). lia.
  - intros [|c s]; cbn; [lia|apply IHn].
Qed.

(** On a text of at most two characters, [int(s, 16) / 255.] and
    [int(s, 16) / 255] are floats or raise [ValueError]: checked on each of
    these texts. *)
Lemma digits_outcomes s :
  String.length s <= 2 ->
  float_or_value_error (channel s) = true /\ float_or_value_error (alpha s) = true.
Proof.
  assert (H : forallb (fun s => float_or_value_error (channel s)
                                && float_or_value_error (alpha s))
                short_strings = true)
    by (vm_compute; reflexivity).
  intros L. rewrite forallb_forall in H. apply andb_prop. apply H.
  now apply short_strings_in.
Qed.

Lemma channel_outcomes s :
  String.length s <= 2 -> float_or_value_error (channel s) = true.
Proof. intros L. now apply digits_outcomes. Qed.

Lemma alpha_outcomes s :
  String.length s <= 2 -> float_or_value_error (alpha s) = true.
Proof. intros L. now apply digits_outcomes. Qed.

Lemma slice_short a b s : b <= a + 2 -> String.length (Str.slice a b s) <= 2.
Proof.
  intros L. unfold Str.slice. pose proof (substring_length a (b - a) s). lia.
Qed.

Lemma color_digits_outcomes s op :
  match color_digits s (VFloat op) with
  | Ok (VFloat _, VFloat _, VFloat _, VFloat _) => True
  | Raise ValueError => True
  | _ => False
  end.
Proof.
  unfold color_digits. cbv zeta.
  match goal with
  | |- context [Str.slice 7 9 ?x] => set (t := x)
  end.
  assert (Ha : match (if (String.length t =? 9)%nat
                      then (n <- Num.py_int16 (Str.slice 7 9 t) ;;
                            a <- Py.truediv (VInt n) (VInt 255) ;;
                            Py.mul (VFloat op) a)%res
                      else Ok (VFloat op)) with
               | Ok (VFloat _) => True
               | Raise ValueError => True
               | _ => False
               end).
  { destruct (String.length t =? 9)%nat; [|exact I].
    pose proof (alpha_outcomes (Str.slice 7 9 t) (slice_short 7 9 t ltac:(lia))) as H.
    unfold alpha in H.
    destruct (Num.py_int16 _) as [n|e|]; cbn [rbind] in *;
      [|destruct e; try discriminate; exact I|discriminate].
    destruct (Py.truediv _ _) as [[| |f]|e|]; cbn [rbind] in *; try discriminate;
      [exact I|destruct e; try discriminate; exact I]. }
  destruct (if (String.length t =? 9)%nat then _ else _) as [[| |o]|e|];
    try contradiction; cbn [rbind]; [|destruct e; try contradiction; exact I].
  pose proof (channel_outcomes (Str.slice 1 3 t) (slice_short 1 3 t ltac:(lia))) as H1.
  pose proof (channel_outcomes (Str.slice 3 5 t) (slice_short 3 5 t ltac:(lia))) as H2.
  pose proof (channel_outcomes (Str.slice 5 7 t) (slice_short 5 7 t ltac:(lia))) as H3.
  destruct (channel (Str.slice 1 3 t)) as [[| |r]|[]|]; try discriminate; cbn [rbind]; auto.
  destruct (channel (Str.slice 3 5 t)) as [[| |g]|[]|]; try discriminate; cbn [rbind]; auto.
  destruct (channel (Str.slice 5 7 t)) as [[| |b]|[]|]; try discriminate; cbn [rbind]; auto.
Qed.

(** X7: with a [float] opacity, [color] returns four zeros for an absent or
    empty text and for ["none"], returns four floats, or raises
    [ValueError]; it raises nothing else and the three cases are
    told apart by the text. *)
Theorem color_outcomes COLORS o op :
  match color COLORS o (VFloat op) with
  | Ok (VInt r, VInt g, VInt b, VInt a) =>
      (r = 0 /\ g = 0 /\ b = 0 /\ a = 0)%Z
      /\ (nonempty o = false \/ o = Some "none")
  | Ok (VFloat _, VFloat _, VFloat _, VFloat _) =>
      nonempty o = true /\ o <> Some "none"
  | Raise e => e = ValueError /\ nonempty o = true /\ o <> Some "none"
  | _ => False
  end.
Proof.
  destruct o as [s|]; [|cbn; auto].
  destruct (string_dec s "") as [->|N1]; [cbn; auto|].
  destruct (string_dec s "none") as [->|N2]; [cbn; auto|].
  rewrite color_unfold by assumption.
  pose proof (color_digits_outcomes (color_text COLORS s) op) as H.
  assert (Hn : nonempty (Some s) = true) by (destruct s; [congruence|reflexivity]).
  assert (Hs : Some s <> Some "none") by congruence.
  destruct (color_digits _ _) as [[[[[| |r] [| |g]] [| |b]] [| |a]]|[]|];
    try contradiction; auto.
Qed.

(** X8: when the text whose digits are read (the value of the keyword, or
    the text stripped and in lower case) has at most three characters,
    [color] raises [ValueError]. *)
Theorem color_too_short COLORS s opacity :
  s <> "" -> s <> "none" ->
  String.length (color_text COLORS s) <= 3 ->
  color COLORS (Some s) (VFloat opacity) = Raise ValueError.
Proof.
  intros N1 N2 L. rewrite color_unfold by assumption.
  set (t := color_text COLORS s) in *.
  pose proof (channel_outcomes (Str.slice 1 3 t) (slice_short 1 3 t ltac:(lia))) as H1.
  unfold color_digits.
  destruct t as [|c1 [|c2 [|c3 [|c4 t]]]]; cbn [String.length] in L; try lia;
    cbn [String.length Nat.eqb orb Str.slice substring Nat.sub rbind] in *;
    try reflexivity;
    destruct (channel (String _ _)) as [[| |r]|[]|]; try discriminate; reflexivity.
Qed.

Lemma color_too_short_witness :
  color [("red", "#ff0000")] (Some " #ff ") (VFloat 1) = Raise ValueError.
Proof.
  apply color_too_short; [discriminate|discriminate|vm_compute; lia].
Defined.

(** X9: ["none"] is recognized before the text is stripped and put in lower
    case: another spelling of it, as ["None"] or [" none"], is read as
    hexadecimal digits and raises [ValueError], unless ["none"] is a
    keyword. *)
Theorem color_none_spelling COLORS s opacity :
  s <> "none" -> Str.lower (Str.strip s) = "none" ->
  lookup "none" COLORS = None ->
  color COLORS (Some s) opacity = Raise ValueError.
Proof.
  intros N E HC. rewrite color_unfold; [|intros ->; discriminate|assumption].
  unfold color_text. rewrite E, HC. reflexivity.
Qed.

Lemma color_none_spelling_witness :
  color [("red", "#ff0000")] (Some " None") (VFloat 1) = Raise ValueError.
Proof. apply color_none_spelling; [discriminate|reflexivity|reflexivity]. Defined.

(** ** Operations that [transform] ignores *)
Lemma prefix_app sub s : prefix sub s = true <-> exists b, s = sub ++ b.
Proof.
  revert s. induction sub as [|a sub IH]; intros s.
  - rewrite prefix_nil. split; [intros _; now exists s|reflexivity].
  - destruct s as [|c s].
    + split; [discriminate|intros [b E]; discriminate].
    + rewrite prefix_cons. split.
      * intros H. apply andb_prop in H as [H1 H2].
        apply Ascii.eqb_eq in H1. subst c.
        apply IH in H2 as [b ->]. now exists b.
      * intros [b E]. cbn [append] in E. injection E as -> ->.
        rewrite Ascii.eqb_refl. apply IH. now exists b.
Qed.

Lemma contains_app sub s :
  Str.contains sub s = true <-> exists a b, s = a ++ sub ++ b.
Proof.
  induction s as [|c s IH].
  - cbn [Str.contains]. rewrite prefix_app. split.
    + intros [b E]. now exists "", b.
    + intros (a & b & E). destruct a; [now exists b|discriminate].
  - cbn [Str.contains]. rewrite orb_true_iff, prefix_app, IH. split.
    + intros [[b E]|(a & b & E)].
      * now exists "", b.
      * exists (String c a), b. cbn [append]. now rewrite E.
    + intros (a & b & E). destruct a as [|a0 a].
      * left. now exists b.
      * right. cbn [append] in E. injection E as -> ->. now exists a, b.
Qed.

Lemma append_assoc (a b c : string) : (a ++ b) ++ c = a ++ b ++ c.
Proof. induction a as [|x a IH]; [reflexivity|]. cbn. now rewrite IH. Qed.

Lemma rev_append_app r : forall s, Str.rev_append r s = Str.rev_append r "" ++ s.
Proof.
  induction r as [|c r IH]; intros s; [reflexivity|].
  cbn [Str.rev_append]. rewrite IH, (IH (String c "")).
  now rewrite append_assoc.
Qed.

(** A field of [s.split(sep)] is a part of [s]. *)
Lemma split_from_part sep p : forall s ms cur,
  In p (Str.split_from sep ms cur s) ->
  exists pre post, Str.rev_append cur s = pre ++ p ++ post.
Proof.
  induction s as [|c s IH]; intros ms cur; cbn [Str.split_from].
  - intros [<-|[]]. exists "", "". now rewrite append_empty.
  - assert (Hlast : In p [Str.rev_append cur (String c s)] ->
                    exists pre post,
                      Str.rev_append cur (String c s) = pre ++ p ++ post).
    { intros [<-|[]]. exists "", "". now rewrite append_empty. }
    assert (Hstep : forall ms',
               In p (if Ascii.eqb c sep
                     then Str.rev_append cur ""
                          :: Str.split_from sep (option_map Nat.pred ms') "" s
                     else Str.split_from sep ms' (String c cur) s) ->
               exists pre post,
                 Str.rev_append cur (String c s) = pre ++ p ++ post).
    { intros ms'. destruct (Ascii.eqb c sep).
      - intros [<-|H].
        + exists "", (String c s). apply rev_append_app.
        + apply IH in H as (pre & post & E). cbn [Str.rev_append] in E.
          exists (Str.rev_append cur "" ++ String c pre), post.
          rewrite rev_append_app, E.
          rewrite append_assoc. reflexivity.
      - intros H. apply IH in H. exact H. }
    destruct ms as [[|k]|]; [exact Hlast|apply Hstep|apply Hstep].
Qed.

Lemma split_part_contains sep sub t p :
  In p (Str.split sep None t) -> Str.contains sub t = false ->
  Str.contains sub p = false.
Proof.
  intros Hp Ht. destruct (Str.contains sub p) eqn:E; [|reflexivity].
  apply contains_app in E as (a & b & ->).
  apply split_from_part in Hp as (pre & post & E). cbn [Str.rev_append] in E.
  assert (C : Str.contains sub t = true).
  { apply contains_app. exists (pre ++ a), (b ++ post).
    rewrite E, !append_assoc. reflexivity. }
  congruence.
Qed.

Lemma for_each_skip {A} (f : A -> M unit) l :
  (forall a s, In a l -> f a s = (Ok tt, s)) ->
  forall s, for_each f l s = (Ok tt, s).
Proof.
  induction l as [|a l IH]; intros H s; [reflexivity|].
  cbn [for_each]. unfold bind. rewrite H by now left.
  apply IH. intros b s' Hb. apply H. now right.
Qed.

(** X10: a [transform] attribute that holds none of the names [scale],
    [translate] and [matrix] changes nothing: the other operations, as
    [rotate] and [skewX], are ignored without an error. *)
Theorem transform_ignores_unknown n t s :
  get n "transform" = Some t ->
  Str.contains "scale" t = false ->
  Str.contains "translate" t = false ->
  Str.contains "matrix" t = false ->
  transform n s = (Ok tt, s).
Proof.
  intros Ht H1 H2 H3. unfold transform. rewrite Ht.
  destruct (nonempty (Some t)); [|reflexivity].
  apply for_each_skip. intros p s' Hp.
  cbn [transform_types].
  rewrite (split_part_contains _ _ _ _ Hp H1).
  rewrite (split_part_contains _ _ _ _ Hp H2).
  rewrite (split_part_contains _ _ _ _ Hp H3).
  reflexivity.
Qed.

Lemma transform_ignores_unknown_witness :
  transform (with_transform "rotate(45) skewX(10)") fresh = (Ok tt, fresh).
Proof.
  apply (transform_ignores_unknown _ "rotate(45) skewX(10)"); reflexivity.
Defined.

(** ** The view box *)

Lemma size_raises o e : size o = Raise e -> e = ValueError \/ e = TypeError.
Proof.
  destruct o as [[|c s]|]; cbn [size]; try discriminate.
  set (t := String c s).
  destruct (Str.isdigit _).
  - destruct (Num.py_float t) as [f|e'|] eqn:E; cbn [rbind]; try discriminate.
    intros [= <-]. left. now apply py_float_raises in E.
  - pose proof (size_units_outcomes UNITS t) as H. intros E. now rewrite E in H.
Qed.

Lemma map_result_size l :
  match map_result (fun pos => size (Some pos)) l with
  | Ok vs => List.length vs = List.length l
  | Raise e => e = ValueError \/ e = TypeError
  | Diverge => False
  end.
Proof.
  induction l as [|a l IH]; cbn [map_result]; [reflexivity|].
  destruct (size (Some a)) as [v|e|] eqn:E; cbn [rbind].
  - destruct (map_result _ l) as [vs|e|]; cbn [rbind List.length]; auto.
  - now apply size_raises in E.
  - now apply size_total in E.
Qed.

(** X11: a [viewBox] that is not empty and does not hold four fields makes
    [_set_context_size] raise, a [ValueError] from the unpacking unless
    [size] raises on a field, and no call is issued. *)
Theorem viewbox_arity w h vb s :
  vb <> "" -> List.length (Str.split_ws vb) <> 4 ->
  exists e, _set_context_size w h (Some vb) s = (Raise e, s)
            /\ (e = ValueError \/ e = TypeError).
Proof.
  intros N L. unfold _set_context_size.
  assert (Hn : nonempty (Some vb) = true) by (destruct vb; [congruence|reflexivity]).
  rewrite Hn.
  pose proof (map_result_size (Str.split_ws vb)) as H.
  unfold bind, lift.
  destruct (map_result _ _) as [vs|e|]; [| |contradiction].
  - exists ValueError. split; [|now left].
    destruct vs as [|x [|y [|xs [|ys [|? ?]]]]]; try reflexivity.
    cbn [List.length] in H. congruence.
  - exists e. auto.
Qed.

Lemma viewbox_arity_witness :
  exists e, _set_context_size (VInt 0) (VInt 0) (Some "0 0 100") fresh
            = (Raise e, fresh)
            /\ (e = ValueError \/ e = TypeError).
Proof. apply viewbox_arity; [discriminate|vm_compute; discriminate]. Defined.

(** X12: a [viewBox] whose third value is zero makes [_set_context_size]
    raise [ZeroDivisionError] before any call is issued, whatever the width
    of the tree is. *)
Theorem viewbox_zero_width w h vb x y xs ys s :
  size_value w ->
  map_result (fun pos => size (Some pos)) (Str.split_ws vb)
  = Ok [x; y; VFloat xs; ys] ->
  PrimFloat.is_zero xs = true ->
  _set_context_size w h (Some vb) s = (Raise ZeroDivisionError, s).
Proof.
  intros Hw E Z. unfold _set_context_size.
  assert (Hn : nonempty (Some vb) = true) by (destruct vb; [discriminate|reflexivity]).
  rewrite Hn. unfold bind at 1. unfold lift at 1. rewrite E.
  assert (D : forall f, Py.truediv (VFloat f) (VFloat xs) = Raise ZeroDivisionError).
  { intros f. unfold Py.truediv. cbn [Py.to_float rbind]. now rewrite Z. }
  assert (T : Py.truediv (if Py.truthy w then w else VFloat xs) (VFloat xs)
              = Raise ZeroDivisionError).
  { destruct Hw as [->|[->|[f ->]]]; cbn [Py.truthy Z.eqb negb]; try apply D.
    destruct (negb _); apply D. }
  unfold bind at 1. unfold lift at 1. now rewrite T.
Qed.

Lemma viewbox_zero_width_witness :
  _set_context_size (VFloat 100) (VFloat 50) (Some "0 0 0 50") fresh
  = (Raise ZeroDivisionError, fresh).
Proof.
  apply (viewbox_zero_width _ _ _ (VFloat 0) (VFloat 0) 0%float (VFloat 50)).
  - right. right. now exists 100%float.
  - reflexivity.
  - reflexivity.
Defined.

(** ** References without target *)
Lemma lookup_remove_other {A} k k' (d : list (string * A)) :
  k <> k' -> lookup k' (remove_key k d) = lookup k' d.
Proof.
  intros N. induction d as [|[a v] d IH]; [reflexivity|].
  cbn [remove_key lookup]. destruct (String.eqb k a) eqn:E.
  - apply String.eqb_eq in E. subst a.
    assert (E' : String.eqb k' k = false) by (apply String.eqb_neq; congruence).
    now rewrite E'.
  - cbn [lookup]. now rewrite IH.
Qed.

Lemma get_set_other n k v k' : k <> k' -> get (set n k v) k' = get n k'.
Proof.
  intros N. unfold get, set. cbn [attrs lookup].
  assert (E : String.eqb k' k = false) by (apply String.eqb_neq; congruence).
  rewrite E. now apply lookup_remove_other.
Qed.

Lemma get_set_same n k v : get (set n k v) k = Some v.
Proof. unfold get, set. cbn [attrs lookup]. now rewrite String.eqb_refl. Qed.

Lemma get_del_other n k k' : k <> k' -> get (del n k) k' = get n k'.
Proof. intros N. unfold get, del. cbn [attrs]. now apply lookup_remove_other. Qed.

Section Use.
Variable Tree : string -> node -> result node.
Variable dr : node -> M unit.

Lemma to_float_size v e :
  size_value v -> Py.to_float v = Raise e -> e = TypeError.
Proof.
  intros [->|[->|[f ->]]]; cbn; try discriminate. now intros [= <-].
Qed.

Lemma size_is_value o v : size o = Ok v -> size_value v.
Proof.
  destruct o as [[|c s]|]; cbn [size].
  - intros [= <-]. right. now left.
  - set (t := String c s). destruct (Str.isdigit _).
    + destruct (Num.py_float t); cbn [rbind]; try discriminate.
      intros [= <-]. right. right. eauto.
    + pose proof (size_units_outcomes UNITS t) as H. intros E. rewrite E in H.
      destruct v; [now left|contradiction|right; right; eauto].
  - intros [= <-]. right. now left.
Qed.

(** X13: on a node without the [href] attribute [use] never returns: it
    raises [TypeError] from the join of the path, after the translation by
    [x] and [y], or what the reading of [x] and [y] raises before it; the
    document loader and [draw] are not reached. *)
Theorem use_without_href n s :
  get n HREF = None ->
  exists e s', use Tree dr n s = (Raise e, s')
               /\ (e = TypeError \/ e = ValueError)
               /\ (s' = s
                   \/ exists x y, s' = issue s [Translate x y]).
Proof.
  intros H. unfold use.
  destruct (size (get n "x")) as [vx|e|] eqn:Ex;
    [|exists e, s; apply size_raises in Ex; intuition|now apply size_total in Ex].
  unfold bind at 1. unfold lift at 1.
  destruct (size (get n "y")) as [vy|e|] eqn:Ey;
    [|exists e, s; apply size_raises in Ey; intuition|now apply size_total in Ey].
  unfold bind at 1. unfold lift at 1.
  apply size_is_value in Ex, Ey.
  unfold call2. unfold bind at 2. unfold lift at 1.
  destruct (Py.to_float vx) as [x|e|] eqn:Fx;
    [|exists e, s; apply (to_float_size _ _ Ex) in Fx; subst; unfold bind; intuition
     |now apply to_float_total in Fx].
  unfold bind at 2. unfold lift at 1.
  destruct (Py.to_float vy) as [y|e|] eqn:Fy;
    [|exists e, s; apply (to_float_size _ _ Ey) in Fy; subst; unfold bind; intuition
     |now apply to_float_total in Fy].
  unfold bind at 1. unfold emit at 1.
  assert (Hh : get (if has (if has n "x" then del n "x" else n) "y"
                    then del (if has n "x" then del n "x" else n) "y"
                    else if has n "x" then del n "x" else n) HREF = None).
  { destruct (has n "x"), (has _ "y");
      rewrite ?get_del_other by discriminate; exact H. }
  fold HREF. cbv zeta. rewrite Hh.
  exists TypeError. eexists. split; [reflexivity|]. split; [now left|].
  right. now exists x, y.
Qed.

End Use.

Lemma use_without_href_witness :
  exists e s', use no_tree (fun _ => ret tt) (Node "use" [("x", "5")] [] None false) fresh
               = (Raise e, s')
               /\ (e = TypeError \/ e = ValueError)
               /\ (s' = fresh \/ exists x y, s' = issue fresh [Translate x y]).
Proof. apply use_without_href. reflexivity. Defined.

(** ** Font faces *)




(** ** The constructor *)

Lemma size_unresolved s u :
  selected_unit s = Some u -> In u ["em"; "ex"; "%"] ->
  exists e, size (Some s) = Raise e /\ (e = ValueError \/ e = TypeError).
Proof.
  intros Hs Hu. destruct (size (Some s)) as [v|e|] eqn:E.
  - exfalso. revert Hs E. unfold selected_unit, size.
    destruct s as [|c s']; [discriminate|]. set (t := String c s').
    destruct (Str.isdigit _); [discriminate|].
    unfold UNITS. cbn [find size_units fst].
    repeat match goal with
           | |- context [if Str.contains ?a t then _ else _] =>
               destruct (Str.contains a t)
           end; cbn [option_map fst]; intros [= <-];
      try (cbn in Hu; intuition discriminate);
      destruct (Num.py_float _); cbn; discriminate.
  - exists e. split; [reflexivity|]. now apply size_raises in E.
  - now apply size_total in E.
Qed.

Section Constructor.
Variable COLORS : list (string * string).
Variable current_point : list call -> float * float.
Variable text_extents : list call -> string -> extents.
Variable Tree : string -> node -> result node.
Variable str : value -> string.
Variable _create_surface : node -> value -> value -> result unit.

(** X15: when the [width] or the [height] of the tree selects one of the
    units [em], [ex] and [%], the constructor of the surface raises
    [ValueError] or [TypeError], whatever [_create_surface] does. *)
Theorem init_unresolved_size depth fuel tree k s u :
  In k ["width"; "height"] ->
  get tree k = Some s ->
  selected_unit s = Some u -> In u ["em"; "ex"; "%"] ->
  exists e,
    __init__ COLORS current_point text_extents Tree str _create_surface
      depth fuel tree = Raise e
    /\ (e = ValueError \/ e = TypeError).
Proof.
  intros Hk Hg Hs Hu.
  destruct (size_unresolved s u Hs Hu) as (e & E & He).
  unfold __init__. destruct Hk as [<-|[<-|[]]].
  - rewrite Hg, E. now exists e.
  - destruct (size (get tree "width")) as [w|e'|] eqn:Ew; cbn [rbind].
    + rewrite Hg, E. now exists e.
    + exists e'. split; [reflexivity|]. now apply size_raises in Ew.
    + now apply size_total in Ew.
Qed.

End Constructor.

Lemma init_unresolved_size_witness :
  exists e,
    __init__ [] origin no_extents no_tree no_str (fun _ _ _ => Ok tt) 5 5
      (Node "svg" [("width", "100%"); ("height", "50")] [] None true) = Raise e
    /\ (e = ValueError \/ e = TypeError).
Proof.
  apply (init_unresolved_size [] origin no_extents no_tree no_str
           (fun _ _ _ => Ok tt) 5 5 _ "width" "100%" "%").
  - now left.
  - reflexivity.
  - reflexivity.
  - cbn. auto.
Defined.

(** ** Path data without a command *)
Lemma rstrip_head q c s :
  q c = false -> exists t, Str.rstrip_by q (String c s) = String c t.
Proof.
  intros H. cbn [Str.rstrip_by]. rewrite H.
  destruct (Str.rstrip_by q s); eauto.
Qed.

Lemma strip_head c s :
  Str.isspace c = false -> exists t, Str.strip (String c s) = String c t.
Proof.
  intros H. unfold Str.strip, Str.strip_by. cbn [Str.lstrip_by]. rewrite H.
  now apply rstrip_head.
Qed.

Lemma pad_head letters c : forall s,
  Str.mem_char c letters = false ->
  exists t, pad_letters letters (String c s) = String c t.
Proof.
  induction letters as [|l letters IH]; intros s H; cbn [pad_letters]; [eauto|].
  cbn [Str.mem_char] in H. apply orb_false_elim in H as [H1 H2].
  unfold Str.char. rewrite replace_char_cons.
  rewrite Ascii.eqb_sym, H1. now apply IH.
Qed.

Lemma normalize_head c s :
  Ascii.eqb c " " = false -> Str.mem_char c ",-" = false ->
  exists t, normalize (Some (String c s)) = Ok (String c t).
Proof.
  intros H1 H2. rewrite normalize_value. unfold normalize_spec.
  cbn [Str.mem_char] in H2. apply orb_false_elim in H2 as [Hc H2].
  apply orb_false_elim in H2 as [Hm _].
  cbn [separate]. rewrite Hm, Hc.
  rewrite squeeze_cons, H1. cbn [andb]. eauto.
Qed.

Lemma split_from_head sep ms : forall s cur,
  exists t, hd "" (Str.split_from sep ms cur s) = Str.rev_append cur t.
Proof.
  induction s as [|c s IH]; intros cur; cbn [Str.split_from]; [cbn; eauto|].
  destruct ms as [[|k]|]; [cbn; eauto| |].
  - destruct (Ascii.eqb c sep); [cbn; eauto|].
    destruct (IH (String c cur)) as [t E]. rewrite E. cbn [Str.rev_append]. eauto.
  - destruct (Ascii.eqb c sep); [cbn; eauto|].
    destruct (IH (String c cur)) as [t E]. rewrite E. cbn [Str.rev_append]. eauto.
Qed.

Lemma split_head sep ms c s :
  Ascii.eqb c sep = false ->
  exists t, hd "" (Str.split sep ms (String c s)) = String c t.
Proof.
  intros H. unfold Str.split. cbn [Str.split_from]. rewrite H.
  assert (G : exists t, hd "" (Str.split_from sep ms (String c "") s) = String c t).
  { destruct (split_from_head sep ms s (String c "")) as [t E].
    rewrite E. cbn [Str.rev_append]. eauto. }
  destruct ms as [[|k]|]; [|exact G|exact G].
  cbn. eauto.
Qed.

Lemma contains_head c t s :
  Str.mem_char c s = false -> Str.contains (String c t) s = false.
Proof.
  induction s as [|a s IH]; [reflexivity|]. cbn [Str.mem_char Str.contains].
  intros H. apply orb_false_elim in H as [H1 H2].
  now rewrite prefix_cons, H1, IH.
Qed.

Lemma issue_nil s : issue s [] = s.
Proof. destruct s. unfold issue. cbn. now rewrite app_nil_r. Qed.

Lemma issue_issue s a b : issue (issue s a) b = issue s (a ++ b).
Proof. unfold issue. cbn. now rewrite app_assoc. Qed.

Lemma inert_parts c :
  inert c = true ->
  Str.isspace c = false /\ Str.mem_char c ASCII_LETTERS = false
  /\ Str.mem_char c ",-" = false /\ Ascii.eqb c " " = false.
Proof.
  unfold inert. intros H. apply andb_prop in H as [H H3].
  apply andb_prop in H as [H1 H2]. apply negb_true_iff in H1, H2, H3.
  repeat split; try assumption.
  destruct (Ascii.eqb c " ") eqn:E; [|reflexivity].
  apply Ascii.eqb_eq in E. subst c. discriminate.
Qed.

Section PathData.
Variable current_point : list call -> float * float.

Lemma close_command v x s :
  path_command current_point v "Z" x s
  = (Ok (PathVars x "Z" (last_letter v) (x2 v) (y2 v) (x3 v) (y3 v)),
     issue s [ClosePath]).
Proof. reflexivity. Qed.

(** A step on a text that starts with an inert character, the command
    being [Z]: the path is closed and the text stays. *)
Lemma inert_step v c t s :
  inert c = true -> rest v = String c t -> letter v = "Z" ->
  exists v', path_step current_point v s = (Ok v', issue s [ClosePath])
             /\ (exists t', rest v' = String c t') /\ letter v' = "Z".
Proof.
  intros Hc Hr Hl. apply inert_parts in Hc as (H1 & H2 & H3 & H4).
  unfold path_step. rewrite Hr, Hl.
  destruct (strip_head c t H1) as [t1 E1]. rewrite E1.
  destruct (split_head " " (Some 1) c t1 H4) as [tok Et]. rewrite Et.
  rewrite (contains_head _ _ _ H2).
  unfold bind at 1. unfold lift at 1.
  unfold bind at 1. rewrite close_command.
  destruct (strip_head c t1 H1) as [t2 E2].
  eexists. split; [reflexivity|]. cbn [rest letter]. split; [|reflexivity].
  rewrite E2. eauto.
Qed.

Lemma inert_loop c : forall fuel v t s,
  inert c = true -> rest v = String c t -> letter v = "Z" ->
  path_loop current_point fuel v s = (Diverge, issue s (repeat ClosePath fuel)).
Proof.
  induction fuel as [|k IH]; intros v t s Hc Hr Hl; cbn [path_loop]; rewrite Hr.
  - cbn [repeat]. now rewrite issue_nil.
  - destruct (inert_step v c t s Hc Hr Hl) as (v' & E & (t' & Hr') & Hl').
    unfold bind. rewrite E. rewrite (IH v' t' _ Hc Hr' Hl').
    now rewrite issue_issue.
Qed.

(** X16: when the path data start with a character that is no letter, no
    whitespace, no comma and no minus sign, as a digit, the loop of [path]
    never ends: the command is still the [Z] left by the padding loop, each
    iteration closes the path and leaves the text as it is.  With any fuel
    the loop is still running, one [close_path] issued for each unit of
    it. *)
Theorem path_without_command_never_ends n c d fuel s :
  get n "d" = Some (String c d) -> inert c = true ->
  path current_point fuel n s = (Diverge, issue s (repeat ClosePath fuel)).
Proof.
  intros Hd Hc. pose proof (inert_parts c Hc) as (H1 & H2 & H3 & H4).
  unfold path. cbv zeta.
  assert (Hg : get (if nonempty (get n "stroke-width") then n
                    else set n "stroke-width" "1") "d" = Some (String c d)).
  { destruct (nonempty _); [exact Hd|]. now rewrite get_set_other. }
  rewrite Hg.
  destruct (strip_head c d H1) as [t1 E1]. rewrite E1. cbn [append].
  destruct (pad_head ASCII_LETTERS c (t1 ++ "XX") H2) as [t2 E2]. rewrite E2.
  destruct (normalize_head c t2 H4 H3) as [t3 E3]. rewrite E3.
  unfold bind at 1. unfold lift at 1.
  unfold bind at 1.
  now rewrite (inert_loop c fuel (PathVars (String c t3) "Z" None None None None None)
                 t3 s Hc eq_refl eq_refl).
Qed.

(** X17: a [path] node whose [d] attribute is absent or blank issues no
    call: the handler returns the node, with the stroke width ["1"] unless
    it has one. *)
Theorem path_without_data n fuel s :
  Str.strip (match get n "d" with Some d => d | None => "" end) = "" ->
  path current_point (2 + fuel) n s = (Ok (with_stroke_width n), s).
Proof.
  intros Hd. unfold path, with_stroke_width. cbv zeta.
  assert (Hg : get (if nonempty (get n "stroke-width") then n
                    else set n "stroke-width" "1") "d" = get n "d").
  { destruct (nonempty _); [reflexivity|]. now rewrite get_set_other. }
  rewrite Hg, Hd.
  generalize (if nonempty (get n "stroke-width") then n
              else set n "stroke-width" "1").
  intros n'. destruct s as [ctx cur]. destruct fuel; vm_compute; reflexivity.
Qed.

End PathData.

Lemma path_without_command_never_ends_witness :
  path origin 3 (path_node "10 20 30 40") fresh
  = (Diverge, issue fresh (repeat ClosePath 3)).
Proof.
  apply (path_without_command_never_ends origin _ "1" "0 20 30 40"); reflexivity.
Defined.

Lemma path_without_data_witness :
  path origin (2 + 0) (Node "path" [("d", "  ")] [] None false) fresh
  = (Ok (with_stroke_width (Node "path" [("d", "  ")] [] None false)), fresh).
Proof. apply path_without_data. reflexivity. Defined.

(** ** The vertical line *)
Lemma replace_char_app c new a b :
  Str.replace (String c "") new (a ++ b)
  = Str.replace (String c "") new a ++ Str.replace (String c "") new b.
Proof.
  induction a as [|x a IH]; [reflexivity|].
  cbn [append]. rewrite !replace_char_cons, IH.
  destruct (Ascii.eqb c x); [now rewrite append_assoc|reflexivity].
Qed.

Lemma replace_char_free c new s :
  Str.mem_char c s = false -> Str.replace (String c "") new s = s.
Proof.
  induction s as [|x s IH]; [reflexivity|]. cbn [Str.mem_char].
  intros H. apply orb_false_elim in H as [H1 H2].
  now rewrite replace_char_cons, H1, IH.
Qed.

Lemma pad_app letters : forall a b,
  pad_letters letters (a ++ b) = pad_letters letters a ++ pad_letters letters b.
Proof.
  induction letters as [|l letters IH]; intros a b; [reflexivity|].
  cbn [pad_letters]. unfold Str.char. now rewrite replace_char_app, IH.
Qed.

Lemma pad_free letters : forall s,
  (forall l, Str.mem_char l letters = true -> Str.mem_char l s = false) ->
  pad_letters letters s = s.
Proof.
  induction letters as [|l letters IH]; intros s H; [reflexivity|].
  cbn [pad_letters]. unfold Str.char. rewrite replace_char_free.
  - apply IH. intros l' Hl'. apply H. cbn [Str.mem_char]. rewrite Hl'.
    apply orb_true_r.
  - apply H. cbn [Str.mem_char]. now rewrite Ascii.eqb_refl.
Qed.

Lemma unsigned_char_cases c :
  unsigned_char c = true ->
  Str.mem_char c ASCII_LETTERS = false /\ Str.mem_char c " ,-" = false
  /\ Str.isspace c = false.
Proof.
  destruct c as [[] [] [] [] [] [] [] []]; try discriminate; repeat split.
Qed.

Lemma separate_app a b : separate (a ++ b) = separate a ++ separate b.
Proof.
  induction a as [|x a IH]; [reflexivity|]. cbn [append separate].
  rewrite IH. destruct (Ascii.eqb x "-"); [reflexivity|].
  destruct (Ascii.eqb x ","); reflexivity.
Qed.

Lemma separate_free s :
  Str.all_chars unsigned_char s = true -> separate s = s.
Proof.
  induction s as [|x s IH]; [reflexivity|]. cbn [Str.all_chars separate].
  intros H. apply andb_prop in H as [H1 H2].
  apply unsigned_char_cases in H1 as (_ & H1 & _).
  cbn [Str.mem_char] in H1. apply orb_false_elim in H1 as [_ H1].
  apply orb_false_elim in H1 as [Hc H1]. apply orb_false_elim in H1 as [Hm _].
  now rewrite Hm, Hc, IH.
Qed.

Lemma squeeze_word_app a t :
  Str.all_chars unsigned_char a = true -> squeeze (a ++ t) = a ++ squeeze t.
Proof.
  induction a as [|x a IH]; [reflexivity|]. cbn [Str.all_chars append].
  intros H. apply andb_prop in H as [H1 H2].
  apply unsigned_char_cases in H1 as (_ & H1 & _).
  cbn [Str.mem_char] in H1. apply orb_false_elim in H1 as [Hs _].
  now rewrite squeeze_cons, Hs, IH.
Qed.

Lemma rstrip_app q a b :
  Str.rstrip_by q b <> "" -> Str.rstrip_by q (a ++ b) = a ++ Str.rstrip_by q b.
Proof.
  intros N. induction a as [|x a IH]; [reflexivity|].
  cbn [append Str.rstrip_by]. rewrite IH.
  destruct (a ++ Str.rstrip_by q b) eqn:E; [|reflexivity].
  destruct a; [cbn in E; congruence|discriminate].
Qed.

Lemma unsigned_no_space s :
  Str.all_chars unsigned_char s = true -> Str.mem_char " " s = false.
Proof. intros H. now apply (all_chars_mem unsigned_char). Qed.

Lemma unsigned_not_space s :
  Str.all_chars unsigned_char s = true ->
  Str.all_chars (fun c => negb (Str.isspace c)) s = true.
Proof.
  apply all_chars_impl. intros c H.
  apply unsigned_char_cases in H as (_ & _ & H). now rewrite H.
Qed.

Lemma head_space_word a t :
  a <> "" -> Str.all_chars unsigned_char a = true -> head_space (a ++ t) = false.
Proof.
  destruct a as [|x a]; [congruence|]. cbn [Str.all_chars append head_space].
  intros _ H. apply andb_prop in H as [H _].
  apply unsigned_char_cases in H as (_ & H & _).
  cbn [Str.mem_char] in H. now apply orb_false_elim in H as [H _].
Qed.

Section VerticalLine.
Variable current_point : list call -> float * float.

(** A step of the loop on a text that starts with a command letter. *)
Lemma letter_step v l more s :
  Str.strip (rest v) = String l (" " ++ more) ->
  Str.mem_char l ASCII_LETTERS = true ->
  path_step current_point v s
  = (v' <- path_command current_point v (Str.char l) more ;;
     ret (PathVars (Str.strip (rest v')) (Str.char l) (Some (Str.char l))
            (x2 v') (y2 v') (x3 v') (y3 v'))) s.
Proof.
  intros Hs Hl. unfold path_step. rewrite Hs.
  assert (Hsp : Str.split " " (Some 1) (String l (" " ++ more))
                = [Str.char l; more]).
  { unfold Str.split.
    change (String l (" " ++ more)) with (Str.char l ++ String " " more).
    rewrite split_from_token; [now rewrite split_from_last| |discriminate].
    unfold Str.char. cbn [Str.mem_char]. rewrite orb_false_r.
    destruct (Ascii.eqb " " l) eqn:E; [|reflexivity].
    apply Ascii.eqb_eq in E. subst l. discriminate. }
  unfold split2. rewrite Hsp. cbn [hd]. rewrite contains_char, Hl.
  reflexivity.
Qed.

Lemma vertical_command v coords s :
  path_command current_point v "V" coords s
  = ('(x, r) <- lift (split2 coords) ;;
     x <- lift (size (Some x)) ;;
     call2 LineTo x (VInt 0) ;;
     ret (PathVars r "V" (last_letter v) (x2 v) (y2 v) (x3 v) (y3 v))) s.
Proof. reflexivity. Qed.

Lemma split2_word a t :
  Str.all_chars unsigned_char a = true -> split2 (a ++ " " ++ t) = Ok (a, t).
Proof.
  intros H. unfold split2, Str.split.
  change (" " ++ t) with (String " " t).
  rewrite split_from_token; [|now apply unsigned_no_space|discriminate].
  cbn [option_map Nat.pred]. now rewrite split_from_last.
Qed.

(** X19: for the path data [V] followed by an unsigned numeral, [path]
    issues [line_to(size(numeral), 0)]: the first of the two branches for
    [V] is taken, which uses the number as the abscissa. *)
Theorem path_vertical_line n num fuel s :
  get n "d" = Some ("V" ++ num) ->
  num <> "" -> Str.all_chars unsigned_char num = true ->
  path current_point (2 + fuel) n s
  = (x <- lift (size (Some num)) ;;
     call2 LineTo x (VInt 0) ;;
     ret (with_stroke_width n)) s.
Proof.
  intros Hd Hn Hu. unfold path, with_stroke_width. cbv zeta.
  assert (Hg : get (if nonempty (get n "stroke-width") then n
                    else set n "stroke-width" "1") "d" = Some ("V" ++ num)).
  { destruct (nonempty _); [exact Hd|]. now rewrite get_set_other. }
  rewrite Hg.
  generalize (if nonempty (get n "stroke-width") then n
              else set n "stroke-width" "1").
  intros n'.
  assert (E1 : Str.strip ("V" ++ num) = "V" ++ num).
  { unfold Str.strip, Str.strip_by. rewrite lstrip_plain.
    - rewrite <- (append_empty ("V" ++ num)) at 1. apply rstrip_suffix; [|reflexivity].
      cbn [append Str.all_chars]. now rewrite unsigned_not_space.
    - cbn [append Str.all_chars]. now rewrite unsigned_not_space. }
  rewrite E1.
  assert (E2 : pad_letters ASCII_LETTERS (("V" ++ num) ++ "XX")
               = " V " ++ num ++ " X  X ").
  { rewrite !pad_app. rewrite (pad_free _ num).
    - reflexivity.
    - intros l Hl. apply (all_chars_mem unsigned_char); [exact Hu|].
      destruct (unsigned_char l) eqn:U; [|reflexivity].
      apply unsigned_char_cases in U as (U & _). congruence. }
  rewrite E2.
  assert (E3 : normalize (Some (" V " ++ num ++ " X  X "))
               = Ok (" V " ++ num ++ " X X ")).
  { rewrite normalize_value. unfold normalize_spec.
    rewrite !separate_app, (separate_free num) by assumption.
    change (separate " V ") with " V ". change (separate " X  X ") with " X  X ".
    cbn [append]. rewrite !squeeze_cons.
    cbn [head_space Ascii.eqb Bool.eqb andb].
    rewrite head_space_word by assumption. cbn [andb].
    now rewrite squeeze_word_app. }
  rewrite E3. unfold bind at 1. unfold lift at 1.
  assert (E4 : Str.strip (" V " ++ num ++ " X X ")
               = String "V" (" " ++ num ++ " " ++ "X X")).
  { unfold Str.strip, Str.strip_by. cbn [append Str.lstrip_by].
    change (Str.isspace " ") with true. change (Str.isspace "V") with false.
    cbv iota.
    change (String "V" (String " " (num ++ " X X ")))
      with (("V " ++ num) ++ " X X ").
    rewrite rstrip_app by (vm_compute; discriminate).
    change (Str.rstrip_by Str.isspace " X X ") with " X X".
    rewrite append_assoc. reflexivity. }
  cbn [Nat.add path_loop rest append].
  rewrite bind_assoc. unfold bind at 1.
  rewrite (letter_step _ "V" (num ++ " " ++ "X X")); [|exact E4|reflexivity].
  unfold bind at 1. rewrite vertical_command.
  unfold bind at 1. unfold lift at 1. rewrite split2_word by assumption.
  unfold bind at 1. unfold lift at 1.
  destruct (size (Some num)) as [x|e|]; [|reflexivity|reflexivity].
  cbv beta iota zeta delta [bind lift call2 ret emit].
  destruct (Py.to_float x) as [fx|e|]; [|reflexivity|reflexivity].
  destruct s as [ctx cur]; destruct fuel; vm_compute; reflexivity.
Qed.

End VerticalLine.

Lemma path_vertical_line_witness :
  path origin (2 + 0) (path_node ("V" ++ "7.5")) fresh
  = (x <- lift (size (Some "7.5")) ;;
     call2 LineTo x (VInt 0) ;;
     ret (with_stroke_width (path_node ("V" ++ "7.5")))) fresh.
Proof.
  apply (path_vertical_line origin (path_node ("V" ++ "7.5")) "7.5" 0 fresh).
  - reflexivity.
  - discriminate.
  - reflexivity.
Defined.

Example vertical_line_goes_to_the_x_axis :
  path origin 2 (path_node "V7.5") fresh
  = (Ok (with_stroke_width (path_node "V7.5")), issue fresh [LineTo 7.5 0]).
Proof. vm_compute. reflexivity. Qed.

(** ** The sentinel of the path loop *)
Lemma squeeze_head s : head_space (squeeze s) = head_space s.
Proof.
  induction s as [|c s IH]; [reflexivity|]. rewrite squeeze_cons.
  destruct (Ascii.eqb c " " && head_space s) eqn:E; [|reflexivity].
  apply andb_prop in E as [E1 E2]. cbn [head_space]. now rewrite IH, E1, E2.
Qed.

Lemma squeeze_keeps c s :
  Ascii.eqb c " " = false -> Str.mem_char c (squeeze s) = Str.mem_char c s.
Proof.
  intros N. induction s as [|a s IH]; [reflexivity|]. rewrite squeeze_cons.
  destruct (Ascii.eqb a " " && head_space s) eqn:E.
  - apply andb_prop in E as [E1 _]. apply Ascii.eqb_eq in E1. subst a.
    cbn [Str.mem_char]. now rewrite IH, N.
  - cbn [Str.mem_char]. now rewrite IH.
Qed.

Lemma rstrip_keeps q c s :
  Str.mem_char c s = true -> q c = false -> Str.rstrip_by q s <> "".
Proof.
  induction s as [|a s IH]; [discriminate|]. cbn [Str.mem_char Str.rstrip_by].
  intros H Hq. destruct (Str.rstrip_by q s) eqn:E; [|discriminate].
  destruct (Ascii.eqb c a) eqn:Ea.
  - apply Ascii.eqb_eq in Ea. subst a. rewrite Hq. discriminate.
  - exfalso. now apply IH.
Qed.

Lemma rstrip_cons q a s :
  Str.rstrip_by q s <> "" -> Str.rstrip_by q (String a s) = String a (Str.rstrip_by q s).
Proof. cbn [Str.rstrip_by]. destruct (Str.rstrip_by q s); congruence. Qed.

Lemma separate_keeps c s :
  Str.mem_char c s = true -> Str.mem_char c "-," = false ->
  Str.mem_char c (separate s) = true.
Proof.
  intros H N. cbn [Str.mem_char] in N. apply orb_false_elim in N as [N1 N2].
  apply orb_false_elim in N2 as [N2 _].
  induction s as [|a s IH]; [discriminate|]. cbn [Str.mem_char separate] in *.
  destruct (Ascii.eqb c a) eqn:E.
  - apply Ascii.eqb_eq in E. subst a. rewrite N1, N2. cbn [Str.mem_char].
    now rewrite Ascii.eqb_refl.
  - destruct (Ascii.eqb a "-"); [cbn [Str.mem_char]; rewrite IH by assumption;
                                 now rewrite !orb_true_r|].
    destruct (Ascii.eqb a ","); cbn [Str.mem_char]; rewrite IH by assumption;
      now rewrite ?orb_true_r.
Qed.

(** The text that the loop of [Surface.path] starts with, for data that
    start with the letter [X]. *)
Lemma sentinel_text t :
  exists r more,
    normalize (Some (pad_letters ASCII_LETTERS (String "X" t ++ "XX"))) = Ok r
    /\ Str.strip r = String "X" (" " ++ more).
Proof.
  change (String "X" t ++ "XX") with ("X" ++ (t ++ "XX")).
  rewrite pad_app, (pad_app _ t "XX").
  change (pad_letters ASCII_LETTERS "X") with " X ".
  change (pad_letters ASCII_LETTERS "XX") with " X  X ".
  set (y := pad_letters ASCII_LETTERS t ++ " X  X ").
  rewrite normalize_value. unfold normalize_spec. rewrite separate_app.
  change (separate " X ") with " X ". cbn [append].
  set (w := separate y).
  assert (Hw : Str.mem_char "X" w = true).
  { unfold w, y. apply separate_keeps; [|reflexivity].
    rewrite mem_char_app. cbn. apply orb_true_r. }
  rewrite !squeeze_cons. cbn [head_space Ascii.eqb Bool.eqb andb].
  set (q := if head_space w then squeeze w else String " " (squeeze w)).
  assert (Hq : exists q', q = String " " q' /\ Str.mem_char "X" q' = true).
  { unfold q. destruct (head_space w) eqn:Hh.
    - pose proof (squeeze_head w) as Hs. rewrite Hh in Hs.
      pose proof (squeeze_keeps "X" w eq_refl) as Hk. rewrite Hw in Hk.
      destruct (squeeze w) as [|a q']; [discriminate|]. cbn in Hs.
      apply Ascii.eqb_eq in Hs. subst a. exists q'. split; [reflexivity|].
      cbn [Str.mem_char Ascii.eqb Bool.eqb orb] in Hk. exact Hk.
    - exists (squeeze w). split; [reflexivity|]. now rewrite squeeze_keeps. }
  destruct Hq as (q' & -> & Hq').
  eexists. exists (Str.rstrip_by Str.isspace q'). split; [reflexivity|].
  unfold Str.strip, Str.strip_by. cbn [Str.lstrip_by].
  change (Str.isspace " ") with true. change (Str.isspace "X") with false.
  cbv iota.
  assert (N : Str.rstrip_by Str.isspace q' <> "")
    by now apply (rstrip_keeps _ "X").
  rewrite rstrip_cons; [rewrite rstrip_cons by exact N; reflexivity|].
  rewrite rstrip_cons by exact N. discriminate.
Qed.

Section Sentinel.
Variable current_point : list call -> float * float.

Lemma sentinel_command v coords s :
  path_command current_point v "X" coords s
  = (Ok (PathVars "" "X" (last_letter v) (x2 v) (y2 v) (x3 v) (y3 v)), s).
Proof. reflexivity. Qed.

(** X18: when the path data start with the letter [X], [path] issues no
    call and returns: [X] is the sentinel of the loop, and the data after
    it are not read. *)
Theorem path_sentinel_stops n t fuel s :
  get n "d" = Some (String "X" t) ->
  path current_point (1 + fuel) n s = (Ok (with_stroke_width n), s).
Proof.
  intros Hd. unfold path, with_stroke_width. cbv zeta.
  assert (Hg : get (if nonempty (get n "stroke-width") then n
                    else set n "stroke-width" "1") "d" = Some (String "X" t)).
  { destruct (nonempty _); [exact Hd|]. now rewrite get_set_other. }
  rewrite Hg.
  generalize (if nonempty (get n "stroke-width") then n
              else set n "stroke-width" "1").
  intros n'.
  destruct (strip_head "X" t eq_refl) as [t1 E1]. rewrite E1.
  destruct (sentinel_text t1) as (r & more & E2 & E3). rewrite E2.
  unfold bind at 1. unfold lift at 1.
  cbn [Nat.add path_loop rest].
  assert (Hr : r <> "") by (intros ->; discriminate).
  destruct r as [|c r']; [congruence|].
  rewrite bind_assoc. unfold bind at 1.
  rewrite (letter_step _ _ "X" more); [|exact E3|reflexivity].
  unfold bind at 1. rewrite sentinel_command.
  cbv beta iota zeta delta [ret bind rest Str.strip Str.strip_by Str.lstrip_by
                            Str.rstrip_by].
  destruct fuel; reflexivity.
Qed.

End Sentinel.

Lemma path_sentinel_stops_witness :
  path origin (1 + 0) (path_node "X M 1 2 A") fresh
  = (Ok (with_stroke_width (path_node "X M 1 2 A")), fresh).
Proof. apply (path_sentinel_stops origin _ " M 1 2 A"). reflexivity. Defined.

(** ** Nodes without attributes *)
Lemma private_tag t x : prefix "_" t = false -> String.eqb t ("_" ++ x) = false.
Proof.
  destruct t as [|c t]; [reflexivity|]. rewrite prefix_cons, prefix_nil, andb_true_r.
  intros H. cbn [append String.eqb]. now rewrite Ascii.eqb_sym, H.
Qed.

Section Group.
Variable COLORS : list (string * string).
Variable current_point : list call -> float * float.
Variable text_extents : list call -> string -> extents.
Variable Tree : string -> node -> result node.
Variable str : value -> string.

Local Abbreviation render := (draw COLORS current_point text_extents Tree str).

(** X20: the draw of a node with none of the attributes that [draw] reads
    and with a tag that names no attribute of the surface issues a save, a
    move to the origin, a line width of zero, and a stroke and a fill with
    the transparent colour; then it draws the children in their order, and
    restores the context unless the node is a root. *)
Theorem draw_without_attributes d fuel n s :
  element_tag (tag n) = true ->
  (forall k, In k draw_keys -> get n k = None) ->
  render (S d) fuel n s
  = (for_each emit [Save; MoveTo 0 0; SetLineWidth 0; SetSourceRgba 0 0 0 0;
                    StrokePreserve; SetSourceRgba 0 0 0 0; Fill] ;;
     for_each (render d fuel) (children n) ;;
     if root n then ret tt else emit Restore) s.
Proof.
  intros Ht Hk. cbn [draw].
  set (dr := draw COLORS current_point text_extents Tree str d fuel).
  clearbody dr.
  unfold element_tag in Ht. apply andb_prop in Ht as [Hp Ht].
  apply negb_true_iff in Hp, Ht.
  pose proof (private_tag _ "create_surface" Hp) as Hc.
  pose proof (private_tag _ "set_context_size" Hp) as Hs.
  cbn [append] in Hc, Hs. cbn [existsb] in Ht.
  repeat match type of Ht with
         | _ || _ = false => apply orb_false_elim in Ht as [? Ht]
         end.
  unfold dispatch.
  repeat match goal with
         | E : String.eqb (tag n) ?x = false |- _ => rewrite E; clear E
         end.
  cbn [orb]. unfold transform, paint, float_attr.
  rewrite !Hk by (cbn; tauto).
  destruct s as [ctx cur].
  repeat first
    [ progress cbv beta iota zeta
        delta [bind ret lift emit call1 call2 call4 set_source_rgba size color
               Py.to_float for_each context cursor_position]
    | rewrite !Hk by (cbn; tauto)
    | progress change (Num.float_of_Z 0) with (@Ok float 0%float) ].
  reflexivity.
Qed.

End Group.

Lemma draw_without_attributes_witness :
  demo_draw 2 0 (Node "g" [("id", "a")] [Node "g" [] [] None false] None true) fresh
  = (for_each emit [Save; MoveTo 0 0; SetLineWidth 0; SetSourceRgba 0 0 0 0;
                    StrokePreserve; SetSourceRgba 0 0 0 0; Fill] ;;
     for_each (demo_draw 1 0) [Node "g" [] [] None false] ;;
     ret tt) fresh.
Proof.
  apply (draw_without_attributes [] origin no_extents no_tree no_str 1 0
           (Node "g" [("id", "a")] [Node "g" [] [] None false] None true)).
  - reflexivity.
  - intros k Hk. cbn in Hk.
    repeat (destruct Hk as [<-|Hk]; [reflexivity|]). contradiction.
Defined.

(** ** Strokes and fills of [draw] *)
Lemma ignores_paints c :
  is_stroke c = false -> is_fill c = false -> ignores paints c.
Proof.
  intros H1 H2 s. unfold paints, strokes, fills. cbn [context].
  rewrite !count_app, !count_one, H1, H2. now rewrite !Nat.add_0_r.
Qed.

Lemma paints_cursor p : invariant paints (set_cursor p).
Proof. intros s r s' [= <- <-]. reflexivity. Qed.

Lemma paints_elim {A} (m : M A) s r s' :
  invariant paints m -> m s = (r, s') ->
  strokes s' = strokes s /\ fills s' = fills s.
Proof. intros H E. apply H in E. now injection E. Qed.

Lemma emit_paints c s r s' :
  emit c s = (r, s') ->
  strokes s' = strokes s + (if is_stroke c then 1 else 0)
  /\ fills s' = fills s + (if is_fill c then 1 else 0).
Proof.
  intros [= <- <-]. unfold strokes, fills. cbn [context].
  rewrite !count_app, !count_one. auto.
Qed.

Ltac paint_side :=
  apply ignores_paints;
  repeat match goal with
         | |- context [if ?b then _ else _] => destruct b
         end;
  reflexivity.
Ltac paint_inv := repeat inv_step paint_side.

(** Inversion of a sequence whose first computation neither strokes nor
    fills. *)
Ltac paint_stage H tac :=
  let H1 := fresh "H1" in
  apply bind_inv in H as [(? & ? & H1 & H)|(? & _)]; [|discriminate];
  match type of H1 with
  | ?m _ = _ =>
      let G := fresh "G" in
      assert (G : invariant paints m) by tac;
      apply (paints_elim _ _ _ _ G) in H1 as []; clear G
  end.

Section Painting.
Variable COLORS : list (string * string).
Variable current_point : list call -> float * float.
Variable text_extents : list call -> string -> extents.
Variable Tree : string -> node -> result node.
Variable str : value -> string.

Local Abbreviation render := (draw COLORS current_point text_extents Tree str).
Local Abbreviation handle :=
  (dispatch COLORS current_point text_extents Tree str).

Lemma path_command_paints v letter coords :
  invariant paints (path_command current_point v letter coords).
Proof. unfold path_command. paint_inv. Qed.

Lemma path_loop_paints fuel :
  forall v, invariant paints (path_loop current_point fuel v).
Proof.
  induction fuel as [|k IH]; intros v; cbn [path_loop]; destruct (rest v);
    paint_inv.
  - unfold path_step. paint_inv. apply path_command_paints.
  - apply IH.
Qed.

Lemma path_paints fuel n : invariant paints (path current_point fuel n).
Proof. unfold path. paint_inv. apply path_loop_paints. Qed.

Lemma text_paints n :
  invariant paints (text COLORS current_point text_extents n).
Proof. unfold text. paint_inv. apply paints_cursor. Qed.

Lemma tspan_paints n :
  invariant paints (tspan COLORS current_point text_extents str n).
Proof. unfold tspan. paint_inv; apply text_paints. Qed.

Lemma transform_paints n : invariant paints (transform n).
Proof.
  unfold transform. paint_inv. apply invariant_for_each. intros t _.
  generalize ["scale"; "translate"; "matrix"]. intros ts. revert t.
  induction ts as [|a ts IH]; intros t; cbn [transform_types]; paint_inv.
  - unfold apply_transformation. paint_inv.
  - apply IH.
  - apply IH.
Qed.

(** Apart from [use] and [draw], a handler strokes and fills nothing. *)
Lemma dispatch_paints dr fuel n :
  String.eqb (tag n) "use" = false -> String.eqb (tag n) "draw" = false ->
  invariant paints (handle dr fuel n).
Proof.
  intros Hu Hd. unfold dispatch. rewrite Hu, Hd.
  repeat match goal with
         | |- invariant _ (if ?b then _ else _) => destruct b
         end;
    first [ apply path_paints | apply tspan_paints | apply text_paints
          | unfold circle, line; solve [paint_inv] ].
Qed.

(** When [paint] returns it has stroked once and filled once. *)
Lemma paint_paints n s s' :
  paint COLORS n s = (Ok tt, s') ->
  strokes s' = strokes s + 1 /\ fills s' = fills s + 1.
Proof.
  unfold paint. intros H.
  do 5 paint_stage H ltac:(solve [paint_inv]).
  do 2 paint_stage H ltac:(solve [paint_inv]).
  ok_stage H E8. apply emit_paints in E8 as [C1 C2].
  do 3 paint_stage H ltac:(solve [paint_inv]).
  apply emit_paints in H as [G1 G2].
  cbn [is_stroke is_fill] in *. lia.
Qed.

Lemma for_each_paints (f : node -> M unit) :
  (forall n s s', plain n = true -> f n s = (Ok tt, s') ->
     strokes s' = strokes s + count_nodes n
     /\ fills s' = fills s + count_nodes n) ->
  forall l s s', forallb plain l = true -> for_each f l s = (Ok tt, s') ->
    strokes s' = strokes s + list_sum (List.map count_nodes l)
    /\ fills s' = fills s + list_sum (List.map count_nodes l).
Proof.
  intros Hf. induction l as [|a l IH]; intros s s' Hp H; cbn [for_each] in H.
  - injection H as <-. cbn. lia.
  - cbn [forallb] in Hp. apply andb_prop in Hp as [Ha Hl].
    apply bind_inv in H as [([] & s1 & H1 & H)|(? & _)]; [|discriminate].
    apply Hf in H1 as [E1 E2]; [|assumption].
    apply IH in H as [E3 E4]; [|assumption].
    cbn [List.map]. unfold list_sum in *. cbn [fold_right]. lia.
Qed.

(** X21: when the draw of a tree without [use] references returns, it has
    issued one [stroke_preserve] and one [fill] for every node of the tree,
    whatever the tags and the attributes are.  (The tags that start with an
    underscore are left out: they name attributes that a surface inherits
    from [object].) *)
Theorem draw_paints_every_node fuel : forall d n s s',
  plain n = true -> public n = true ->
  render d fuel n s = (Ok tt, s') ->
  strokes s' = strokes s + count_nodes n
  /\ fills s' = fills s + count_nodes n.
Proof.
  intros d n s s' Hp _. revert n s s' Hp.
  induction d as [|d IH]; intros n s s' Hp H; [discriminate|].
  cbn [draw] in H.
  rewrite plain_eq in Hp. apply andb_prop in Hp as [Hp Hk].
  apply andb_prop in Hp as [Hu Hd].
  apply negb_true_iff in Hu, Hd.
  ok_stage H E0. apply emit_paints in E0 as [A1 A2].
  do 3 paint_stage H ltac:(solve [paint_inv]).
  paint_stage H ltac:(apply transform_paints).
  ok_stage H E5.
  pose proof (dispatch_shape _ _ _ _ _ _ _ _ _ _ _ E5) as Hs.
  apply (paints_elim _ _ _ _ (dispatch_paints _ _ _ Hu Hd)) in E5 as [D1 D2].
  injection Hs as Hc Hr.
  ok_stage H E6.
  match type of E6 with _ = (Ok ?u, _) => destruct u end.
  apply paint_paints in E6 as [F1 F2].
  ok_stage H E7. rewrite Hc in E7.
  match type of E7 with _ = (Ok ?u, _) => destruct u end.
  apply (for_each_paints _ IH) in E7 as [G1 G2]; [|assumption].
  rewrite count_nodes_eq.
  destruct (root _).
  - injection H as <-. cbn [is_stroke is_fill] in *. lia.
  - apply emit_paints in H as [K1 K2]. cbn [is_stroke is_fill] in *. lia.
Qed.

End Painting.

Lemma draw_paints_every_node_witness :
  let tree := Node "svg" [] [Node "g" [] [Node "circle" [("r", "4")] [] None false]
                                    None false;
                             Node "text" [] [] (Some "a") false] None true in
  strokes (snd (demo_draw 3 3 tree fresh)) = strokes fresh + count_nodes tree
  /\ fills (snd (demo_draw 3 3 tree fresh)) = fills fresh + count_nodes tree.
Proof.
  intros tree.
  apply (draw_paints_every_node [] origin no_extents no_tree no_str 3 3 tree).
  - reflexivity.
  - reflexivity.
  - vm_compute. reflexivity.
Defined.

(** ** Text *)
Lemma get_set_text n t k : get (set_text n t) k = get n k.
Proof. reflexivity. Qed.

Section Text.
Variable COLORS : list (string * string).
Variable current_point : list call -> float * float.
Variable text_extents : list call -> string -> extents.
Variable str : value -> string.

(** X22: on a node with none of the attributes that [text] reads, [text]
    selects the normal face of [Sans] at size 12 (the default ["12pt"]),
    shows the text in opaque black at the origin and adds its path there,
    sets the cursor to the current point, and returns the node with the
    text stripped of its line ends and the fill ["#00000000"]. *)
Theorem text_defaults n s :
  (forall k, In k text_keys -> get n k = None) ->
  lookup "#000000" COLORS = None ->
  let calls := [SelectFontFace "Sans" SlantNormal WeightNormal; SetFontSize 12;
                MoveTo 0 0; SetSourceRgba 0 0 0 1; ShowText (shown_text n);
                MoveTo 0 0; TextPath (shown_text n)] in
  text COLORS current_point text_extents n s
  = (Ok (set (set_text (set n "fill" "#000000") (shown_text n)) "fill" "#00000000"),
     Surface (context s ++ calls)
       (Some (current_point (context s ++ calls)))).
Proof.
  intros Hk HC calls. unfold text.
  assert (Hf : nonempty (get n "fill") = false) by (rewrite Hk; [reflexivity|cbn; tauto]).
  rewrite Hf. cbv zeta.
  assert (Ht : (if nonempty (node_text (set n "fill" "#000000"))
                then Str.strip_chars (String "010" (String "013" ""))
                       match node_text (set n "fill" "#000000") with
                       | Some t => t
                       | None => ""
                       end
                else "") = shown_text n).
  { unfold shown_text. cbn [node_text set].
    destruct (node_text n) as [[|c t]|]; reflexivity. }
  rewrite Ht.
  rewrite !get_set_text, get_set_same.
  rewrite !get_set_other by discriminate.
  rewrite !Hk by (cbn; tauto).
  unfold float_attr. rewrite get_set_text, get_set_other by discriminate.
  rewrite Hk by (cbn; tauto).
  assert (Hc : color COLORS (Some "#000000") (VFloat 1)
               = Ok (VFloat 0, VFloat 0, VFloat 0, VFloat 1)).
  { unfold color. cbn [String.eqb Ascii.eqb Bool.eqb].
    change (Str.lower (Str.strip "#000000")) with "#000000". rewrite HC.
    reflexivity. }
  change (size (Some "12pt")) with (@Ok value (VFloat 12)).
  change (size None) with (@Ok value (VInt 0)).
  change (cairo_font_slant None) with SlantNormal.
  change (cairo_font_weight None) with WeightNormal.
  destruct s as [ctx cur].
  repeat first
    [ progress cbv beta iota zeta
        delta [bind ret lift emit call1 call2 call4 set_source_rgba
               Py.to_float context cursor_position get_current_point set_cursor]
    | rewrite Hc
    | progress change (Num.float_of_Z 0) with (@Ok float 0%float) ].
  unfold calls. do 2 f_equal.
  - repeat rewrite <- app_assoc. reflexivity.
  - repeat rewrite <- app_assoc. reflexivity.
Qed.

(** X23: when [text] returns, the fill of the node is ["#00000000"], which
    [color] resolves to black with an alpha of zero, so the fill that
    [draw] issues after the handler is transparent; the text of the node is
    the text stripped of its line ends. *)
Theorem text_hides_fill n s n' s' :
  text COLORS current_point text_extents n s = (Ok n', s') ->
  get n' "fill" = Some "#00000000"
  /\ node_text n' = Some (shown_text n)
  /\ (lookup "#00000000" COLORS = None ->
      forall o, color COLORS (get n' "fill") (VFloat o)
                = Ok (VFloat 0, VFloat 0, VFloat 0, VFloat (o * 0))).
Proof.
  intros H.
  assert (R : returns (fun n' => get n' "fill" = Some "#00000000"
                                  /\ node_text n' = Some (shown_text n))
                (text COLORS current_point text_extents n)).
  { unfold text. cbv zeta. repeat ret_step. split; [apply get_set_same|].
    unfold shown_text. cbn [node_text set set_text].
    destruct (nonempty (get n "fill")); cbn [node_text set];
      destruct (node_text n) as [[|c t]|]; reflexivity. }
  apply R in H as [H1 H2]. split; [exact H1|]. split; [exact H2|].
  intros HC o. rewrite H1. unfold color. cbn [String.eqb Ascii.eqb Bool.eqb].
  change (Str.lower (Str.strip "#00000000")) with "#00000000". rewrite HC.
  reflexivity.
Qed.

End Text.

Lemma text_defaults_witness :
  let n := Node "text" [("id", "t")] [] (Some "hi") false in
  let calls := [SelectFontFace "Sans" SlantNormal WeightNormal; SetFontSize 12;
                MoveTo 0 0; SetSourceRgba 0 0 0 1; ShowText (shown_text n);
                MoveTo 0 0; TextPath (shown_text n)] in
  text [("red", "#ff0000")] origin no_extents n fresh
  = (Ok (set (set_text (set n "fill" "#000000") (shown_text n)) "fill" "#00000000"),
     Surface (context fresh ++ calls)
       (Some (origin (context fresh ++ calls)))).
Proof.
  apply (text_defaults [("red", "#ff0000")] origin no_extents
           (Node "text" [("id", "t")] [] (Some "hi") false) fresh).
  - intros k Hk. cbn in Hk.
    repeat (destruct Hk as [<-|Hk]; [reflexivity|]). contradiction.
  - reflexivity.
Defined.

Lemma text_hides_fill_witness :
  let n := Node "text" [("fill", "#ff0000")] [] (Some "hi") false in
  let n' := set (set_text n "hi") "fill" "#00000000" in
  get n' "fill" = Some "#00000000"
  /\ node_text n' = Some (shown_text n)
  /\ (lookup "#00000000" [("red", "#ff0000")] = None ->
      forall o, color [("red", "#ff0000")] (get n' "fill") (VFloat o)
                = Ok (VFloat 0, VFloat 0, VFloat 0, VFloat (o * 0))).
Proof.
  intros n n'.
  eapply (text_hides_fill [("red", "#ff0000")] origin no_extents n fresh n').
  vm_compute. reflexivity.
Defined.

(** ** Tags that name attributes of the surface *)
Lemma bind_not_ok {A B} (m : M A) (f : A -> M B) s :
  (forall a s1, m s = (Ok a, s1) -> is_ok (fst (f a s1)) = false) ->
  is_ok (fst (bind m f s)) = false.
Proof.
  intros H. unfold bind. destruct (m s) as [[a|e|] s1]; [now apply H| |]; reflexivity.
Qed.

Section Tags.
Variable COLORS : list (string * string).
Variable current_point : list call -> float * float.
Variable text_extents : list call -> string -> extents.
Variable Tree : string -> node -> result node.
Variable str : value -> string.

Local Abbreviation render := (draw COLORS current_point text_extents Tree str).
Local Abbreviation handle :=
  (dispatch COLORS current_point text_extents Tree str).

(** X24: the draw of a node whose tag is [draw] never returns: the handler
    that [getattr] finds is [draw] itself, which is called on the same node
    again, until the recursion limit or an earlier error. *)
Theorem draw_tag_never_returns fuel n : forall d s,
  tag n = "draw" -> is_ok (fst (render d fuel n s)) = false.
Proof.
  intros d s Ht. revert s. induction d as [|d IH]; intros s; [reflexivity|].
  cbn [draw].
  do 5 (apply bind_not_ok; intros ? ? _).
  apply bind_not_ok. intros n' st H. exfalso.
  unfold dispatch in H. rewrite Ht in H. cbn [String.eqb Ascii.eqb Bool.eqb] in H.
  apply bind_inv in H as [(? & st' & H1 & _)|(? & _)]; [|discriminate].
  match type of H1 with ?m ?x = _ => specialize (IH x) end.
  rewrite H1 in IH. discriminate.
Qed.

(** X25: when the tag of a node is the name of an attribute of the surface
    that is no handler ([read], [_create_surface], [_set_context_size],
    [bytesio], [cairo], [context]), its draw raises [TypeError] at the
    call of the handler, after the save, the move and the
    transformation. *)
Theorem attribute_tag_raises d fuel n s s1 :
  In (tag n) attribute_tags ->
  before_handler n s = (Ok tt, s1) ->
  render (S d) fuel n s = (Raise TypeError, s1).
Proof.
  intros Ht H. apply (handler_error _ _ _ _ _ _ _ _ _ _ _ _ H).
  unfold dispatch. unfold attribute_tags in Ht. cbn [In] in Ht.
  repeat (destruct Ht as [<-|Ht]; [reflexivity|]). contradiction.
Qed.

End Tags.

Lemma draw_tag_never_returns_witness :
  is_ok (fst (demo_draw 7 0 (Node "draw" [("x", "1")] [] None false) fresh)) = false.
Proof.
  apply (draw_tag_never_returns [] origin no_extents no_tree no_str 0
           (Node "draw" [("x", "1")] [] None false)).
  reflexivity.
Defined.

Lemma attribute_tag_raises_witness :
  demo_draw 1 0 (Node "context" [] [] None false) fresh
  = (Raise TypeError, issue fresh [Save; MoveTo 0 0]).
Proof.
  apply (attribute_tag_raises [] origin no_extents no_tree no_str 0 0
           (Node "context" [] [] None false)).
  - cbn. tauto.
  - vm_compute. reflexivity.
Defined.

Example draw_tag_recursion :
  demo_draw 3 0 (Node "draw" [] [] None false) fresh
  = (Raise RecursionError,
     Surface [Save; MoveTo 0 0; Save; MoveTo 0 0; Save; MoveTo 0 0] None).
Proof. vm_compute. reflexivity. Qed.
